(** * Gmailpush: a shallow embedding of [lib/gmailpush.js]

    The development follows the source module top to bottom:

    - [Js]: the few JavaScript primitives the module relies on
      (truthiness, [Array.prototype.includes], [String.prototype.split]);
    - [RegExp]: a backtracking matcher for the two regular expression
      literals of the module;
    - [Gmailpush]: the data model and the methods of [Gmailpush.prototype],
      written in a small state-and-exception monad over the instance's
      [_api] bag, the history file and a trace of the I/O requests issued;
    - the theorems about those definitions.

    Strings are sequences of 8-bit code units (the Latin-1 range of
    JavaScript's UTF-16 code units). A history id and an expiration,
    which the source converts with [Number], are an integer, an
    infinity or [NaN]; the history file keeps [null] for what is not
    finite, since it is written with [JSON.stringify]. *)

From Stdlib Require Import List String Ascii ZArith Bool Arith Lia.
Import ListNotations.

#[local] Set Warnings "-register-all".

Local Open Scope string_scope.
Local Open Scope list_scope.

(* ================================================================== *)
(** ** JavaScript primitives *)

Module Js.

(** [ToBoolean] on a string: only the empty string is falsy. *)
Definition truthyString (s : string) : bool :=
  match s with
  | EmptyString => false
  | String _ _ => true
  end.

(** [ToBoolean] on a possibly [undefined] string. *)
Definition truthy (v : option string) : bool :=
  match v with
  | Some s => truthyString s
  | None => false
  end.

(** [xs.includes(x)] on an array of strings. *)
Definition includes (xs : list string) (x : string) : bool :=
  existsb (String.eqb x) xs.

(** [s.startsWith(p)]. *)
Definition startsWith (s p : string) : bool := String.prefix p s.

(** [s.split(', ')]: the separator is the two characters comma, space.
    [cur] holds the characters of the current segment, reversed. *)
Fixpoint splitCommaSpaceAux (cur : list ascii) (s : string) : list string :=
  match s with
  | EmptyString => [string_of_list_ascii (rev cur)]
  | String c rest =>
      match rest with
      | String d rest' =>
          if (Ascii.eqb c ","%char && Ascii.eqb d " "%char)%bool
          then string_of_list_ascii (rev cur) :: splitCommaSpaceAux [] rest'
          else splitCommaSpaceAux (c :: cur) rest
      | EmptyString => [string_of_list_ascii (rev (c :: cur))]
      end
  end.

Definition splitCommaSpace (s : string) : list string :=
  splitCommaSpaceAux [] s.

(** [xs.join(', ')]. *)
Fixpoint joinCommaSpace (xs : list string) : string :=
  match xs with
  | [] => ""
  | [x] => x
  | x :: rest => x ++ ", " ++ joinCommaSpace rest
  end.

End Js.

(* ================================================================== *)
(** ** Regular expressions

    A backtracking matcher in continuation-passing style, with the priority
    order of ECMAScript: alternatives left to right, quantifiers greedy.
    It covers the constructs the two literals of the module use. *)

Module RegExp.

Inductive regex : Type :=
| Eps
| Class (p : ascii -> bool)        (* one character of a class *)
| Bol                              (* [^], no multiline flag *)
| Seq (r1 r2 : regex)
| Alt (r1 r2 : regex)              (* [r1|r2] *)
| Opt (r : regex)                  (* [r?], greedy *)
| StarC (p : ascii -> bool)        (* [c*] on a class, greedy *)
| Group (i : nat) (r : regex).     (* capturing group number [i] *)

(** The captures recorded so far, most recent first. *)
Definition captures := list (nat * list ascii).

Fixpoint capture (i : nat) (c : captures) : option (list ascii) :=
  match c with
  | [] => None
  | (j, v) :: c' => if Nat.eqb i j then Some v else capture i c'
  end.

(** A continuation receives the rest of the input, the index reached and
    the captures. *)
Definition cont (R : Type) := list ascii -> nat -> captures -> option R.

Fixpoint m {R : Type} (r : regex) (s : list ascii) (pos : nat)
         (c : captures) (k : cont R) {struct r} : option R :=
  match r with
  | Eps => k s pos c
  | Class p =>
      match s with
      | a :: s' => if p a then k s' (S pos) c else None
      | [] => None
      end
  | Bol => if Nat.eqb pos 0 then k s pos c else None
  | Seq r1 r2 => m r1 s pos c (fun s' pos' c' => m r2 s' pos' c' k)
  | Alt r1 r2 =>
      match m r1 s pos c k with
      | Some x => Some x
      | None => m r2 s pos c k
      end
  | Opt r1 =>
      match m r1 s pos c k with
      | Some x => Some x
      | None => k s pos c
      end
  | StarC p =>
      (fix go (s : list ascii) (pos : nat) {struct s} : option R :=
         match s with
         | a :: s' =>
             if p a
             then match go s' (S pos) with
                  | Some x => Some x
                  | None => k s pos c
                  end
             else k s pos c
         | [] => k s pos c
         end) s pos
  | Group i r1 =>
      m r1 s pos c
        (fun s' pos' c' => k s' pos' ((i, firstn (pos' - pos) s) :: c'))
  end.

(** The result of a successful match: where it starts and ends in the
    subject, and its captures. *)
Record matchResult : Type := MatchResult {
  mStart : nat;
  mEnd : nat;
  mCaptures : captures
}.

(** [RegExpBuiltinExec] without the global or sticky flag: the leftmost
    start index at which the pattern matches. *)
Fixpoint execFrom (r : regex) (s : list ascii) (pos : nat)
  : option matchResult :=
  match m r s pos [] (fun _ e c => Some (MatchResult pos e c)) with
  | Some x => Some x
  | None =>
      match s with
      | [] => None
      | _ :: s' => execFrom r s' (S pos)
      end
  end.

Definition exec (r : regex) (s : string) : option matchResult :=
  execFrom r (list_ascii_of_string s) 0.

(** Building blocks. *)
Definition chr (a : ascii) : regex := Class (Ascii.eqb a).

Fixpoint lit (s : string) : regex :=
  match s with
  | EmptyString => Eps
  | String a rest => Seq (chr a) (lit rest)
  end.

Definition plusC (p : ascii -> bool) : regex := Seq (Class p) (StarC p).

(** [.]: any character except a line terminator. *)
Definition dot (a : ascii) : bool :=
  negb (Ascii.eqb a "010"%char || Ascii.eqb a "013"%char).

(** [\s]: white space and line terminators. *)
Definition space (a : ascii) : bool :=
  let n := nat_of_ascii a in
  (Nat.eqb n 9 || Nat.eqb n 10 || Nat.eqb n 11 || Nat.eqb n 12
   || Nat.eqb n 13 || Nat.eqb n 32 || Nat.eqb n 160)%bool.

(** [[^>]]. *)
Definition notGt (a : ascii) : bool := negb (Ascii.eqb a ">"%char).

(** [s.replace(r, '$&s')] for a regular expression without the global
    flag: an ["s"] is inserted after the first match. *)
Definition replaceAppendS (r : regex) (s : string) : string :=
  match exec r s with
  | Some res =>
      let l := list_ascii_of_string s in
      string_of_list_ascii
        (firstn (mEnd res) l ++ ["s"%char] ++ skipn (mEnd res) l)
  | None => s
  end.

End RegExp.

(* ================================================================== *)
(** ** The module *)

Module Gmailpush.

Import RegExp.

Definition VALID_HISTORY_TYPES : list string :=
  ["messageAdded"; "messageDeleted"; "labelAdded"; "labelRemoved"].

(** The literal "/^message|label/". *)
Definition historyTypeRegex : regex :=
  Alt (Seq Bol (lit "message")) (lit "label").

Definition _makeHistoryTypePlural (historyType : string) : string :=
  replaceAppendS historyTypeRegex historyType.

(** The body of the second group of the address pattern: one or more
    characters, ["@"], one or more characters other than [">"]. *)
Definition addressBody : regex :=
  Seq (plusC dot) (Seq (chr "@") (plusC notGt)).

(** The address pattern: an optional, non-capturing part made of group 1
    (any characters, greedy) and one white space character; then an
    optional ["<"], group 2 and an optional [">"]. *)
Definition emailAddressRegex : regex :=
  Seq (Opt (Seq (Group 1 (StarC dot)) (Class space)))
      (Seq (Opt (chr "<")) (Seq (Group 2 addressBody) (Opt (chr ">")))).

(** *** Data model *)

(** A thrown [Error] (or [TypeError]); only its message is ever read. *)
Record jsError : Type := JsError { err_message : string }.

(** A number as the module meets one. [Number] makes of a history id or
    of an expiration a finite number (the provider's are integers, and so
    are the model's), an infinity, or [NaN] when the value is missing or
    not numeric; [null] is how [JSON.stringify] writes what is not
    finite. *)
Inductive jsNumber : Type :=
| Num (z : Z)
| PosInf
| NegInf
| NaN
| Null.

(** [ToNumber]: [null] counts as zero. *)
Definition toNumber (n : jsNumber) : jsNumber :=
  match n with
  | Null => Num 0
  | _ => n
  end.

(** [a <= b]: false as soon as a side is [NaN]. *)
Definition jsLeq (a b : jsNumber) : bool :=
  match toNumber a, toNumber b with
  | NaN, _ | _, NaN => false
  | Num x, Num y => (x <=? y)%Z
  | NegInf, _ | _, PosInf => true
  | _, _ => false
  end.

(** A number after [JSON.stringify] and [JSON.parse]. *)
Definition jsonNumber (n : jsNumber) : jsNumber :=
  match n with
  | Num z => Num z
  | _ => Null
  end.

(** [{name, address}], the parsed form of an address header. *)
Record parsedEmail : Type := ParsedEmail {
  name : string;
  address : string
}.

(** An element of the history file. *)
Record prevHistory : Type := PrevHistory {
  emailAddress : string;
  prevHistoryId : jsNumber;
  watchExpiration : jsNumber
}.

(** The decoded payload of a push notification; [np_historyId] is what
    [Number] makes of its [historyId]. *)
Record notificationPayload : Type := NotificationPayload {
  np_emailAddress : string;
  np_historyId : jsNumber
}.

(** A push notification: its [message.data] either decodes (base64, then
    JSON) to a payload, or decoding throws. *)
Inductive notification : Type :=
| Push (payload : notificationPayload)
| Garbled (e : jsError).

(** An element of [labelsAdded] or [labelsRemoved]. *)
Record labelChange : Type := LabelChange {
  lc_message : string;
  lc_labelIds : list string
}.

(** An element of the [history] array; the four change properties are
    present or not, independently. *)
Record historyEntry : Type := HistoryEntry {
  he_id : string;
  he_messages : list string;
  messagesAdded : option (list string);
  messagesDeleted : option (list string);
  labelsAdded : option (list labelChange);
  labelsRemoved : option (list labelChange)
}.

(** The [data] of a [users.history.list] response. *)
Record historyPage : Type := HistoryPage {
  nextPageToken : option string;
  history : option (list historyEntry)
}.

Record header : Type := Header { h_name : string; h_value : string }.

(** The body of a part; [data] is absent from the body of an
    attachment. *)
Record partBody : Type := PartBody {
  b_data : option string;
  b_attachmentId : option string;
  b_size : Z
}.

(** A message payload: a MIME part and its sub-parts. *)
Inductive part : Type :=
| Part (mimeType filename : string) (headers : list header)
       (body : partBody) (parts : list part).

Record attachment : Type := Attachment {
  a_mimeType : string;
  a_filename : string;
  a_attachmentId : option string;
  a_size : Z;
  a_data : option string
}.

(** A message as [users.messages.get] returns it, or the dummy object
    [_getMessageFromId] builds. *)
Record message : Type := Message {
  m_id : string;
  m_labelIds : option (list string);
  m_payload : option part;
  m_attachments : option (list attachment);
  m_notFound : bool
}.

(** A parsed message: a copy of the message with the derived properties. *)
Record parsedMessage : Type := ParsedMessage {
  pm_message : message;
  historyType : string;
  from : option parsedEmail;
  to : option (list parsedEmail);
  cc : option (list parsedEmail);
  bcc : option (list parsedEmail);
  subject : option string;
  date : option string;
  bodyHtml : option string;
  bodyText : option string;
  attachments : option (list attachment)
}.

(** The options object of the retrieval methods: each known key is
    present or not; [o_otherKeys] lists any other own key. *)
Record options : Type := Options {
  o_notification : option notification;
  o_token : option string;
  o_historyTypes : option (list string);
  o_addedLabelIds : option (list string);
  o_removedLabelIds : option (list string);
  o_withLabelIds : option (list string);
  o_withoutLabelIds : option (list string);
  o_otherKeys : list string
}.

Record rules : Type := Rules {
  required : list string;
  optional : option (list string)
}.

(** The [_api] bag of an instance. *)
Record api : Type := Api {
  prevHistoryIdFilePath : string;
  prevHistories : list prevHistory;
  pubsubTopic : string;
  api_emailAddress : string;
  startHistoryId : option jsNumber;
  historyTypes : list string;
  addedLabelIds : option (list string);
  removedLabelIds : option (list string);
  withLabelIds : option (list string);
  withoutLabelIds : option (list string)
}.

(** The history file: reading it fails with an error, or it holds the
    text [JSON.stringify] made of an array of records. *)
Inductive fileState : Type :=
| FileError (e : jsError)
| FileContent (records : list prevHistory).

(** A record after [JSON.stringify] and [JSON.parse]. *)
Definition jsonRecord (r : prevHistory) : prevHistory :=
  PrevHistory (emailAddress r) (jsonNumber (prevHistoryId r))
              (jsonNumber (watchExpiration r)).

Definition enoent (path : string) : jsError :=
  JsError ("ENOENT: no such file or directory, open '" ++ path ++ "'").

Definition FileAbsent (path : string) : fileState := FileError (enoent path).

(** The requests a call issues, to the file system and to the Gmail API. *)
Inductive request : Type :=
| ReadFile (path : string)
| WriteFile (path : string) (records : list prevHistory)
| Watch (userId topicName : string)
| HistoryList (userId : string) (start : option jsNumber)
              (pageToken : option string)
| MessagesGet (id userId : string)
| AttachmentsGet (id : option string) (messageId userId : string).

(** The Gmail API client, [this._api.gmail]: each request is answered by
    a rejection or a response. Of the response to a lease renewal the
    source reads [Number(expiration)], of the response to an attachment
    request the [data], which may be missing. *)
Record gmailService : Type := GmailService {
  users_watch : string -> string -> jsError + jsNumber;
  users_history_list :
    string -> option jsNumber -> option string -> jsError + historyPage;
  users_messages_get : string -> string -> jsError + message;
  users_messages_attachments_get :
    option string -> string -> string -> jsError + option string
}.

(** What a method runs in: the instance, the file and the requests
    issued so far, oldest first. *)
Record world : Type := World {
  w_api : api;
  w_file : fileState;
  w_trace : list request
}.

(** *** The monad of the methods

    A method returns a value, throws (or rejects), or, for the one
    method that recurses on the provider's answers, runs out of fuel.
    The world is threaded through; what a method changed before it
    threw stays changed. *)

Inductive outcome (A : Type) : Type :=
| Return (a : A)
| Throw (e : jsError)
| OutOfFuel.

Arguments Return {A} a.
Arguments Throw {A} e.
Arguments OutOfFuel {A}.

Definition M (A : Type) : Type := world -> outcome A * world.

Definition ret {A : Type} (a : A) : M A := fun w => (Return a, w).

Definition throw {A : Type} (e : jsError) : M A := fun w => (Throw e, w).

Definition bind {A B : Type} (c : M A) (k : A -> M B) : M B :=
  fun w =>
    match c w with
    | (Return a, w') => k a w'
    | (Throw e, w') => (Throw e, w')
    | (OutOfFuel, w') => (OutOfFuel, w')
    end.

Notation "x <- c ;; k" := (bind c (fun x => k))
  (at level 61, c at next level, right associativity).
Notation "c ;;; k" := (bind c (fun _ => k))
  (at level 61, right associativity).

Definition liftE {A : Type} (r : jsError + A) : M A :=
  match r with
  | inl e => throw e
  | inr a => ret a
  end.

Definition getApi : M api := fun w => (Return (w_api w), w).

Definition issue (q : request) : M unit :=
  fun w => (Return tt, World (w_api w) (w_file w) (w_trace w ++ [q])).

(** [fs.readFile] followed by [JSON.parse]. *)
Definition readHistoryFile (path : string) : M (list prevHistory) :=
  issue (ReadFile path) ;;;
  fun w =>
    match w_file w with
    | FileError e => (Throw e, w)
    | FileContent records => (Return (map jsonRecord records), w)
    end.

(** [fs.writeFile] of [JSON.stringify(records)]; the source does not
    await it, the model completes it at once. *)
Definition writeHistoryFile (path : string) (records : list prevHistory)
  : M unit :=
  issue (WriteFile path records) ;;;
  fun w => (Return tt, World (w_api w) (FileContent records) (w_trace w)).

(** [try { c } catch (err) { h err }]. *)
Definition tryCatch {A : Type} (c : M A) (h : jsError -> M A) : M A :=
  fun w =>
    match c w with
    | (Throw e, w') => h e w'
    | r => r
    end.

(** Sequential [map] of an effectful function; the source's
    [Promise.all] issues the requests in this order. *)
Fixpoint mapM {A B : Type} (f : A -> M B) (xs : list A) : M (list B) :=
  match xs with
  | [] => ret []
  | x :: rest =>
      y <- f x ;;
      ys <- mapM f rest ;;
      ret (y :: ys)
  end.

(** Assignments to the properties of [this._api]. *)
Definition setPrevHistories (v : list prevHistory) (a : api) : api :=
  Api (prevHistoryIdFilePath a) v (pubsubTopic a) (api_emailAddress a)
      (startHistoryId a) (historyTypes a) (addedLabelIds a)
      (removedLabelIds a) (withLabelIds a) (withoutLabelIds a).

Definition setEmailAddress (v : string) (a : api) : api :=
  Api (prevHistoryIdFilePath a) (prevHistories a) (pubsubTopic a) v
      (startHistoryId a) (historyTypes a) (addedLabelIds a)
      (removedLabelIds a) (withLabelIds a) (withoutLabelIds a).

Definition setStartHistoryId (v : option jsNumber) (a : api) : api :=
  Api (prevHistoryIdFilePath a) (prevHistories a) (pubsubTopic a)
      (api_emailAddress a) v (historyTypes a) (addedLabelIds a)
      (removedLabelIds a) (withLabelIds a) (withoutLabelIds a).

Definition setHistoryTypes (v : list string) (a : api) : api :=
  Api (prevHistoryIdFilePath a) (prevHistories a) (pubsubTopic a)
      (api_emailAddress a) (startHistoryId a) v (addedLabelIds a)
      (removedLabelIds a) (withLabelIds a) (withoutLabelIds a).

Definition setAddedLabelIds (v : option (list string)) (a : api) : api :=
  Api (prevHistoryIdFilePath a) (prevHistories a) (pubsubTopic a)
      (api_emailAddress a) (startHistoryId a) (historyTypes a) v
      (removedLabelIds a) (withLabelIds a) (withoutLabelIds a).

Definition setRemovedLabelIds (v : option (list string)) (a : api) : api :=
  Api (prevHistoryIdFilePath a) (prevHistories a) (pubsubTopic a)
      (api_emailAddress a) (startHistoryId a) (historyTypes a)
      (addedLabelIds a) v (withLabelIds a) (withoutLabelIds a).

Definition setWithLabelIds (v : option (list string)) (a : api) : api :=
  Api (prevHistoryIdFilePath a) (prevHistories a) (pubsubTopic a)
      (api_emailAddress a) (startHistoryId a) (historyTypes a)
      (addedLabelIds a) (removedLabelIds a) v (withoutLabelIds a).

Definition setWithoutLabelIds (v : option (list string)) (a : api) : api :=
  Api (prevHistoryIdFilePath a) (prevHistories a) (pubsubTopic a)
      (api_emailAddress a) (startHistoryId a) (historyTypes a)
      (addedLabelIds a) (removedLabelIds a) (withLabelIds a) v.

Definition modifyApi (f : api -> api) : M unit :=
  fun w => (Return tt, World (f (w_api w)) (w_file w) (w_trace w)).

(** The instance a constructor call leaves behind. *)
Definition newApi (path topic : string) : api :=
  Api path [] topic "" None [] None None None None.

Definition DEFAULT_HISTORY_ID_FILE_PATH : string := "gmailpush_history.json".

(** *** Pure helpers of the methods *)

Definition isSome {A : Type} (o : option A) : bool :=
  match o with
  | Some _ => true
  | None => false
  end.

(** [historyEntry.hasOwnProperty(key)]. *)
Definition hasOwnProperty (e : historyEntry) (key : string) : bool :=
  if key =? "id" then true
  else if key =? "messages" then true
  else if key =? "messagesAdded" then isSome (messagesAdded e)
  else if key =? "messagesDeleted" then isSome (messagesDeleted e)
  else if key =? "labelsAdded" then isSome (labelsAdded e)
  else if key =? "labelsRemoved" then isSome (labelsRemoved e)
  else false.

(** The mutation of the object [Array.prototype.find] returned: the
    first element satisfying [p] is replaced by its image under [f]. *)
Fixpoint updateFound (p : prevHistory -> bool)
         (f : prevHistory -> prevHistory) (l : list prevHistory)
  : list prevHistory :=
  match l with
  | [] => []
  | x :: rest => if p x then f x :: rest else x :: updateFound p f rest
  end.

Definition setWatchExpiration (v : jsNumber) (ph : prevHistory)
  : prevHistory :=
  PrevHistory (emailAddress ph) (prevHistoryId ph) v.

Definition setPrevHistoryId (v : jsNumber) (ph : prevHistory) : prevHistory :=
  PrevHistory (emailAddress ph) v (watchExpiration ph).

(** [Object.keys(options)]. *)
Definition keys (o : options) : list string :=
  (if isSome (o_notification o) then ["notification"] else [])
  ++ (if isSome (o_token o) then ["token"] else [])
  ++ (if isSome (o_historyTypes o) then ["historyTypes"] else [])
  ++ (if isSome (o_addedLabelIds o) then ["addedLabelIds"] else [])
  ++ (if isSome (o_removedLabelIds o) then ["removedLabelIds"] else [])
  ++ (if isSome (o_withLabelIds o) then ["withLabelIds"] else [])
  ++ (if isSome (o_withoutLabelIds o) then ["withoutLabelIds"] else [])
  ++ o_otherKeys o.

Definition orEmpty {A : Type} (o : option (list A)) : list A :=
  match o with
  | Some l => l
  | None => []
  end.

(** **** The history filter, [_filterHistory] *)

(** The first loop: one [filter] of the whole history per element of
    [this._api.historyTypes], the results concatenated. *)
Definition filteredWithHistoryTypes (a : api) (history : list historyEntry)
  : list historyEntry :=
  fold_left
    (fun acc historyType =>
       acc ++ filter
                (fun historyEntry =>
                   if hasOwnProperty historyEntry
                        (_makeHistoryTypePlural historyType)
                   then true else false)
                history)
    (historyTypes a) [].

(** The inner callback: does one label change carry one of [labelIds]? *)
Definition carriesOneOf (labelIds : list string) (change : labelChange)
  : bool :=
  existsb (fun labelId => Js.includes (lc_labelIds change) labelId) labelIds.

(** The callback of the second [filter]. *)
Definition passesAddedRemovedLabelIds (a : api) (historyEntry : historyEntry)
  : bool :=
  if (isSome (addedLabelIds a)
      && hasOwnProperty historyEntry "labelsAdded"
      && Nat.eqb
           (List.length (filter (carriesOneOf (orEmpty (addedLabelIds a)))
                           (orEmpty (labelsAdded historyEntry))))
           0)%bool
  then false
  else if (isSome (removedLabelIds a)
           && hasOwnProperty historyEntry "labelsRemoved"
           && Nat.eqb
                (List.length (filter (carriesOneOf (orEmpty (removedLabelIds a)))
                                (orEmpty (labelsRemoved historyEntry))))
                0)%bool
  then false
  else true.

Definition _filterHistory (a : api) (history : list historyEntry)
  : list historyEntry :=
  [] ++ filter (passesAddedRemovedLabelIds a)
               (filteredWithHistoryTypes a history).

(** **** The message parser, [_parseEmailAddressHeader], [_parsePayload]
    and [_parseMessage] *)

(** A capture of the match array as a string; a group that did not
    participate is [undefined], which [||] treats like the empty string. *)
Definition group (i : nat) (res : matchResult) : string :=
  match capture i (mCaptures res) with
  | Some v => string_of_list_ascii v
  | None => ""
  end.

Definition _parseEmailAddressHeader (emailAddressHeader : string)
  : parsedEmail :=
  match exec emailAddressRegex emailAddressHeader with
  | Some parsedHeader =>
      {| name := if Js.truthyString (group 1 parsedHeader)
                 then group 1 parsedHeader
                 else group 2 parsedHeader;
         address := group 2 parsedHeader |}
  | None =>
      {| name := emailAddressHeader; address := emailAddressHeader |}
  end.

Definition setBodyHtml (v : string) (pm : parsedMessage) : parsedMessage :=
  ParsedMessage (pm_message pm) (historyType pm) (from pm) (to pm) (cc pm)
                (bcc pm) (subject pm) (date pm) (Some v) (bodyText pm)
                (attachments pm).

Definition setBodyText (v : string) (pm : parsedMessage) : parsedMessage :=
  ParsedMessage (pm_message pm) (historyType pm) (from pm) (to pm) (cc pm)
                (bcc pm) (subject pm) (date pm) (bodyHtml pm) (Some v)
                (attachments pm).

Definition setAttachments (v : list attachment) (pm : parsedMessage)
  : parsedMessage :=
  ParsedMessage (pm_message pm) (historyType pm) (from pm) (to pm) (cc pm)
                (bcc pm) (subject pm) (date pm) (bodyHtml pm) (bodyText pm)
                (Some v).

Definition isAttachmentType (mimeType : string) : bool :=
  (Js.startsWith mimeType "image/"
   || Js.startsWith mimeType "audio/"
   || Js.startsWith mimeType "video/"
   || Js.startsWith mimeType "application/"
   || Js.startsWith mimeType "font/"
   || Js.startsWith mimeType "model/")%bool.

(** The [TypeError] of [Buffer.from(undefined, 'base64')]. *)
Definition bufferError : jsError :=
  JsError "The first argument must be of type string or an instance of Buffer, ArrayBuffer, or Array or an Array-like Object. Received undefined".

Section Parser.

(** [Buffer.from(data, 'base64').toString()], from Node's library. *)
Variable decodeBase64 : string -> string.

(** [_parsePayload] changes [parsedMessage] in place; it throws when
    [Buffer.from] is given the [undefined] data of a text leaf. *)
Fixpoint _parsePayload (payload : part) (parsed : parsedMessage)
  : jsError + parsedMessage :=
  match payload with
  | Part mimeType filename _ body parts =>
      if Js.startsWith mimeType "multipart/"
      then fold_left
             (fun done p =>
                match done with
                | inl err => inl err
                | inr pm => _parsePayload p pm
                end)
             parts (inr parsed)
      else if mimeType =? "text/html"
      then match b_data body with
           | Some data => inr (setBodyHtml (decodeBase64 data) parsed)
           | None => inl bufferError
           end
      else if mimeType =? "text/plain"
      then match b_data body with
           | Some data => inr (setBodyText (decodeBase64 data) parsed)
           | None => inl bufferError
           end
      else if isAttachmentType mimeType
      then inr (setAttachments
                  (orEmpty (attachments parsed)
                   ++ [Attachment mimeType filename (b_attachmentId body)
                                  (b_size body) None])
                  parsed)
      else inr parsed
  end.

Definition headerValue (headerName : string) (payload : part)
  : option string :=
  match payload with
  | Part _ _ headers _ _ =>
      option_map h_value
        (find (fun header => h_name header =? headerName) headers)
  end.

Definition addressList (value : option string)
  : option (list parsedEmail) :=
  option_map
    (fun v => map _parseEmailAddressHeader (Js.splitCommaSpace v)) value.

Definition _parseMessage (message : message) (historyEntry : historyEntry)
  : jsError + parsedMessage :=
  let historyType :=
    match filter
            (fun historyType =>
               hasOwnProperty historyEntry
                 (_makeHistoryTypePlural historyType))
            VALID_HISTORY_TYPES with
    | found :: _ => if Js.truthyString found then found else ""
    | [] => ""
    end in
  match m_payload message with
  | None =>
      inr (ParsedMessage message historyType None None None None None None
                         None None (m_attachments message))
  | Some payload =>
      _parsePayload payload
        (ParsedMessage message historyType
           (option_map _parseEmailAddressHeader
                       (headerValue "From" payload))
           (addressList (headerValue "To" payload))
           (addressList (headerValue "Cc" payload))
           (addressList (headerValue "Bcc" payload))
           (headerValue "Subject" payload)
           (headerValue "Date" payload)
           None None (Some []))
  end.

End Parser.

(** *** The methods that do I/O *)

Definition typeError (msg : string) : jsError := JsError msg.

(** [_getPropsFromOptions]; the argument is [None] when the caller
    passed no options object. *)
Definition _getPropsFromOptions (opts : option options) (rules : rules)
  : M options :=
  match opts with
  | None =>
      throw (JsError ("Options must have "
                      ++ Js.joinCommaSpace (required rules)))
  | Some options =>
      let allowed := required rules ++ orEmpty (optional rules) in
      let unexpectedOptionValues :=
        filter (fun value => negb (Js.includes allowed value))
               (keys options) in
      if Nat.ltb 0 (List.length unexpectedOptionValues)
      then throw (JsError ("Options may only contain the following: "
                           ++ Js.joinCommaSpace allowed))
      else
        let omittedRequiredOptionValues :=
          filter (fun value => negb (Js.includes (keys options) value))
                 (required rules) in
        if Nat.ltb 0 (List.length omittedRequiredOptionValues)
        then throw (JsError ("Options must have the following: "
                             ++ Js.joinCommaSpace
                                  omittedRequiredOptionValues))
        else ret options
  end.

Definition _setApiPropertiesWithProps (props : options) : M unit :=
  (* Set historyTypes *)
  (if Nat.ltb 0
        (List.length
           (filter (fun historyType =>
                      negb (Js.includes VALID_HISTORY_TYPES historyType))
                   (orEmpty (o_historyTypes props))))
   then throw (JsError
                 ("historyTypes option may only contain the following: "
                  ++ Js.joinCommaSpace VALID_HISTORY_TYPES))
   else ret tt) ;;;
  modifyApi (setHistoryTypes
               (match o_historyTypes props with
                | Some historyTypes => historyTypes
                | None => VALID_HISTORY_TYPES
                end)) ;;;
  (* Set addedLabelIds *)
  match o_addedLabelIds props with
  | Some ids =>
      match o_historyTypes props with
      | None =>
          throw (typeError
                   "Cannot read properties of undefined (reading 'includes')")
      | Some historyTypes =>
          if negb (Js.includes historyTypes "labelAdded")
          then throw (JsError
            "addedLabelIds option should be used with labelAdded historyType")
          else modifyApi (setAddedLabelIds (Some ids))
      end
  | None => ret tt
  end ;;;
  (* Set removedLabelIds *)
  match o_removedLabelIds props with
  | Some ids =>
      match o_historyTypes props with
      | None =>
          throw (typeError
                   "Cannot read properties of undefined (reading 'includes')")
      | Some historyTypes =>
          if negb (Js.includes historyTypes "labelRemoved")
          then throw (JsError
        "removedLabelIds option should be used with labelRemoved historyType")
          else modifyApi (setRemovedLabelIds (Some ids))
      end
  | None => ret tt
  end ;;;
  (* Set withLabelIds *)
  match o_withLabelIds props with
  | Some ids => modifyApi (setWithLabelIds (Some ids))
  | None => ret tt
  end ;;;
  (* Set withoutLabelIds *)
  match o_withoutLabelIds props with
  | Some ids => modifyApi (setWithoutLabelIds (Some ids))
  | None => ret tt
  end.

Definition _parseNotificationPayload (n : notification)
  : M notificationPayload :=
  match n with
  | Push payload => ret payload
  | Garbled e => throw e
  end.

Definition getEmailAddress (n : option notification) : M string :=
  match n with
  | None =>
      throw (JsError "getEmailAddress() requires an argument: notification")
  | Some n =>
      payload <- _parseNotificationPayload n ;;
      ret (np_emailAddress payload)
  end.

Definition _getHistoryId (n : option notification) : M jsNumber :=
  match n with
  | None =>
      throw (typeError
               "Cannot read properties of undefined (reading 'message')")
  | Some n =>
      payload <- _parseNotificationPayload n ;;
      ret (np_historyId payload)
  end.

(** [messages.filter(callback)] with a callback that may throw. *)
Fixpoint filterM {A : Type} (f : A -> M bool) (xs : list A) : M (list A) :=
  match xs with
  | [] => ret []
  | x :: rest =>
      keep <- f x ;;
      ys <- filterM f rest ;;
      ret (if keep then x :: ys else ys)
  end.

Definition overlapError : jsError :=
  JsError "withLabelIds and withoutLabelIds should not have the same labelId".

Definition _filterMessage (message : parsedMessage) : M bool :=
  a <- getApi ;;
  if (isSome (withLabelIds a)
      && isSome (withoutLabelIds a)
      && Nat.ltb 0
           (List.length
              (filter (fun labelId =>
                         Js.includes (orEmpty (withoutLabelIds a)) labelId)
                      (orEmpty (withLabelIds a)))))%bool
  then throw overlapError
  else
    let labelIds := m_labelIds (pm_message message) in
    (* a "Not Found" message has no labelIds property *)
    if (negb (isSome labelIds) && isSome (withLabelIds a))%bool
    then ret false
    else if (isSome labelIds
             && isSome (withLabelIds a)
             && Nat.eqb
                  (List.length
                     (filter (fun withLabelId =>
                                Js.includes (orEmpty labelIds) withLabelId)
                             (orEmpty (withLabelIds a))))
                  0)%bool
    then ret false
    else if (isSome labelIds
             && isSome (withoutLabelIds a)
             && Nat.ltb 0
                  (List.length
                     (filter (fun withoutLabelId =>
                                Js.includes (orEmpty labelIds)
                                            withoutLabelId)
                             (orEmpty (withoutLabelIds a)))))%bool
    then ret false
    else ret true.

Definition retrievalRules : rules :=
  Rules ["notification"; "token"]
        (Some ["historyTypes"; "addedLabelIds"; "removedLabelIds";
               "withLabelIds"; "withoutLabelIds"]).

Definition newMessageRules : rules := Rules ["notification"; "token"] None.

Section Methods.

(** [this._api.gmail], the client built from the token. *)
Variable gmail : gmailService.

Variable decodeBase64 : string -> string.

Definition _refreshWatch : M jsNumber :=
  a <- getApi ;;
  issue (Watch (api_emailAddress a) (pubsubTopic a)) ;;;
  liftE (users_watch gmail (api_emailAddress a) (pubsubTopic a)).

(** In [prevHistory.watchExpiration = await this._refreshWatch()] the
    right-hand side is evaluated before the property is put, so with
    [prevHistory] undefined the watch request is issued before the
    [TypeError] is thrown. *)
Definition _initialize (n : option notification) (token : option string)
  : M bool :=
  email <- getEmailAddress n ;;
  modifyApi (setEmailAddress email) ;;;
  a <- getApi ;;
  tryCatch
    (records <- readHistoryFile (prevHistoryIdFilePath a) ;;
     modifyApi (setPrevHistories records))
    (fun err =>
       if Js.startsWith (err_message err)
                        "ENOENT: no such file or directory"
       then
         historyId <- _getHistoryId n ;;
         modifyApi
           (fun a =>
              setPrevHistories
                (prevHistories a ++ [PrevHistory email historyId Null])
                a)
       else throw err) ;;;
  a <- getApi ;;
  let isMine := fun ph => emailAddress ph =? email in
  let prevHistory := find isMine (prevHistories a) in
  expiration <- _refreshWatch ;;
  match prevHistory with
  | Some prevHistory =>
      modifyApi
        (fun a =>
           setPrevHistories
             (updateFound isMine (setWatchExpiration expiration)
                          (prevHistories a))
             a) ;;;
      historyId <- _getHistoryId n ;;
      if jsLeq historyId (prevHistoryId prevHistory)
      then
        a <- getApi ;;
        writeHistoryFile (prevHistoryIdFilePath a) (prevHistories a) ;;;
        ret false
      else
        modifyApi (setStartHistoryId (Some (prevHistoryId prevHistory))) ;;;
        modifyApi
          (fun a =>
             setPrevHistories
               (updateFound isMine (setPrevHistoryId historyId)
                            (prevHistories a))
               a) ;;;
        a <- getApi ;;
        writeHistoryFile (prevHistoryIdFilePath a) (prevHistories a) ;;;
        ret true
  | None =>
      throw (typeError
        "Cannot set properties of undefined (setting 'watchExpiration')")
  end.

(** [_getHistory] calls itself once per page the provider announces;
    [fuel] bounds the number of pages requested. *)
Fixpoint _getHistory (fuel : nat) (pageToken : option string)
  : M (list historyEntry) :=
  match fuel with
  | O => fun w => (OutOfFuel, w)
  | S fuel' =>
      a <- getApi ;;
      let token := if Js.truthy pageToken then pageToken else None in
      issue (HistoryList (api_emailAddress a) (startHistoryId a) token) ;;;
      page <- liftE (users_history_list gmail (api_emailAddress a)
                                        (startHistoryId a) token) ;;
      if Js.truthy (nextPageToken page)
      then
        rest <- _getHistory fuel' (nextPageToken page) ;;
        ret ([] ++ rest)
      else ret (orEmpty (history page))
  end.

Definition notFoundMessage (messageId : string) : message :=
  Message messageId None None (Some []) true.

Definition _getMessageFromId (messageId : string) : M message :=
  a <- getApi ;;
  issue (MessagesGet messageId (api_emailAddress a)) ;;;
  tryCatch
    (liftE (users_messages_get gmail messageId (api_emailAddress a)))
    (fun err =>
       if err_message err =? "Not Found"
       then ret (notFoundMessage messageId)
       else throw err).

(** The requests of a [Promise.all] are issued and settled one after
    the other, in array order. *)
Definition getMessagesWithoutAttachment (fuel : nat)
           (opts : option options) : M (list parsedMessage) :=
  props <- _getPropsFromOptions opts retrievalRules ;;
  _setApiPropertiesWithProps props ;;;
  shouldProceed <- _initialize (o_notification props) (o_token props) ;;
  if shouldProceed : bool
  then
    fetched <- _getHistory fuel None ;;
    a <- getApi ;;
    let history := _filterHistory a fetched in
    if Nat.ltb 0 (List.length history)
    then
      resolved <-
        mapM (fun historyEntry =>
                mapM (fun id =>
                        message <- _getMessageFromId id ;;
                        liftE (_parseMessage decodeBase64 message
                                             historyEntry))
                     (he_messages historyEntry))
             history ;;
      let messages :=
        fold_left (fun messages message => messages ++ message)
                  resolved [] in
      filterM _filterMessage messages
    else ret []
  else ret [].

(** [Buffer.from(data, 'base64')] throws on a response without
    [data]. *)
Definition getAttachment (message : parsedMessage) (att : attachment)
  : M string :=
  a <- getApi ;;
  issue (AttachmentsGet (a_attachmentId att) (m_id (pm_message message))
                        (api_emailAddress a)) ;;;
  response <- liftE (users_messages_attachments_get gmail
                       (a_attachmentId att) (m_id (pm_message message))
                       (api_emailAddress a)) ;;
  match response with
  | Some data => ret (decodeBase64 data)
  | None => throw bufferError
  end.

Definition withData (data : string) (att : attachment) : attachment :=
  Attachment (a_mimeType att) (a_filename att) (a_attachmentId att)
             (a_size att) (Some data).

(** Fetch the data of every attachment of one message. *)
Definition attachAll (message : parsedMessage) : M parsedMessage :=
  match attachments message with
  | None =>
      throw (typeError
               "Cannot read properties of undefined (reading 'map')")
  | Some atts =>
      fetched <- mapM (fun att =>
                         data <- getAttachment message att ;;
                         ret (withData data att))
                      atts ;;
      ret (setAttachments fetched message)
  end.

Definition getMessages (fuel : nat) (opts : option options)
  : M (list parsedMessage) :=
  messages <- getMessagesWithoutAttachment fuel opts ;;
  mapM attachAll messages.

Definition getNewMessage (fuel : nat) (opts : option options)
  : M (option parsedMessage) :=
  props <- _getPropsFromOptions opts newMessageRules ;;
  let props :=
    Options (o_notification props) (o_token props)
            (Some ["messageAdded"]) (o_addedLabelIds props)
            (o_removedLabelIds props) (Some ["INBOX"]) (Some ["SENT"])
            (o_otherKeys props) in
  messages <- getMessagesWithoutAttachment fuel (Some props) ;;
  match messages with
  | message :: _ =>
      attached <- attachAll message ;;
      ret (Some attached)
  | [] => ret None
  end.

End Methods.

End Gmailpush.

Import RegExp Gmailpush.

(* ================================================================== *)
(** ** Specification-side vocabulary *)

Module Spec.

(** The four kinds of change, in the order of [VALID_HISTORY_TYPES]. *)
Inductive kind : Type := Added | Deleted | LabelAdded | LabelRemoved.

Definition allKinds : list kind := [Added; Deleted; LabelAdded; LabelRemoved].

Definition kindName (k : kind) : string :=
  match k with
  | Added => "messageAdded"
  | Deleted => "messageDeleted"
  | LabelAdded => "labelAdded"
  | LabelRemoved => "labelRemoved"
  end.

(** An entry carries a change of kind [k]. *)
Definition carries (k : kind) (e : historyEntry) : bool :=
  match k with
  | Added => isSome (messagesAdded e)
  | Deleted => isSome (messagesDeleted e)
  | LabelAdded => isSome (labelsAdded e)
  | LabelRemoved => isSome (labelsRemoved e)
  end.

Definition kind_eqb (k1 k2 : kind) : bool :=
  match k1, k2 with
  | Added, Added | Deleted, Deleted
  | LabelAdded, LabelAdded | LabelRemoved, LabelRemoved => true
  | _, _ => false
  end.

(** The kind pass as the specification words it: the groups of the
    requested kinds, always in the order added, deleted, label-added,
    label-removed. *)
Definition fixedOrderKindPass (requested : list kind)
           (history : list historyEntry) : list historyEntry :=
  flat_map (fun k => filter (carries k) history)
           (filter (fun k => existsb (kind_eqb k) requested) allKinds).

(** [s'] is what is left of the input [s] at some point of a match. *)
Definition suffix (s' s : list ascii) : Prop := exists l, s = l ++ s'.

(** Captures only grow along a match. *)
Definition extends (c c' : captures) : Prop := exists l, c' = l ++ c.

(** A header has the shape of an address somewhere: an ["@"] preceded by
    a character that is no line terminator and followed by a character
    other than [">"]. *)
Fixpoint addressShaped (l : list ascii) : bool :=
  match l with
  | [] => false
  | a :: t =>
      match t with
      | c :: b :: _ => dot a && Ascii.eqb "@" c && notGt b
      | _ => false
      end
      || addressShaped t
  end.

(** A label delta meets a configured label-id set: some change of the
    delta carries some label id of the set. *)
Definition intersects (labelIds : list string) (changes : list labelChange)
  : Prop :=
  exists change labelId,
    In change changes /\ In labelId labelIds
    /\ In labelId (lc_labelIds change).

(** The include and exclude sets are both configured and share a label. *)
Definition overlapping (a : api) : Prop :=
  exists withIds withoutIds labelId,
    withLabelIds a = Some withIds /\ withoutLabelIds a = Some withoutIds
    /\ In labelId withIds /\ In labelId withoutIds.

(** The same, of the options of a call. *)
Definition overlappingOptions (o : options) : Prop :=
  exists withIds withoutIds labelId,
    o_withLabelIds o = Some withIds /\ o_withoutLabelIds o = Some withoutIds
    /\ In labelId withIds /\ In labelId withoutIds.

(** The label filters an instance is configured with. *)
Definition labelFilters (w : world)
  : option (list string) * option (list string) :=
  (withLabelIds (w_api w), withoutLabelIds (w_api w)).

(** The first record of the account in a collection, as
    [Array.prototype.find] selects it. *)
Definition recordOf (account : string) (records : list prevHistory)
  : option prevHistory :=
  find (fun ph => emailAddress ph =? account) records.

(** The counter and the lease expiration the history file holds for an
    account: those of its record in the array the file parses to. *)
Definition storedRecord (w : world) (account : string)
  : option prevHistory :=
  match w_file w with
  | FileContent records => recordOf account (map jsonRecord records)
  | FileError _ => None
  end.

Definition storedCounter (w : world) (account : string) : option jsNumber :=
  option_map prevHistoryId (storedRecord w account).

(** One reconciliation cycle: the client in place, the notification and
    the token of the call. *)
Record cycle : Type := Cycle {
  c_gmail : gmailService;
  c_notification : option notification;
  c_token : option string
}.

(** The notification of a cycle, if it is one for the account, carries a
    counter that is a number. *)
Definition numericFor (account : string) (c : cycle) : Prop :=
  forall payload,
    c_notification c = Some (Push payload) ->
    np_emailAddress payload = account ->
    exists z, np_historyId payload = Num z.

(** The world a cycle leaves behind, however it ends. *)
Definition runCycle (c : cycle) (w : world) : world :=
  snd (_initialize (c_gmail c) (c_notification c) (c_token c) w).

Definition runCycles (cycles : list cycle) (w : world) : world :=
  fold_left (fun w c => runCycle c w) cycles w.

(** The pages the provider serves from a page token on, following the
    continuation tokens until a page carries none. *)
Inductive servedPages (gmail : gmailService) (userId : string)
          (start : option jsNumber)
  : option string -> list historyPage -> Prop :=
| served_last : forall pageToken page,
    users_history_list gmail userId start
      (if Js.truthy pageToken then pageToken else None) = inr page ->
    Js.truthy (nextPageToken page) = false ->
    servedPages gmail userId start pageToken [page]
| served_more : forall pageToken page pages,
    users_history_list gmail userId start
      (if Js.truthy pageToken then pageToken else None) = inr page ->
    Js.truthy (nextPageToken page) = true ->
    servedPages gmail userId start (nextPageToken page) pages ->
    servedPages gmail userId start pageToken (page :: pages).

(** The complete change log: the entries of all pages, in order. *)
Definition allEntries (pages : list historyPage) : list historyEntry :=
  flat_map (fun page => orEmpty (history page)) pages.

(** *** Vocabulary of the further properties *)

(** The configuration a call leaves in the instance. *)
Definition config (w : world)
  : list string * option (list string) * option (list string)
    * option (list string) * option (list string) :=
  (historyTypes (w_api w), addedLabelIds (w_api w), removedLabelIds (w_api w),
   withLabelIds (w_api w), withoutLabelIds (w_api w)).

(** A computation that leaves the configuration as it found it. *)
Definition keepsConfig {A : Type} (c : M A) : Prop :=
  forall w, config (snd (c w)) = config w.

(** A computation that neither issues a request nor touches the file. *)
Definition silent {A : Type} (c : M A) : Prop :=
  forall w, w_trace (snd (c w)) = w_trace w /\ w_file (snd (c w)) = w_file w.

Definition isWriteFile (q : request) : bool :=
  match q with
  | WriteFile _ _ => true
  | _ => false
  end.

(** The first kind an entry carries, in the order of
    [VALID_HISTORY_TYPES]. *)
Definition firstKind (e : historyEntry) : option kind :=
  find (fun k => carries k e) allKinds.

(** The attachments of a payload, in depth-first order. *)
Fixpoint attachmentsOf (payload : part) : list attachment :=
  match payload with
  | Part mimeType filename _ body parts =>
      if Js.startsWith mimeType "multipart/"
      then flat_map attachmentsOf parts
      else if isAttachmentType mimeType
      then [Attachment mimeType filename (b_attachmentId body) (b_size body)
                       None]
      else []
  end.

(** The data of the leaves of a given type, in depth-first order. *)
Fixpoint leafBodies (leafType : string) (payload : part) : list string :=
  match payload with
  | Part mimeType _ _ body parts =>
      if Js.startsWith mimeType "multipart/"
      then flat_map (leafBodies leafType) parts
      else if mimeType =? leafType
      then match b_data body with
           | Some data => [data]
           | None => []
           end
      else []
  end.

(** Every [text/html] and [text/plain] leaf of a payload has data. *)
Fixpoint textLeavesHaveData (payload : part) : bool :=
  match payload with
  | Part mimeType _ _ body parts =>
      if Js.startsWith mimeType "multipart/"
      then forallb textLeavesHaveData parts
      else if (mimeType =? "text/html") || (mimeType =? "text/plain")
      then isSome (b_data body)
      else true
  end.

(** The last element of a list, after a default. *)
Definition lastOr {A : Type} (previous : option A) (l : list A) : option A :=
  fold_left (fun _ x => Some x) l previous.

(** A string holds the separator of [split(', ')]. *)
Fixpoint containsCommaSpace (s : string) : bool :=
  match s with
  | EmptyString => false
  | String c rest =>
      match rest with
      | String d _ =>
          (Ascii.eqb c ","%char && Ascii.eqb d " "%char)
          || containsCommaSpace rest
      | EmptyString => false
      end
  end.

(** The requests [_getHistory] issues for a chain of pages: the first
    with the token of the call, each next one with the token of the page
    before. *)
Fixpoint pageRequests (userId : string) (start : option jsNumber)
         (pageToken : option string) (pages : list historyPage)
  : list request :=
  match pages with
  | [] => []
  | page :: rest =>
      HistoryList userId start (if Js.truthy pageToken then pageToken else None)
      :: pageRequests userId start (nextPageToken page) rest
  end.

(** [m] is [p] with, as the data of each of its attachments, the
    decoded answer of the provider to the request for that attachment
    of that message. *)
Definition attached (gmail : gmailService) (decodeBase64 : string -> string)
           (userId : string) (p m : parsedMessage) : Prop :=
  exists atts fetched,
    attachments p = Some atts
    /\ m = setAttachments fetched p
    /\ Forall2
         (fun a a' =>
            exists data,
              users_messages_attachments_get gmail (a_attachmentId a)
                (m_id (pm_message p)) userId = inr (Some data)
              /\ a' = withData (decodeBase64 data) a)
         atts fetched.

(** The requests for the attachments of a message, in order. *)
Definition attachmentRequests (userId : string) (p : parsedMessage)
  : list request :=
  map (fun a => AttachmentsGet (a_attachmentId a) (m_id (pm_message p)) userId)
      (orEmpty (attachments p)).

(** The resolution step of a retrieval: every message id of every
    history entry is resolved and parsed, in order. *)
Definition resolveHistory (gmail : gmailService)
           (decodeBase64 : string -> string) (history : list historyEntry)
  : M (list (list parsedMessage)) :=
  mapM (fun historyEntry =>
          mapM (fun id =>
                  message <- _getMessageFromId gmail id ;;
                  liftE (_parseMessage decodeBase64 message historyEntry))
               (he_messages historyEntry))
       history.

(** [reduce] with [concat]. *)
Definition concatAll {A : Type} (lists : list (list A)) : list A :=
  fold_left (fun messages message => messages ++ message) lists [].

(** What [_setApiPropertiesWithProps] accepts. *)
Definition acceptableProps (props : options) : Prop :=
  (forall t, In t (orEmpty (o_historyTypes props)) ->
             In t VALID_HISTORY_TYPES)
  /\ (forall ids, o_addedLabelIds props = Some ids ->
                  exists types, o_historyTypes props = Some types
                                /\ In "labelAdded" types)
  /\ (forall ids, o_removedLabelIds props = Some ids ->
                  exists types, o_historyTypes props = Some types
                                /\ In "labelRemoved" types).

(** A value supplied by a call, or else the value already there. *)
Definition supplied {A : Type} (given previous : option A) : option A :=
  match given with
  | Some v => Some v
  | None => previous
  end.

(** The first character of a string, as a string. *)
Definition firstChar (s : string) : string :=
  match s with
  | EmptyString => ""
  | String c _ => String c ""
  end.

(** The trace of requests only grows. *)
Definition grows (w w' : world) : Prop :=
  exists issued, w_trace w' = w_trace w ++ issued.

(** A pattern without capturing group. *)
Fixpoint groupFree (r : regex) : bool :=
  match r with
  | Eps | Class _ | Bol | StarC _ => true
  | Seq r1 r2 | Alt r1 r2 => groupFree r1 && groupFree r2
  | Opt r1 => groupFree r1
  | Group _ _ => false
  end.

End Spec.

Import Spec.

(* ================================================================== *)
(** ** Sample inputs *)

(** An entry with one message, carrying the given changes. *)
Definition entryWith (id : string) (added : option (list string))
           (labelAdded : option (list labelChange)) : historyEntry :=
  HistoryEntry id [id] added None labelAdded None.

(** An instance configured with history types and an added-label-id
    filter. *)
Definition apiWithTypes (types : list string) (added : option (list string))
  : api :=
  Api DEFAULT_HISTORY_ID_FILE_PATH [] "topic" "user1@gmail.com" None types
      added None None None.

(** A new instance, with no history file yet. *)
Definition freshWorld : world :=
  World (newApi DEFAULT_HISTORY_ID_FILE_PATH "topic")
        (FileAbsent DEFAULT_HISTORY_ID_FILE_PATH) [].

(** A new instance whose history file knows one account. *)
Definition knownAccountWorld : world :=
  World (newApi DEFAULT_HISTORY_ID_FILE_PATH "topic")
        (FileContent [PrevHistory "user1@gmail.com" (Num 10) (Num 5)]) [].

(** A provider that renews leases, has no history and finds no message. *)
Definition renewingService : gmailService :=
  GmailService (fun _ _ => inr (Num 1000))
               (fun _ _ _ => inr (HistoryPage None None))
               (fun _ _ => inl (JsError "Not Found"))
               (fun _ _ _ => inl (JsError "Not Found")).

(** A provider serving two pages of one entry each. *)
Definition firstEntry : historyEntry :=
  HistoryEntry "101" ["m1"] (Some ["m1"]) None None None.

Definition secondEntry : historyEntry :=
  HistoryEntry "102" ["m2"] (Some ["m2"]) None None None.

Definition firstPage : historyPage :=
  HistoryPage (Some "page2") (Some [firstEntry]).

Definition secondPage : historyPage := HistoryPage None (Some [secondEntry]).

Definition twoPageService : gmailService :=
  GmailService (fun _ _ => inr (Num 1000))
               (fun _ _ pageToken =>
                  match pageToken with
                  | None => inr firstPage
                  | Some _ => inr secondPage
                  end)
               (fun _ _ => inl (JsError "Not Found"))
               (fun _ _ _ => inl (JsError "Not Found")).

Definition pushFor (account : string) (counter : Z) : option notification :=
  Some (Push (NotificationPayload account (Num counter))).

(** Options with the two required keys only. *)
Definition retrieval (account : string) (counter : Z) : option options :=
  Some (Options (pushFor account counter) (Some "token")
                None None None None None []).

(** Options with [addedLabelIds] and without [historyTypes]. *)
Definition addedLabelsOnly (account : string) (counter : Z) : options :=
  Options (pushFor account counter) (Some "token") None (Some ["IMPORTANT"])
          None None None [].

(** Options whose include and exclude label sets both hold ["INBOX"]. *)
Definition overlappingRetrieval (account : string) (counter : Z) : options :=
  Options (pushFor account counter) (Some "token") None None None
          (Some ["INBOX"]) (Some ["INBOX"]) [].

(** An instance configured with those label sets. *)
Definition overlappingWorld : world :=
  World (setWithLabelIds (Some ["INBOX"])
           (setWithoutLabelIds (Some ["INBOX"])
              (newApi DEFAULT_HISTORY_ID_FILE_PATH "topic")))
        (FileAbsent DEFAULT_HISTORY_ID_FILE_PATH) [].

(** The parsed form of a message that was not found. *)
Definition parsedStub : parsedMessage :=
  ParsedMessage (notFoundMessage "m1") "messageAdded" None None None None
                None None None None (Some []).

(** Options with [historyTypes] and a label-delta filter. *)
Definition labelAddedRetrieval : options :=
  Options (pushFor "user1@gmail.com" 20) (Some "token")
          (Some ["labelAdded"]) (Some ["IMPORTANT"]) None (Some ["INBOX"])
          None [].

(** An instance a call has left configured with label sets. *)
Definition inboxWorld : world :=
  World (setWithLabelIds (Some ["INBOX"])
           (setWithoutLabelIds (Some ["SENT"])
              (newApi DEFAULT_HISTORY_ID_FILE_PATH "topic")))
        (FileAbsent DEFAULT_HISTORY_ID_FILE_PATH) [].

(** A provider whose lease renewal fails. *)
Definition failingService : gmailService :=
  GmailService (fun _ _ => inl (JsError "Request had invalid credentials"))
               (fun _ _ _ => inr (HistoryPage None None))
               (fun _ _ => inl (JsError "Not Found"))
               (fun _ _ _ => inl (JsError "Not Found")).

(** A history file that knows two accounts. *)
Definition twoAccountWorld : world :=
  World (newApi DEFAULT_HISTORY_ID_FILE_PATH "topic")
        (FileContent [PrevHistory "user1@gmail.com" (Num 10) (Num 5);
                      PrevHistory "user2@gmail.com" (Num 30) Null]) [].

(** A provider with one change: a message with a text body and an
    image. *)
Definition samplePayload : part :=
  Part "multipart/mixed" ""
       [Header "From" "user <user@example.com>";
        Header "To" "user1 <user1@gmail.com>, user2@gmail.com";
        Header "Subject" "this is subject"]
       (PartBody None None 0)
       [Part "multipart/alternative" "" [] (PartBody None None 0)
             [Part "text/plain" "" []
                   (PartBody (Some "this is body") None 12) [];
              Part "text/html" "" []
                   (PartBody (Some "<div>this is body</div>") None 23) []];
        Part "image/jpeg" "example.jpg" [] (PartBody None (Some "att1") 2) []].

Definition sampleMessage : message :=
  Message "m1" (Some ["INBOX"; "UNREAD"]) (Some samplePayload) None false.

Definition mailboxService : gmailService :=
  GmailService (fun _ _ => inr (Num 1000))
               (fun _ _ _ => inr (HistoryPage None (Some [firstEntry])))
               (fun _ _ => inr sampleMessage)
               (fun _ _ _ => inr (Some "ffff")).

(** A message whose [text/plain] leaf is kept as an attachment: its
    body has an attachment id and no data. *)
Definition textAttachedMessage : message :=
  Message "m1" (Some ["INBOX"])
          (Some (Part "multipart/mixed" "" [] (PartBody None None 0)
                      [Part "text/html" "" []
                            (PartBody (Some "<p>see the file</p>") None 19)
                            [];
                       Part "text/plain" "notes.txt" []
                            (PartBody None (Some "att2") 2048) []]))
          None false.

Definition textAttachedService : gmailService :=
  GmailService (fun _ _ => inr (Num 1000))
               (fun _ _ _ => inr (HistoryPage None (Some [firstEntry])))
               (fun _ _ => inr textAttachedMessage)
               (fun _ _ _ => inr (Some "ffff")).

(** Notifications whose [historyId] is missing, or not numeric. *)
Definition pushWithoutCounter (account : string) : option notification :=
  Some (Push (NotificationPayload account NaN)).

(** Options that configure the include label set only. *)
Definition includingRetrieval (account : string) (counter : Z) : options :=
  Options (pushFor account counter) (Some "token") None None None
          (Some ["INBOX"]) None [].

(** An instance an earlier call has left with an exclude label set, and
    a history file that knows one account. *)
Definition excludingWorld : world :=
  World (setWithoutLabelIds (Some ["INBOX"])
           (newApi DEFAULT_HISTORY_ID_FILE_PATH "topic"))
        (FileContent [PrevHistory "user1@gmail.com" (Num 10) (Num 5)]) [].

(* ================================================================== *)
(** ** Facts about the matcher *)

Lemma suffix_refl (s : list ascii) : suffix s s.
Proof. now exists []. Qed.

Lemma suffix_trans (s1 s2 s3 : list ascii) :
  suffix s1 s2 -> suffix s2 s3 -> suffix s1 s3.
Proof.
  intros [l1 ->] [l2 ->]. exists (l2 ++ l1). now rewrite app_assoc.
Qed.

Lemma suffix_cons (a : ascii) (s' s : list ascii) :
  suffix s' s -> suffix s' (a :: s).
Proof. intros [l ->]. now exists (a :: l). Qed.

Lemma suffix_tail (a : ascii) (s : list ascii) : suffix s (a :: s).
Proof. now exists [a]. Qed.

Lemma extends_refl (c : captures) : extends c c.
Proof. now exists []. Qed.

Lemma extends_trans (c1 c2 c3 : captures) :
  extends c1 c2 -> extends c2 c3 -> extends c1 c3.
Proof.
  intros [l1 ->] [l2 ->]. exists (l2 ++ l1). now rewrite app_assoc.
Qed.

Create HintDb matcher.
#[local] Hint Resolve suffix_refl extends_refl suffix_tail : matcher.

(** The equations of the matcher. *)
Section MatcherEquations.

Context {R : Type}.
Variables (s : list ascii) (pos : nat) (c : captures) (k : cont R).

Lemma m_Seq (r1 r2 : regex) :
  m (Seq r1 r2) s pos c k
  = m r1 s pos c (fun s' pos' c' => m r2 s' pos' c' k).
Proof. reflexivity. Qed.

Lemma m_Group (i : nat) (r : regex) :
  m (Group i r) s pos c k
  = m r s pos c
      (fun s' pos' c' => k s' pos' ((i, firstn (pos' - pos) s) :: c')).
Proof. reflexivity. Qed.

Lemma m_Opt (r : regex) :
  m (Opt r) s pos c k
  = match m r s pos c k with
    | Some x => Some x
    | None => k s pos c
    end.
Proof. reflexivity. Qed.

Lemma m_Class_cons (p : ascii -> bool) (a : ascii) :
  m (Class p) (a :: s) pos c k = if p a then k s (S pos) c else None.
Proof. reflexivity. Qed.

Lemma m_Class_nil (p : ascii -> bool) : m (Class p) [] pos c k = None.
Proof. reflexivity. Qed.

Lemma m_StarC_cons (p : ascii -> bool) (a : ascii) :
  m (StarC p) (a :: s) pos c k
  = if p a
    then match m (StarC p) s (S pos) c k with
         | Some x => Some x
         | None => k (a :: s) pos c
         end
    else k (a :: s) pos c.
Proof. reflexivity. Qed.

Lemma m_StarC_nil (p : ascii -> bool) :
  m (StarC p) [] pos c k = k [] pos c.
Proof. reflexivity. Qed.

End MatcherEquations.

Section MatcherFacts.

Context {R : Type}.

(** A successful match went through its continuation, on a suffix of
    the input and with more captures. *)
Lemma m_reaches_continuation (r : regex) :
  forall s pos c (k : cont R) x,
    m r s pos c k = Some x ->
    exists s' pos' c',
      k s' pos' c' = Some x /\ suffix s' s /\ extends c c'.
Proof.
  induction r as [ | p | | r1 IH1 r2 IH2 | r1 IH1 r2 IH2 | r1 IH1 | p
                   | i r1 IH1 ]; intros s pos c k x H.
  - exists s, pos, c. auto with matcher.
  - destruct s as [ | a s']; [discriminate | ].
    rewrite m_Class_cons in H. destruct (p a); [ | discriminate].
    exists s', (S pos), c. auto with matcher.
  - simpl in H. destruct (Nat.eqb pos 0); [ | discriminate].
    exists s, pos, c. auto with matcher.
  - rewrite m_Seq in H.
    apply IH1 in H as (s1 & p1 & c1 & H & S1 & E1).
    apply IH2 in H as (s2 & p2 & c2 & H & S2 & E2).
    exists s2, p2, c2.
    split; [assumption | split];
      [eapply suffix_trans | eapply extends_trans]; eauto.
  - simpl in H. destruct (m r1 s pos c k) eqn:E.
    + inversion H; subst. now apply IH1 in E.
    + now apply IH2 in H.
  - rewrite m_Opt in H. destruct (m r1 s pos c k) eqn:E.
    + inversion H; subst. now apply IH1 in E.
    + exists s, pos, c. auto with matcher.
  - revert pos H. induction s as [ | a s' IHs]; intros pos H.
    + exists [], pos, c. auto with matcher.
    + rewrite m_StarC_cons in H. destruct (p a).
      * destruct (m (StarC p) s' (S pos) c k) eqn:E.
        -- inversion H; subst.
           apply IHs in E as (s1 & p1 & c1 & E & S1 & E1).
           exists s1, p1, c1. auto using suffix_cons.
        -- exists (a :: s'), pos, c. auto with matcher.
      * exists (a :: s'), pos, c. auto with matcher.
  - rewrite m_Group in H.
    apply IH1 in H as (s1 & p1 & c1 & H & S1 & E1).
    exists s1, p1, ((i, firstn (p1 - pos) s) :: c1).
    split; [assumption | split; [assumption | ]].
    destruct E1 as [l ->]. now exists ((i, firstn (p1 - pos) s) :: l).
Qed.

(** Skipping an optional part, or ending a repetition at once, are
    among the alternatives tried. *)
Lemma m_Opt_skip (r : regex) s pos c (k : cont R) :
  k s pos c <> None -> m (Opt r) s pos c k <> None.
Proof.
  intros H. rewrite m_Opt. now destruct (m r s pos c k).
Qed.

Lemma m_StarC_stop (p : ascii -> bool) s pos c (k : cont R) :
  k s pos c <> None -> m (StarC p) s pos c k <> None.
Proof.
  intros H. destruct s as [ | a s']; [assumption | ].
  rewrite m_StarC_cons. destruct (p a); [ | assumption].
  now destruct (m (StarC p) s' (S pos) c k).
Qed.

End MatcherFacts.

Lemma capture_extends (i : nat) (c c' : captures) (v : list ascii) :
  capture i c = Some v -> extends c c' -> exists v', capture i c' = Some v'.
Proof.
  intros H [l ->]. induction l as [ | [j u] l IH]; simpl.
  - now exists v.
  - destruct (Nat.eqb i j); [now exists u | assumption].
Qed.

(** A match found by [exec] is a match of the pattern on a suffix. *)
Lemma execFrom_matches (r : regex) :
  forall s pos res,
    execFrom r s pos = Some res ->
    exists s0 pos0,
      suffix s0 s
      /\ m r s0 pos0 [] (fun _ e c => Some (MatchResult pos0 e c)) = Some res.
Proof.
  induction s as [ | a s IH]; simpl; intros pos res H.
  - destruct (m r [] pos [] _) eqn:E; [ | discriminate].
    inversion H; subst. exists [], pos. auto with matcher.
  - destruct (m r (a :: s) pos [] _) eqn:E.
    + inversion H; subst. exists (a :: s), pos. auto with matcher.
    + apply IH in H as (s0 & pos0 & S0 & H).
      exists s0, pos0. auto using suffix_cons.
Qed.

(** [exec] finds a match as soon as the pattern matches on some suffix. *)
Lemma execFrom_finds (r : regex) :
  forall s pos,
    execFrom r s pos = None ->
    m r s pos [] (fun _ e c => Some (MatchResult pos e c)) = None
    /\ match s with
       | [] => True
       | _ :: s' => execFrom r s' (S pos) = None
       end.
Proof.
  intros s pos H. destruct s as [ | a s]; simpl in H.
  - now destruct (m r [] pos [] _).
  - now destruct (m r (a :: s) pos [] _).
Qed.

(** Whenever the address pattern matches, its second group took part. *)
Lemma emailAddressRegex_group2 (header : string) (res : matchResult) :
  exec emailAddressRegex header = Some res ->
  exists addr, capture 2 (mCaptures res) = Some addr.
Proof.
  unfold exec. intros H.
  apply execFrom_matches in H as (s0 & pos0 & _ & H).
  unfold emailAddressRegex in H.
  rewrite m_Seq in H.
  apply m_reaches_continuation in H as (s1 & p1 & c1 & H & _).
  rewrite m_Seq in H.
  apply m_reaches_continuation in H as (s2 & p2 & c2 & H & _).
  rewrite m_Seq, m_Group in H.
  apply m_reaches_continuation in H as (s3 & p3 & c3 & H & _).
  apply m_reaches_continuation in H as (s4 & p4 & c4 & H & _ & E).
  inversion H; subst; simpl.
  eapply capture_extends; [ | exact E]. simpl. reflexivity.
Qed.

(** **** When the address pattern matches *)

Lemma addressShaped_suffix (s' s : list ascii) :
  suffix s' s -> addressShaped s' = true -> addressShaped s = true.
Proof.
  intros [l ->] H. induction l as [ | a l IH]; [assumption | ].
  change (addressShaped ((a :: l) ++ s'))
    with (match l ++ s' with
          | c :: b :: _ => dot a && Ascii.eqb "@" c && notGt b
          | _ => false
          end || addressShaped (l ++ s'))%bool.
  rewrite IH. apply orb_true_r.
Qed.

(** After a character of the local part, a successful match of the rest
    of the address body exhibits the shape. *)
Lemma localPart_shape {R : Type} (k : cont R) (c : captures) (x : R) :
  forall t a pos,
    dot a = true ->
    m (StarC dot) t pos c
      (fun s' pos' c' => m (Seq (chr "@") (plusC notGt)) s' pos' c' k)
    = Some x ->
    addressShaped (a :: t) = true.
Proof.
  induction t as [ | b t IH]; intros a pos Ha H.
  - rewrite m_StarC_nil in H. discriminate.
  - assert (K : m (Seq (chr "@") (plusC notGt)) (b :: t) pos c k = Some x ->
                addressShaped (a :: b :: t) = true).
    { clear H. intros H. rewrite m_Seq in H. unfold chr in H.
      rewrite m_Class_cons in H.
      destruct (Ascii.eqb "@" b) eqn:Eb; [ | discriminate].
      unfold plusC in H. rewrite m_Seq in H.
      destruct t as [ | d t]; [discriminate | ].
      rewrite m_Class_cons in H.
      destruct (notGt d) eqn:Ed; [ | discriminate].
      cbn [addressShaped]. now rewrite Ha, Eb, Ed. }
    rewrite m_StarC_cons in H.
    destruct (dot b) eqn:Eb; [ | auto].
    destruct (m (StarC dot) t (S pos) c _) eqn:E; [ | auto].
    inversion H; subst.
    apply IH with (a := b) in E; [ | assumption].
    change (addressShaped (a :: b :: t))
      with (match b :: t with
            | c0 :: b0 :: _ => dot a && Ascii.eqb "@" c0 && notGt b0
            | _ => false
            end || addressShaped (b :: t))%bool.
    rewrite E. apply orb_true_r.
Qed.

Lemma addressBody_shape {R : Type} (k : cont R) s pos c x :
  m addressBody s pos c k = Some x -> addressShaped s = true.
Proof.
  unfold addressBody, plusC. rewrite !m_Seq.
  destruct s as [ | a t]; [discriminate | ].
  rewrite m_Class_cons. destruct (dot a) eqn:Ea; [ | discriminate].
  now apply localPart_shape.
Qed.

Lemma addressBody_matches {R : Type} (k : cont R) a b rest pos c :
  dot a = true -> notGt b = true ->
  (forall s' pos' c', k s' pos' c' <> None) ->
  m addressBody (a :: "@"%char :: b :: rest) pos c k <> None.
Proof.
  intros Ha Hb Hk. unfold addressBody, plusC. rewrite !m_Seq.
  rewrite m_Class_cons, Ha. apply m_StarC_stop.
  rewrite m_Seq. unfold chr. rewrite m_Class_cons.
  change (Ascii.eqb "@" "@") with true. cbv iota.
  rewrite m_Seq, m_Class_cons, Hb. apply m_StarC_stop, Hk.
Qed.

(** The address pattern matches exactly the headers of that shape. *)
Lemma emailAddressRegex_matches_iff (header : string) :
  exec emailAddressRegex header = None
  <-> addressShaped (list_ascii_of_string header) = false.
Proof.
  unfold exec. generalize (list_ascii_of_string header) 0. clear header.
  intros s pos. split.
  - revert pos. induction s as [ | a t IH]; intros pos H; [reflexivity | ].
    apply execFrom_finds in H as [H Ht].
    apply IH in Ht. cbn [addressShaped]. rewrite Ht, orb_false_r.
    destruct t as [ | c0 [ | b rest]]; try reflexivity.
    destruct (dot a && Ascii.eqb "@" c0 && notGt b)%bool eqn:E;
      [ | reflexivity].
    apply andb_prop in E as [E Eb]. apply andb_prop in E as [Ea Ec].
    apply Ascii.eqb_eq in Ec. subst c0. exfalso. revert H.
    unfold emailAddressRegex. rewrite m_Seq. apply m_Opt_skip.
    rewrite m_Seq. apply m_Opt_skip.
    rewrite m_Seq, m_Group. apply addressBody_matches; try assumption.
    intros s' pos' c'. apply m_Opt_skip. discriminate.
  - intros H. destruct (execFrom emailAddressRegex s pos) eqn:E;
      [ | reflexivity].
    exfalso.
    apply execFrom_matches in E as (s0 & pos0 & S0 & E).
    unfold emailAddressRegex in E. rewrite m_Seq in E.
    apply m_reaches_continuation in E as (s1 & p1 & c1 & E & S1 & _).
    rewrite m_Seq in E.
    apply m_reaches_continuation in E as (s2 & p2 & c2 & E & S2 & _).
    rewrite m_Seq, m_Group in E.
    apply addressBody_shape in E.
    assert (addressShaped s = true).
    { eapply addressShaped_suffix; [ | exact E].
      eapply suffix_trans; [exact S2 | ].
      eapply suffix_trans; [exact S1 | exact S0]. }
    congruence.
Qed.

(* ================================================================== *)
(** ** The address parser *)

(** C9. An address header the pattern matches is parsed into the
    address, the second group of the match, and a name, the first group
    or, when no display name was captured, the address; the pattern
    matches exactly when the header has an ["@"] between a character that
    is no line terminator and a character other than [">"]. A header the
    pattern does not match is echoed as both name and address. So
    ["user1 <user1@gmail.com>"] yields the name ["user1"] and the address
    ["user1@gmail.com"], and the truncated ["user2@"] yields itself
    twice. The function is total: no error is raised. *)
Theorem parseEmailAddressHeader_spec (header : string) :
  match exec emailAddressRegex header with
  | Some parsedHeader =>
      addressShaped (list_ascii_of_string header) = true
      /\ exists addr,
           capture 2 (mCaptures parsedHeader) = Some addr
           /\ address (_parseEmailAddressHeader header)
              = string_of_list_ascii addr
           /\ name (_parseEmailAddressHeader header)
              = match capture 1 (mCaptures parsedHeader) with
                | Some (a :: display) => string_of_list_ascii (a :: display)
                | _ => string_of_list_ascii addr
                end
  | None =>
      addressShaped (list_ascii_of_string header) = false
      /\ _parseEmailAddressHeader header = ParsedEmail header header
  end
  /\ _parseEmailAddressHeader "user1 <user1@gmail.com>"
     = ParsedEmail "user1" "user1@gmail.com"
  /\ exec emailAddressRegex "user2@" = None
  /\ _parseEmailAddressHeader "user2@" = ParsedEmail "user2@" "user2@".
Proof.
  split; [ | repeat split; reflexivity].
  pose proof (emailAddressRegex_matches_iff header) as Shape.
  unfold _parseEmailAddressHeader.
  destruct (exec emailAddressRegex header) as [res | ] eqn:E.
  - split.
    + destruct (addressShaped (list_ascii_of_string header)); [reflexivity | ].
      destruct Shape as [_ Shape]. now specialize (Shape eq_refl).
    + destruct (emailAddressRegex_group2 _ _ E) as [addr Haddr].
      exists addr. unfold group. rewrite Haddr. cbn [address name].
      repeat split.
      destruct (capture 1 (mCaptures res)) as [[ | a display] | ];
        reflexivity.
  - split; [now apply Shape | reflexivity].
Qed.

(* ================================================================== *)
(** ** The history filter *)

(** The property of an entry a history type is looked up under. *)
Lemma plural_kind (k : kind) (e : historyEntry) :
  hasOwnProperty e (_makeHistoryTypePlural (kindName k)) = carries k e.
Proof. destruct k; reflexivity. Qed.

Lemma kindName_allKinds : map kindName allKinds = VALID_HISTORY_TYPES.
Proof. reflexivity. Qed.

Lemma kind_filter (k : kind) (history : list historyEntry) :
  filter (fun e => if hasOwnProperty e (_makeHistoryTypePlural (kindName k))
                   then true else false) history
  = filter (carries k) history.
Proof.
  apply filter_ext. intros e. rewrite plural_kind. now destruct (carries k e).
Qed.

(** The loop of the kind pass, from any accumulator. *)
Lemma kind_loop (kinds : list kind) (history : list historyEntry) :
  forall acc,
    fold_left
      (fun acc historyType =>
         acc ++ filter
                  (fun e => if hasOwnProperty e
                                 (_makeHistoryTypePlural historyType)
                            then true else false)
                  history)
      (map kindName kinds) acc
    = acc ++ flat_map (fun k => filter (carries k) history) kinds.
Proof.
  induction kinds as [ | k kinds IH]; intros acc; simpl.
  - now rewrite app_nil_r.
  - rewrite IH, kind_filter. now rewrite <- app_assoc.
Qed.

(** C7, as the code has it. The kind pass returns the entries grouped by
    kind in the order in which the kinds are listed in [historyTypes]
    (one group per listed kind), each group keeping the order of the log;
    an entry is kept exactly when it carries a listed kind; and for the
    default, all four kinds, the groups come in the order added, deleted,
    label-added, label-removed. *)
Theorem kind_pass_groups (a : api) (kinds : list kind)
        (history : list historyEntry) :
  historyTypes a = map kindName kinds ->
  filteredWithHistoryTypes a history
  = flat_map (fun k => filter (carries k) history) kinds
  /\ (forall e,
        In e (filteredWithHistoryTypes a history)
        <-> In e history /\ exists k, In k kinds /\ carries k e = true)
  /\ (kinds = allKinds ->
      filteredWithHistoryTypes a history
      = fixedOrderKindPass kinds history).
Proof.
  intros H.
  assert (G : filteredWithHistoryTypes a history
              = flat_map (fun k => filter (carries k) history) kinds).
  { unfold filteredWithHistoryTypes. rewrite H. apply kind_loop. }
  split; [exact G | split].
  - intros e. rewrite G, in_flat_map. split.
    + intros (k & Hk & He). apply filter_In in He as [He Hc]. eauto.
    + intros (He & k & Hk & Hc). exists k. split; [assumption | ].
      now apply filter_In.
  - intros ->. rewrite G. reflexivity.
Qed.

Lemma kind_pass_groups_witness :
  filteredWithHistoryTypes
    (apiWithTypes ["labelAdded"; "messageAdded"] None)
    [entryWith "1" (Some ["1"]) None;
     entryWith "2" None (Some [LabelChange "2" ["X"]])]
  = [entryWith "2" None (Some [LabelChange "2" ["X"]]);
     entryWith "1" (Some ["1"]) None].
Proof.
  refine (proj1 (kind_pass_groups
                   (apiWithTypes ["labelAdded"; "messageAdded"] None)
                   [LabelAdded; Added] _ _)).
  reflexivity.
Defined.

(** C7, as the specification words it, fails: the groups do not always
    come in the order added, deleted, label-added, label-removed. With
    the kinds requested in the order label-added, added, the label-added
    group comes first. *)
Lemma kind_pass_not_fixed_order :
  ~ (forall (a : api) (kinds : list kind) (history : list historyEntry),
        historyTypes a = map kindName kinds ->
        filteredWithHistoryTypes a history
        = fixedOrderKindPass kinds history).
Proof.
  intros H.
  specialize (H (apiWithTypes (map kindName [LabelAdded; Added]) None)
                [LabelAdded; Added]
                [entryWith "1" (Some ["1"]) None;
                 entryWith "2" None (Some [LabelChange "2" ["X"]])]
                eq_refl).
  vm_compute in H. discriminate H.
Qed.

(** The tests of the label-delta pass, in terms of membership. *)
Lemma includes_In (xs : list string) (x : string) :
  Js.includes xs x = true <-> In x xs.
Proof.
  unfold Js.includes. rewrite existsb_exists. split.
  - intros (y & Hy & E). apply String.eqb_eq in E. now subst.
  - intros H. exists x. split; [assumption | apply String.eqb_refl].
Qed.

Lemma carriesOneOf_spec (labelIds : list string) (change : labelChange) :
  carriesOneOf labelIds change = true
  <-> exists labelId, In labelId labelIds /\ In labelId (lc_labelIds change).
Proof.
  unfold carriesOneOf. rewrite existsb_exists.
  split; intros (x & H1 & H2); exists x; split; try assumption;
    now apply includes_In.
Qed.

Lemma none_kept_iff {A : Type} (f : A -> bool) (l : list A) :
  Nat.eqb (List.length (filter f l)) 0 = false
  <-> exists x, In x l /\ f x = true.
Proof.
  split.
  - intros H. destruct (filter f l) as [ | x rest] eqn:E; [discriminate | ].
    exists x. apply filter_In. rewrite E. now left.
  - intros (x & Hx). apply filter_In in Hx.
    destruct (filter f l); [contradiction | reflexivity].
Qed.

Lemma delta_test (configured : option (list string))
      (delta : option (list labelChange)) :
  (isSome configured && isSome delta
   && Nat.eqb (List.length (filter (carriesOneOf (orEmpty configured))
                                   (orEmpty delta))) 0)%bool = false
  <-> (forall labelIds changes,
         configured = Some labelIds -> delta = Some changes ->
         intersects labelIds changes).
Proof.
  destruct configured as [labelIds | ], delta as [changes | ]; simpl;
    try (split; [intros _ ? ? ? ?; discriminate | reflexivity]).
  rewrite none_kept_iff. split.
  - intros (ch & Hch & Hc) ? ? [= <-] [= <-].
    apply carriesOneOf_spec in Hc as (l & Hl1 & Hl2). now exists ch, l.
  - intros H. destruct (H _ _ eq_refl eq_refl) as (ch & l & H1 & H2 & H3).
    exists ch. split; [assumption | ]. apply carriesOneOf_spec. eauto.
Qed.

(** C4, as the code has it. Of the entries surviving the kind pass, the
    label-delta pass keeps exactly those that meet both conditions: when
    an added-label-id filter is configured and the entry carries a
    [labelsAdded] delta, the delta intersects the configured set; and the
    same for the removed-label-id filter and [labelsRemoved]. An entry
    without the delta is not subject to the corresponding filter. *)
Theorem label_delta_pass (a : api) (history : list historyEntry)
        (e : historyEntry) :
  In e (_filterHistory a history)
  <-> In e (filteredWithHistoryTypes a history)
      /\ (forall labelIds changes,
            addedLabelIds a = Some labelIds ->
            labelsAdded e = Some changes ->
            intersects labelIds changes)
      /\ (forall labelIds changes,
            removedLabelIds a = Some labelIds ->
            labelsRemoved e = Some changes ->
            intersects labelIds changes).
Proof.
  unfold _filterHistory. rewrite app_nil_l, filter_In.
  apply and_iff_compat_l.
  rewrite <- !delta_test. unfold passesAddedRemovedLabelIds.
  change (hasOwnProperty e "labelsAdded") with (isSome (labelsAdded e)).
  change (hasOwnProperty e "labelsRemoved") with (isSome (labelsRemoved e)).
  destruct (isSome (addedLabelIds a) && isSome (labelsAdded e) && _)%bool;
    destruct (isSome (removedLabelIds a) && isSome (labelsRemoved e) && _)%bool;
    intuition congruence.
Qed.

Lemma label_delta_pass_witness :
  In (entryWith "1" (Some ["1"]) None)
     (_filterHistory
        (apiWithTypes ["messageAdded"; "labelAdded"] (Some ["X"]))
        [entryWith "1" (Some ["1"]) None;
         entryWith "2" None (Some [LabelChange "2" ["Y"]])]).
Proof.
  apply label_delta_pass. split; [ | split].
  - vm_compute. now left.
  - intros labelIds changes _ H. discriminate H.
  - intros labelIds changes H. discriminate H.
Defined.

(** C4, as the specification words it, fails: with an added-label-id
    filter configured, an entry of the requested kind added, which has no
    [labelsAdded] delta, survives the label-delta pass. *)
Lemma label_delta_pass_keeps_entry_without_delta :
  ~ (forall (a : api) (history : list historyEntry) (e : historyEntry)
            (labelIds : list string),
        addedLabelIds a = Some labelIds ->
        labelsAdded e = None ->
        In e (filteredWithHistoryTypes a history) ->
        ~ In e (_filterHistory a history)).
Proof.
  intros H.
  apply (H (apiWithTypes ["messageAdded"; "labelAdded"] (Some ["X"]))
           [entryWith "1" (Some ["1"]) None]
           (entryWith "1" (Some ["1"]) None) ["X"] eq_refl eq_refl);
    vm_compute; now left.
Qed.

(* ================================================================== *)
(** ** Resolving a message id *)

(** C8. Resolving a message id issues one request. A response is
    returned as it is; a rejection whose message is ["Not Found"] yields
    the stub with the requested id, no attachments and [notFound] set,
    instead of a rejection; every other rejection propagates. *)
Theorem getMessageFromId_spec (gmail : gmailService) (messageId : string)
        (w : world) :
  (forall msg,
      users_messages_get gmail messageId (api_emailAddress (w_api w))
      = inr msg ->
      fst (_getMessageFromId gmail messageId w) = Return msg)
  /\ (forall err,
        users_messages_get gmail messageId (api_emailAddress (w_api w))
        = inl err ->
        err_message err = "Not Found" ->
        fst (_getMessageFromId gmail messageId w)
        = Return (Message messageId None None (Some []) true))
  /\ (forall err,
        users_messages_get gmail messageId (api_emailAddress (w_api w))
        = inl err ->
        err_message err <> "Not Found" ->
        fst (_getMessageFromId gmail messageId w) = Throw err)
  /\ snd (_getMessageFromId gmail messageId w)
     = World (w_api w) (w_file w)
             (w_trace w
              ++ [MessagesGet messageId (api_emailAddress (w_api w))]).
Proof.
  unfold _getMessageFromId, bind, getApi, issue, tryCatch, liftE. simpl.
  destruct (users_messages_get gmail messageId (api_emailAddress (w_api w)))
    as [err | msg] eqn:E; simpl.
  - destruct (err_message err =? "Not Found") eqn:N; simpl.
    + apply String.eqb_eq in N. repeat split; congruence.
    + apply String.eqb_neq in N. repeat split; congruence.
  - repeat split; congruence.
Qed.

Lemma getMessageFromId_spec_witness :
  fst (_getMessageFromId renewingService "abc" freshWorld)
  = Return (Message "abc" None None (Some []) true).
Proof.
  apply (proj1 (proj2 (getMessageFromId_spec renewingService "abc"
                                             freshWorld))
               (JsError "Not Found")); reflexivity.
Defined.

(* ================================================================== *)
(** ** Fetching the history *)

(** One step of [_getHistory]. *)
Lemma getHistory_step (gmail : gmailService) (fuel : nat)
      (pageToken : option string) (w : world) (page : historyPage) :
  users_history_list gmail (api_emailAddress (w_api w))
    (startHistoryId (w_api w))
    (if Js.truthy pageToken then pageToken else None) = inr page ->
  _getHistory gmail (S fuel) pageToken w
  = let w1 := World (w_api w) (w_file w)
                    (w_trace w
                     ++ [HistoryList (api_emailAddress (w_api w))
                           (startHistoryId (w_api w))
                           (if Js.truthy pageToken then pageToken else None)])
    in
    if Js.truthy (nextPageToken page)
    then (rest <- _getHistory gmail fuel (nextPageToken page) ;;
          ret ([] ++ rest)) w1
    else (Return (orEmpty (history page)), w1).
Proof.
  intros H. cbn [_getHistory]. unfold bind at 1 2 3, getApi, issue. simpl.
  rewrite H. simpl. destruct (Js.truthy (nextPageToken page)); reflexivity.
Qed.

(** With fuel for every page the provider serves, [_getHistory] returns,
    and what it returns is the entries of the last page only. *)
Lemma getHistory_last_page (gmail : gmailService) (userId : string)
      (start : option jsNumber) (pageToken : option string)
      (pages : list historyPage) :
  servedPages gmail userId start pageToken pages ->
  forall fuel w,
    api_emailAddress (w_api w) = userId ->
    startHistoryId (w_api w) = start ->
    List.length pages <= fuel ->
    fst (_getHistory gmail fuel pageToken w)
    = Return (orEmpty (history (last pages (HistoryPage None None)))).
Proof.
  induction 1 as [pageToken page Hl Ht | pageToken page pages Hl Ht Hs IH];
    intros fuel w Hu Hst Hf; subst userId start.
  - destruct fuel as [ | fuel]; [simpl in Hf; lia | ].
    rewrite (getHistory_step _ _ _ _ _ Hl). cbv zeta. now rewrite Ht.
  - destruct fuel as [ | fuel]; [simpl in Hf; lia | ].
    rewrite (getHistory_step _ _ _ _ _ Hl). cbv zeta. rewrite Ht.
    unfold bind.
    specialize (IH fuel
                   (World (w_api w) (w_file w)
                      (w_trace w
                       ++ [HistoryList (api_emailAddress (w_api w))
                             (startHistoryId (w_api w))
                             (if Js.truthy pageToken
                              then pageToken else None)]))
                   eq_refl eq_refl).
    simpl in Hf. specialize (IH ltac:(lia)).
    destruct (_getHistory gmail fuel (nextPageToken page) _) as [[r | e | ] w'];
      simpl in IH; try discriminate.
    inversion IH; subst. simpl.
    destruct pages; [inversion Hs | reflexivity].
Qed.

(** C1, on a provider that serves two pages. The complete change log is
    the entry of the first page followed by the entry of the second;
    [_getHistory] returns the entry of the second page alone. *)
Theorem getHistory_drops_earlier_pages :
  servedPages twoPageService "" None None [firstPage; secondPage]
  /\ allEntries [firstPage; secondPage] = [firstEntry; secondEntry]
  /\ fst (_getHistory twoPageService 2 None freshWorld)
     = Return [secondEntry]
  /\ fst (_getHistory twoPageService 2 None freshWorld)
     <> Return (allEntries [firstPage; secondPage]).
Proof.
  repeat split; try reflexivity; try discriminate.
  apply served_more; [reflexivity | reflexivity | ].
  apply served_last; reflexivity.
Qed.

(** More fuel does not help. *)
Lemma getHistory_drops_earlier_pages_any_fuel (fuel : nat) :
  2 <= fuel ->
  fst (_getHistory twoPageService fuel None freshWorld)
  = Return [secondEntry].
Proof.
  intros Hf.
  assert (S : servedPages twoPageService "" None None [firstPage; secondPage]).
  { apply served_more; [reflexivity | reflexivity | ].
    apply served_last; reflexivity. }
  now rewrite (getHistory_last_page _ _ _ _ _ S fuel freshWorld
                                    eq_refl eq_refl Hf).
Qed.

(** A page without entries is an empty result, not an error. *)
Lemma getHistory_no_entries (gmail : gmailService) (fuel : nat)
      (pageToken : option string) (w : world) :
  users_history_list gmail (api_emailAddress (w_api w))
    (startHistoryId (w_api w))
    (if Js.truthy pageToken then pageToken else None)
  = inr (HistoryPage None None) ->
  fst (_getHistory gmail (S fuel) pageToken w) = Return [].
Proof.
  intros H. now rewrite (getHistory_step _ _ _ _ _ H).
Qed.

(* ================================================================== *)
(** ** The reconciliation cycle *)

(** What [_initialize] does on a notification that decodes to [payload],
    path by path. *)
Lemma initialize_push (gmail : gmailService) (payload : notificationPayload)
      (token : option string) (w : world) :
  _initialize gmail (Some (Push payload)) token w
  = let email := np_emailAddress payload in
    let historyId := np_historyId payload in
    let path := prevHistoryIdFilePath (w_api w) in
    let topic := pubsubTopic (w_api w) in
    let isMine := fun ph => emailAddress ph =? email in
    let a1 := setEmailAddress email (w_api w) in
    let t1 := w_trace w ++ [ReadFile path] in
    match
      match w_file w with
      | FileContent records => inr (map jsonRecord records)
      | FileError err =>
          if Js.startsWith (err_message err)
                           "ENOENT: no such file or directory"
          then inr (prevHistories (w_api w)
                    ++ [PrevHistory email historyId Null])
          else inl err
      end
    with
    | inl err => (Throw err, World a1 (w_file w) t1)
    | inr records =>
        let a2 := setPrevHistories records a1 in
        let t2 := t1 ++ [Watch email topic] in
        match users_watch gmail email topic with
        | inl err => (Throw err, World a2 (w_file w) t2)
        | inr expiration =>
            match find isMine records with
            | None =>
                (Throw (typeError
                   "Cannot set properties of undefined (setting 'watchExpiration')"),
                 World a2 (w_file w) t2)
            | Some prevHistory =>
                let renewed :=
                  updateFound isMine (setWatchExpiration expiration)
                              records in
                if jsLeq historyId (prevHistoryId prevHistory)
                then (Return false,
                      World (setPrevHistories renewed a2)
                            (FileContent renewed)
                            (t2 ++ [WriteFile path renewed]))
                else
                  let advanced :=
                    updateFound isMine (setPrevHistoryId historyId) renewed in
                  (Return true,
                   World (setPrevHistories advanced
                            (setStartHistoryId
                               (Some (prevHistoryId prevHistory)) a2))
                         (FileContent advanced)
                         (t2 ++ [WriteFile path advanced]))
            end
        end
    end.
Proof.
  unfold _initialize, getEmailAddress, _getHistoryId, _parseNotificationPayload,
    _refreshWatch, readHistoryFile, writeHistoryFile, tryCatch, bind, ret,
    throw, getApi, modifyApi, issue, liftE.
  cbv zeta. cbn [w_api w_file w_trace].
  destruct (w_file w) as [err | records]; cbn [w_api w_file w_trace].
  - destruct (Js.startsWith (err_message err) _);
      cbn [w_api w_file w_trace]; [ | reflexivity].
    cbn [setPrevHistories setEmailAddress api_emailAddress pubsubTopic
         prevHistories prevHistoryIdFilePath].
    destruct (users_watch gmail (np_emailAddress payload)
                          (pubsubTopic (w_api w)));
      cbn [w_api w_file w_trace]; [reflexivity | ].
    destruct (find _ _); [ | reflexivity].
    cbn [w_api w_file w_trace].
    destruct (jsLeq (np_historyId payload) (prevHistoryId p)); reflexivity.
  - cbn [setPrevHistories setEmailAddress api_emailAddress pubsubTopic
         prevHistories prevHistoryIdFilePath].
    destruct (users_watch gmail (np_emailAddress payload)
                          (pubsubTopic (w_api w)));
      cbn [w_api w_file w_trace]; [reflexivity | ].
    destruct (find _ _); [ | reflexivity].
    cbn [w_api w_file w_trace].
    destruct (jsLeq (np_historyId payload) (prevHistoryId p)); reflexivity.
Qed.

(** The record [find] selects is the one the mutations reach. *)
Lemma recordOf_updateFound (email account : string)
      (f : prevHistory -> prevHistory) (records : list prevHistory) :
  (forall r, emailAddress (f r) = emailAddress r) ->
  recordOf account
    (updateFound (fun ph => emailAddress ph =? email) f records)
  = if account =? email
    then option_map f (recordOf account records)
    else recordOf account records.
Proof.
  intros Hf. unfold recordOf.
  induction records as [ | x rest IH]; simpl.
  - now destruct (account =? email).
  - destruct (emailAddress x =? email) eqn:Ex; simpl.
    + rewrite Hf. apply String.eqb_eq in Ex.
      destruct (account =? email) eqn:Ea.
      * apply String.eqb_eq in Ea. subst account.
        rewrite Ex, String.eqb_refl. reflexivity.
      * apply String.eqb_neq in Ea.
        destruct (emailAddress x =? account) eqn:Exa; [ | reflexivity].
        apply String.eqb_eq in Exa. congruence.
    + destruct (emailAddress x =? account) eqn:Exa.
      * destruct (account =? email) eqn:Ea; [ | reflexivity].
        apply String.eqb_eq in Ea, Exa. apply String.eqb_neq in Ex.
        congruence.
      * exact IH.
Qed.

Lemma find_app_new (email : string) (r : prevHistory)
      (records : list prevHistory) :
  emailAddress r = email ->
  find (fun ph => emailAddress ph =? email) records = None ->
  find (fun ph => emailAddress ph =? email) (records ++ [r]) = Some r
  /\ forall f,
       updateFound (fun ph => emailAddress ph =? email) f (records ++ [r])
       = records ++ [f r].
Proof.
  intros Hr.
  induction records as [ | x rest IH]; simpl; intros H.
  - rewrite Hr, String.eqb_refl. split; reflexivity.
  - destruct (emailAddress x =? email); [discriminate | ].
    destruct (IH H) as [IH1 IH2]. split; [assumption | ].
    intros f. now rewrite IH2.
Qed.

(** Reading back what was written changes a record no further. *)
Lemma jsonNumber_idem (n : jsNumber) : jsonNumber (jsonNumber n) = jsonNumber n.
Proof. now destruct n. Qed.

Lemma jsonRecord_idem (r : prevHistory) :
  jsonRecord (jsonRecord r) = jsonRecord r.
Proof.
  unfold jsonRecord. cbn [emailAddress prevHistoryId watchExpiration].
  now rewrite !jsonNumber_idem.
Qed.

Lemma recordOf_json (account : string) (records : list prevHistory) :
  recordOf account (map jsonRecord records)
  = option_map jsonRecord (recordOf account records).
Proof.
  unfold recordOf. induction records as [ | x rest IH]; [reflexivity | ].
  cbn [map find jsonRecord emailAddress].
  now destruct (emailAddress x =? account).
Qed.

Lemma recordOf_json_fixed (account : string) (records : list prevHistory)
      (r : prevHistory) :
  recordOf account (map jsonRecord records) = Some r -> jsonRecord r = r.
Proof.
  rewrite recordOf_json. destruct (recordOf account records); [ | discriminate].
  cbn. intros E. inversion E. apply jsonRecord_idem.
Qed.

Lemma recordOf_json_json (account : string) (records : list prevHistory) :
  recordOf account (map jsonRecord (map jsonRecord records))
  = recordOf account (map jsonRecord records).
Proof.
  rewrite map_map. f_equal. apply map_ext. intros r. apply jsonRecord_idem.
Qed.

(** The comparison on integers. *)
Lemma jsLeq_Num (x y : Z) : jsLeq (Num x) (Num y) = (x <=? y)%Z.
Proof. reflexivity. Qed.

(** The effect of one cycle on the counter stored for an account: it
    stays, or the cycle is a fresh one for that account and the counter
    becomes what the file keeps of the notification's. *)
Lemma cycle_counter (c : cycle) (w : world) (account : string)
      (p : jsNumber) :
  storedCounter w account = Some p ->
  storedCounter (runCycle c w) account = Some p
  \/ exists payload,
       c_notification c = Some (Push payload)
       /\ np_emailAddress payload = account
       /\ jsLeq (np_historyId payload) p = false
       /\ storedCounter (runCycle c w) account
          = Some (jsonNumber (np_historyId payload)).
Proof.
  unfold runCycle. destruct c as [gmail [[payload | e] | ] token];
    cbn [c_gmail c_notification c_token]; intros H;
    [ | now left | now left].
  rewrite initialize_push. cbv zeta.
  unfold storedCounter, storedRecord in *.
  destruct (w_file w) as [err | records] eqn:F; [discriminate | ].
  destruct (users_watch gmail _ _) as [err | expiration];
    [left; exact H | ].
  change (find (fun ph => emailAddress ph =? np_emailAddress payload)
               (map jsonRecord records))
    with (recordOf (np_emailAddress payload) (map jsonRecord records)).
  destruct (recordOf (np_emailAddress payload) (map jsonRecord records))
    as [ph | ] eqn:Eph;
    [ | left; exact H].
  destruct (recordOf account (map jsonRecord records)) as [r | ] eqn:Er;
    [ | discriminate].
  cbn in H. inversion H; subst p; clear H.
  pose proof (recordOf_json_fixed _ _ _ Er) as Fixed.
  destruct (jsLeq (np_historyId payload) (prevHistoryId ph)) eqn:Ecmp;
    cbn [snd w_file].
  - left. rewrite recordOf_json, recordOf_updateFound, Er by reflexivity.
    destruct (account =? np_emailAddress payload); cbn;
      now rewrite <- Fixed at 2.
  - rewrite recordOf_json, !recordOf_updateFound, Er by reflexivity.
    destruct (account =? np_emailAddress payload) eqn:Ea.
    + apply String.eqb_eq in Ea. subst account. rewrite Eph in Er.
      inversion Er; subst r. right. exists payload.
      repeat split; try assumption; reflexivity.
    + left. cbn. now rewrite <- Fixed at 2.
Qed.

(** Two cycles on the sample store, on which the counter of
    ["user1@gmail.com"] is 10: a notification without a usable
    [historyId], then one whose [historyId] is 3. *)
Lemma lastCounter_after_NaN :
  storedCounter knownAccountWorld "user1@gmail.com" = Some (Num 10)
  /\ storedCounter
       (runCycles
          [Cycle renewingService
                 (pushWithoutCounter "user1@gmail.com")
                 (Some "token")]
          knownAccountWorld)
       "user1@gmail.com"
     = Some Null
  /\ storedCounter
       (runCycles
          [Cycle renewingService
                 (pushWithoutCounter "user1@gmail.com")
                 (Some "token");
           Cycle renewingService (pushFor "user1@gmail.com" 3)
                 (Some "token")]
          knownAccountWorld)
       "user1@gmail.com"
     = Some (Num 3).
Proof. repeat split; reflexivity. Qed.

(** C5, as the specification has it, fails: the counter stored for an
    account does decrease. A notification whose [historyId] is not a
    number is taken for a fresh one, since no comparison with [NaN]
    holds; the file then keeps [null], which compares as zero, and a
    later notification with a positive counter, however old, is above
    it. *)
Lemma lastCounter_not_monotone :
  ~ (forall (account : string) (p : Z) (w : world) (cycles : list cycle),
        storedCounter w account = Some (Num p) ->
        exists p',
          storedCounter (runCycles cycles w) account = Some (Num p')
          /\ (p <= p')%Z).
Proof.
  intros H.
  destruct (H "user1@gmail.com" 10%Z knownAccountWorld
              [Cycle renewingService
                     (pushWithoutCounter "user1@gmail.com")
                     (Some "token");
               Cycle renewingService (pushFor "user1@gmail.com" 3)
                     (Some "token")]
              eq_refl) as (p' & E & Le).
  vm_compute in E. inversion E; subst p'. lia.
Qed.

(** C5. Along every sequence of reconciliation cycles whose notifications
    for the account carry a number as their counter, whatever the
    accounts, tokens and provider answers, the counter the history file
    holds for the account never decreases. One such cycle overwrites it
    only with the counter of a notification for that account that
    strictly exceeds it; and any cycle leaves it unchanged when the
    notification's counter is less than or equal to it. *)
Theorem lastCounter_monotone (account : string) (p : Z) (w : world) :
  storedCounter w account = Some (Num p) ->
  (forall cycles,
      Forall (numericFor account) cycles ->
      exists p',
        storedCounter (runCycles cycles w) account = Some (Num p')
        /\ (p <= p')%Z)
  /\ (forall c,
        numericFor account c ->
        storedCounter (runCycle c w) account = Some (Num p)
        \/ exists payload z,
             c_notification c = Some (Push payload)
             /\ np_emailAddress payload = account
             /\ np_historyId payload = Num z
             /\ (p < z)%Z
             /\ storedCounter (runCycle c w) account = Some (Num z))
  /\ (forall c payload,
        c_notification c = Some (Push payload) ->
        jsLeq (np_historyId payload) (Num p) = true ->
        storedCounter (runCycle c w) account = Some (Num p)).
Proof.
  assert (Step : forall c w p,
             storedCounter w account = Some (Num p) ->
             numericFor account c ->
             storedCounter (runCycle c w) account = Some (Num p)
             \/ exists payload z,
                  c_notification c = Some (Push payload)
                  /\ np_emailAddress payload = account
                  /\ np_historyId payload = Num z
                  /\ (p < z)%Z
                  /\ storedCounter (runCycle c w) account = Some (Num z)).
  { clear. intros c w p H Hnum.
    destruct (cycle_counter c w account (Num p) H)
      as [Same | (payload & Hn & Ha & Cmp & Fresh)]; [now left | ].
    destruct (Hnum payload Hn Ha) as (z & Hz).
    right. exists payload, z. rewrite Hz in *.
    rewrite jsLeq_Num in Cmp. apply Z.leb_gt in Cmp.
    repeat split; assumption. }
  intros H. split; [ | split].
  - intros cycles. revert w p H.
    induction cycles as [ | c cycles IH]; intros w p H Hnum.
    + exists p. split; [assumption | lia].
    + cbn [runCycles fold_left]. inversion Hnum as [ | ? ? Hc Hrest]; subst.
      destruct (Step c w p H Hc)
        as [Same | (payload & z & _ & _ & _ & Lt & Fresh)].
      * exact (IH _ _ Same Hrest).
      * destruct (IH _ _ Fresh Hrest) as (p' & Hp' & Le).
        exists p'. split; [assumption | lia].
  - intros c. now apply Step.
  - intros c payload Hn Le.
    destruct (cycle_counter c w account (Num p) H)
      as [Same | (payload' & Hn' & _ & Cmp & _)]; [assumption | ].
    rewrite Hn in Hn'. inversion Hn'; subst. congruence.
Qed.

Lemma lastCounter_monotone_witness :
  (exists p',
      storedCounter
        (runCycles
           [Cycle renewingService (pushFor "user1@gmail.com" 20)
                  (Some "token");
            Cycle renewingService (pushFor "user1@gmail.com" 7)
                  (Some "token");
            Cycle failingService (pushFor "user1@gmail.com" 30)
                  (Some "token")]
           knownAccountWorld)
        "user1@gmail.com"
      = Some (Num p')
      /\ (10 <= p')%Z)
  /\ storedCounter
       (runCycle (Cycle renewingService (pushFor "user1@gmail.com" 7)
                        (Some "token"))
                 knownAccountWorld)
       "user1@gmail.com"
     = Some (Num 10).
Proof.
  destruct (lastCounter_monotone "user1@gmail.com" 10 knownAccountWorld
                                 eq_refl) as (Along & _ & Stale).
  split.
  - apply Along. repeat constructor;
      intros payload [= <-] _; eexists; reflexivity.
  - apply (Stale _ (NotificationPayload "user1@gmail.com" (Num 7)));
      reflexivity.
Defined.

(** C6. A reconciliation cycle that returns, with either answer, has
    issued exactly one lease renewal, after reading the history file and
    before writing it, and the record of the account, in the instance
    and in the file written, holds the renewal result as its
    [watchExpiration]. The answer is [false] on a counter less than or
    equal to the one the record keeps, [true] on a counter the record
    now holds. *)
Theorem lease_renewed_every_cycle (gmail : gmailService)
        (n : option notification) (token : option string) (w w' : world)
        (shouldProceed : bool) :
  _initialize gmail n token w = (Return shouldProceed, w') ->
  exists payload expiration records record,
    n = Some (Push payload)
    /\ users_watch gmail (np_emailAddress payload) (pubsubTopic (w_api w))
       = inr expiration
    /\ w_trace w'
       = w_trace w
         ++ [ReadFile (prevHistoryIdFilePath (w_api w));
             Watch (np_emailAddress payload) (pubsubTopic (w_api w));
             WriteFile (prevHistoryIdFilePath (w_api w)) records]
    /\ w_file w' = FileContent records
    /\ prevHistories (w_api w') = records
    /\ recordOf (np_emailAddress payload) records = Some record
    /\ watchExpiration record = expiration
    /\ (shouldProceed = false ->
        jsLeq (np_historyId payload) (prevHistoryId record) = true)
    /\ (shouldProceed = true ->
        prevHistoryId record = np_historyId payload).
Proof.
  destruct n as [[payload | e] | ]; [ | discriminate | discriminate].
  rewrite initialize_push. cbv zeta. intros H.
  exists payload.
  destruct (match w_file w with
            | FileError err => _
            | FileContent records => _
            end) as [err | records]; [discriminate | ].
  destruct (users_watch gmail _ _) as [err | expiration]; [discriminate | ].
  change (find (fun ph => emailAddress ph =? np_emailAddress payload) records)
    with (recordOf (np_emailAddress payload) records) in H.
  destruct (recordOf (np_emailAddress payload) records) as [ph | ] eqn:Eph;
    [ | discriminate].
  exists expiration.
  destruct (jsLeq (np_historyId payload) (prevHistoryId ph)) eqn:Ecmp;
    inversion H; subst; clear H; cbn [w_trace w_file w_api].
  - exists (updateFound
              (fun ph => emailAddress ph =? np_emailAddress payload)
              (setWatchExpiration expiration) records).
    exists (setWatchExpiration expiration ph).
    rewrite <- !app_assoc. cbn [app].
    rewrite recordOf_updateFound, String.eqb_refl, Eph by reflexivity.
    repeat split; try reflexivity; [now intros _ | discriminate].
  - exists (updateFound
              (fun ph => emailAddress ph =? np_emailAddress payload)
              (setPrevHistoryId (np_historyId payload))
              (updateFound
                 (fun ph => emailAddress ph =? np_emailAddress payload)
                 (setWatchExpiration expiration) records)).
    exists (setPrevHistoryId (np_historyId payload)
              (setWatchExpiration expiration ph)).
    rewrite <- !app_assoc. cbn [app].
    rewrite !recordOf_updateFound, String.eqb_refl, Eph by reflexivity.
    repeat split; try reflexivity; discriminate.
Qed.

Lemma lease_renewed_every_cycle_witness :
  exists payload expiration records record,
    pushFor "user1@gmail.com" 7 = Some (Push payload)
    /\ users_watch renewingService (np_emailAddress payload)
                   (pubsubTopic (w_api knownAccountWorld))
       = inr expiration
    /\ w_trace
         (snd (_initialize renewingService (pushFor "user1@gmail.com" 7)
                           (Some "token") knownAccountWorld))
       = w_trace knownAccountWorld
         ++ [ReadFile (prevHistoryIdFilePath (w_api knownAccountWorld));
             Watch (np_emailAddress payload)
                   (pubsubTopic (w_api knownAccountWorld));
             WriteFile (prevHistoryIdFilePath (w_api knownAccountWorld))
                       records]
    /\ w_file
         (snd (_initialize renewingService (pushFor "user1@gmail.com" 7)
                           (Some "token") knownAccountWorld))
       = FileContent records
    /\ prevHistories
         (w_api
            (snd (_initialize renewingService (pushFor "user1@gmail.com" 7)
                              (Some "token") knownAccountWorld)))
       = records
    /\ recordOf (np_emailAddress payload) records = Some record
    /\ watchExpiration record = expiration
    /\ (false = false ->
        jsLeq (np_historyId payload) (prevHistoryId record) = true)
    /\ (false = true -> prevHistoryId record = np_historyId payload).
Proof.
  apply (lease_renewed_every_cycle renewingService
           (pushFor "user1@gmail.com" 7) (Some "token") knownAccountWorld).
  reflexivity.
Defined.

(** A renewal that fails is fatal: the cycle throws what the renewal
    threw and the history file is not written. *)
Lemma lease_renewal_failure_is_fatal (gmail : gmailService)
      (payload : notificationPayload) (token : option string) (w : world)
      (records : list prevHistory) (err : jsError) :
  w_file w = FileContent records ->
  users_watch gmail (np_emailAddress payload) (pubsubTopic (w_api w))
  = inl err ->
  fst (_initialize gmail (Some (Push payload)) token w) = Throw err
  /\ w_file (snd (_initialize gmail (Some (Push payload)) token w))
     = w_file w.
Proof.
  intros F Hw. rewrite initialize_push. cbv zeta. rewrite F, Hw.
  split; reflexivity.
Qed.

(** The first notification of an account when the history file does not
    exist: the cycle seeds one record with the notification's counter,
    compares the counter with itself, which gives the answer [false]
    unless the counter is [NaN], and creates the file. *)
Lemma first_cycle_absent_store (gmail : gmailService)
      (payload : notificationPayload) (token : option string) (w : world)
      (err : jsError) (expiration : jsNumber) :
  w_file w = FileError err ->
  Js.startsWith (err_message err) "ENOENT: no such file or directory" = true ->
  recordOf (np_emailAddress payload) (prevHistories (w_api w)) = None ->
  users_watch gmail (np_emailAddress payload) (pubsubTopic (w_api w))
  = inr expiration ->
  fst (_initialize gmail (Some (Push payload)) token w)
  = Return (negb (jsLeq (np_historyId payload) (np_historyId payload)))
  /\ w_file (snd (_initialize gmail (Some (Push payload)) token w))
     = FileContent
         (prevHistories (w_api w)
          ++ [PrevHistory (np_emailAddress payload) (np_historyId payload)
                          expiration]).
Proof.
  intros F Henoent Hnone Hw. rewrite initialize_push. cbv zeta.
  rewrite F, Henoent, Hw.
  destruct (find_app_new (np_emailAddress payload)
              (PrevHistory (np_emailAddress payload) (np_historyId payload)
                           Null)
              _ eq_refl Hnone) as [Hfind Hupd].
  rewrite Hfind, Hupd. cbn [prevHistoryId].
  destruct (find_app_new (np_emailAddress payload)
              (PrevHistory (np_emailAddress payload) (np_historyId payload)
                           expiration)
              _ eq_refl Hnone) as [_ Hupd'].
  destruct (jsLeq (np_historyId payload) (np_historyId payload));
    cbn [fst snd w_file negb]; [split; reflexivity | ].
  unfold setWatchExpiration. cbn [emailAddress prevHistoryId].
  rewrite Hupd'. split; reflexivity.
Qed.

(** The first notification of an account when the history file exists
    and holds no record for it: the cycle throws a [TypeError], at the
    assignment to the record [find] did not return, and the file is left
    as it was. *)
Lemma first_cycle_present_store (gmail : gmailService)
      (payload : notificationPayload) (token : option string) (w : world)
      (records : list prevHistory) :
  w_file w = FileContent records ->
  recordOf (np_emailAddress payload) records = None ->
  (exists err, fst (_initialize gmail (Some (Push payload)) token w)
               = Throw err)
  /\ w_file (snd (_initialize gmail (Some (Push payload)) token w))
     = FileContent records.
Proof.
  intros F Hnone. rewrite initialize_push. cbv zeta. rewrite F.
  assert (Hnone' : recordOf (np_emailAddress payload)
                            (map jsonRecord records) = None)
    by now rewrite recordOf_json, Hnone.
  unfold recordOf in Hnone'. rewrite Hnone'.
  destruct (users_watch gmail _ _) as [err | expiration];
    (split; [eexists; reflexivity | reflexivity]).
Qed.

(** C2, on a history file that holds the record of another account.
    The first notification for ["user2@gmail.com"] does not return: the
    cycle and both retrieval methods throw a [TypeError], and no record
    is created for the account. *)
Theorem first_cycle_present_store_throws :
  storedRecord knownAccountWorld "user2@gmail.com" = None
  /\ fst (_initialize renewingService (pushFor "user2@gmail.com" 20)
                      (Some "token") knownAccountWorld)
     = Throw (typeError
          "Cannot set properties of undefined (setting 'watchExpiration')")
  /\ fst (getMessagesWithoutAttachment renewingService (fun data => data) 1
            (retrieval "user2@gmail.com" 20) knownAccountWorld)
     = Throw (typeError
          "Cannot set properties of undefined (setting 'watchExpiration')")
  /\ fst (getMessages renewingService (fun data => data) 1
            (retrieval "user2@gmail.com" 20) knownAccountWorld)
     = Throw (typeError
          "Cannot set properties of undefined (setting 'watchExpiration')")
  /\ storedRecord
       (snd (getMessagesWithoutAttachment renewingService (fun data => data)
               1 (retrieval "user2@gmail.com" 20) knownAccountWorld))
       "user2@gmail.com"
     = None.
Proof. repeat split; reflexivity. Qed.

(** The same notification when the history file does not exist: the
    methods return the empty list and the file holds one record, with
    the notification's counter. *)
Lemma first_cycle_absent_store_example :
  fst (getMessagesWithoutAttachment renewingService (fun data => data) 1
         (retrieval "user2@gmail.com" 20) freshWorld)
  = Return []
  /\ w_file (snd (getMessagesWithoutAttachment renewingService
                    (fun data => data) 1 (retrieval "user2@gmail.com" 20)
                    freshWorld))
     = FileContent [PrevHistory "user2@gmail.com" (Num 20) (Num 1000)].
Proof. split; reflexivity. Qed.

(* ================================================================== *)
(** ** Option validation *)

(** [_getPropsFromOptions] returns the options it was given or throws;
    it touches nothing. *)
Lemma getPropsFromOptions_cases (opts : options) (rules : rules) (w : world) :
  _getPropsFromOptions (Some opts) rules w = (Return opts, w)
  \/ exists err, _getPropsFromOptions (Some opts) rules w = (Throw err, w).
Proof.
  unfold _getPropsFromOptions.
  destruct (Nat.ltb 0 (List.length (filter _ (keys opts))));
    [right; eexists; reflexivity | ].
  destruct (Nat.ltb 0 (List.length (filter _ (required rules))));
    [right; eexists; reflexivity | now left].
Qed.

(** With a label-delta filter and no [historyTypes], setting the
    properties throws, at the test that reads [props.historyTypes]. *)
Lemma setApiProperties_without_historyTypes (props : options) (w : world) :
  o_historyTypes props = None ->
  (isSome (o_addedLabelIds props) || isSome (o_removedLabelIds props))%bool
  = true ->
  _setApiPropertiesWithProps props w
  = (Throw (typeError
              "Cannot read properties of undefined (reading 'includes')"),
     World (setHistoryTypes VALID_HISTORY_TYPES (w_api w))
           (w_file w) (w_trace w)).
Proof.
  intros Ht Hl. unfold _setApiPropertiesWithProps. rewrite Ht.
  destruct (o_addedLabelIds props) as [added | ]; [reflexivity | ].
  destruct (o_removedLabelIds props) as [removed | ]; [reflexivity | ].
  discriminate.
Qed.

(** C10. A call of [getMessagesWithoutAttachment] or [getMessages] that
    supplies [addedLabelIds] or [removedLabelIds] and omits
    [historyTypes] throws, whatever else it supplies, before any request
    is issued: the trace of requests and the history file are as before
    the call. When the keys of the options are acceptable, the error is
    the [TypeError] of reading [includes] on the missing [historyTypes]:
    the test reads the option, not the default that [this._api] received
    just before. *)
Theorem label_filter_without_historyTypes_throws
        (gmail : gmailService) (decodeBase64 : string -> string) (fuel : nat)
        (opts : options) (w : world) :
  o_historyTypes opts = None ->
  (isSome (o_addedLabelIds opts) || isSome (o_removedLabelIds opts))%bool
  = true ->
  exists err w',
    getMessagesWithoutAttachment gmail decodeBase64 fuel (Some opts) w
    = (Throw err, w')
    /\ getMessages gmail decodeBase64 fuel (Some opts) w = (Throw err, w')
    /\ w_trace w' = w_trace w
    /\ w_file w' = w_file w
    /\ (_getPropsFromOptions (Some opts) retrievalRules w = (Return opts, w) ->
        err = typeError
                "Cannot read properties of undefined (reading 'includes')"
        /\ historyTypes (w_api w') = VALID_HISTORY_TYPES).
Proof.
  intros Ht Hl.
  destruct (getPropsFromOptions_cases opts retrievalRules w)
    as [Ok | [err Ko]].
  - assert (E : getMessagesWithoutAttachment gmail decodeBase64 fuel
                  (Some opts) w
                = (Throw (typeError
                     "Cannot read properties of undefined (reading 'includes')"),
                   World (setHistoryTypes VALID_HISTORY_TYPES (w_api w))
                         (w_file w) (w_trace w))).
    { unfold getMessagesWithoutAttachment, bind. rewrite Ok.
      now rewrite (setApiProperties_without_historyTypes opts w Ht Hl). }
    do 2 eexists. split; [exact E | ].
    split; [unfold getMessages, bind; now rewrite E | ].
    repeat split.
  - assert (E : getMessagesWithoutAttachment gmail decodeBase64 fuel
                  (Some opts) w = (Throw err, w)).
    { unfold getMessagesWithoutAttachment, bind. now rewrite Ko. }
    exists err, w. split; [exact E | ].
    split; [unfold getMessages, bind; now rewrite E | ].
    repeat split; congruence.
Qed.

Lemma label_filter_without_historyTypes_throws_witness :
  exists err w',
    getMessagesWithoutAttachment renewingService (fun data => data) 1
      (Some (addedLabelsOnly "user1@gmail.com" 20)) knownAccountWorld
    = (Throw err, w')
    /\ getMessages renewingService (fun data => data) 1
         (Some (addedLabelsOnly "user1@gmail.com" 20)) knownAccountWorld
       = (Throw err, w')
    /\ w_trace w' = w_trace knownAccountWorld
    /\ w_file w' = w_file knownAccountWorld
    /\ (_getPropsFromOptions (Some (addedLabelsOnly "user1@gmail.com" 20))
                             retrievalRules knownAccountWorld
        = (Return (addedLabelsOnly "user1@gmail.com" 20), knownAccountWorld) ->
        err = typeError
                "Cannot read properties of undefined (reading 'includes')"
        /\ historyTypes (w_api w') = VALID_HISTORY_TYPES).
Proof.
  apply (label_filter_without_historyTypes_throws renewingService
           (fun data => data) 1 (addedLabelsOnly "user1@gmail.com" 20)
           knownAccountWorld); reflexivity.
Defined.

(* ================================================================== *)
(** ** The message filter *)

Lemma overlap_test (a : api) :
  overlapping a ->
  (isSome (withLabelIds a) && isSome (withoutLabelIds a)
   && Nat.ltb 0
        (List.length
           (filter (fun labelId =>
                      Js.includes (orEmpty (withoutLabelIds a)) labelId)
                   (orEmpty (withLabelIds a)))))%bool = true.
Proof.
  intros (withIds & withoutIds & l & -> & -> & Hw & Hwo). simpl.
  assert (In l (filter (fun labelId => Js.includes withoutIds labelId)
                       withIds)) as Hin.
  { apply filter_In. split; [assumption | now apply includes_In]. }
  destruct (filter _ withIds); [contradiction | reflexivity].
Qed.

Lemma filterMessage_overlap (message : parsedMessage) (w : world) :
  overlapping (w_api w) ->
  _filterMessage message w = (Throw overlapError, w).
Proof.
  intros H. unfold _filterMessage, bind, getApi.
  now rewrite (overlap_test _ H).
Qed.

Lemma filterM_overlap (messages : list parsedMessage) (w : world) :
  overlapping (w_api w) ->
  filterM _filterMessage messages w
  = (match messages with
     | [] => Return []
     | _ :: _ => Throw overlapError
     end, w).
Proof.
  intros H. destruct messages as [ | message rest]; [reflexivity | ].
  cbn [filterM]. unfold bind at 1. now rewrite filterMessage_overlap.
Qed.

(** The label filters of a call are those of its options, and no step
    between validation and filtering changes them. *)
Lemma setApiProperties_labelFilters (props : options) (w w' : world)
      (withIds withoutIds : list string) :
  o_withLabelIds props = Some withIds ->
  o_withoutLabelIds props = Some withoutIds ->
  _setApiPropertiesWithProps props w = (Return tt, w') ->
  labelFilters w' = (Some withIds, Some withoutIds).
Proof.
  intros Hw Hwo. unfold _setApiPropertiesWithProps. rewrite Hw, Hwo.
  unfold bind, modifyApi, ret, throw.
  destruct (Nat.ltb 0 _); [discriminate | ].
  destruct (o_addedLabelIds props) as [added | ];
    destruct (o_removedLabelIds props) as [removed | ];
    destruct (o_historyTypes props) as [types | ]; try discriminate;
    repeat match goal with
           | |- context [if ?b then _ else _] => destruct b
           end;
    try discriminate; intros [= <-]; reflexivity.
Qed.

Lemma initialize_labelFilters (gmail : gmailService)
      (n : option notification) (token : option string) (w : world) :
  labelFilters (snd (_initialize gmail n token w)) = labelFilters w.
Proof.
  destruct n as [[payload | e] | ]; [ | reflexivity | reflexivity].
  rewrite initialize_push. cbv zeta.
  destruct (w_file w) as [err | records];
    [destruct (Js.startsWith _ _); [ | reflexivity] | ];
    (destruct (users_watch gmail _ _); [reflexivity | ];
     destruct (find _ _); [ | reflexivity];
     destruct (jsLeq _ _); reflexivity).
Qed.

Lemma getHistory_labelFilters (gmail : gmailService) (fuel : nat) :
  forall pageToken w,
    labelFilters (snd (_getHistory gmail fuel pageToken w)) = labelFilters w.
Proof.
  induction fuel as [ | fuel IH]; intros pageToken w; [reflexivity | ].
  cbn [_getHistory]. unfold bind at 1 2 3, getApi, issue. simpl.
  destruct (users_history_list gmail _ _ _) as [err | page]; [reflexivity | ].
  simpl. destruct (Js.truthy (nextPageToken page)); [ | reflexivity].
  unfold bind.
  specialize (IH (nextPageToken page)
                 (World (w_api w) (w_file w)
                    (w_trace w
                     ++ [HistoryList (api_emailAddress (w_api w))
                           (startHistoryId (w_api w))
                           (if Js.truthy pageToken
                            then pageToken else None)]))).
  destruct (_getHistory gmail fuel (nextPageToken page) _) as [[r | e | ] w'];
    exact IH.
Qed.

Lemma mapM_labelFilters {A B : Type} (f : A -> M B) :
  (forall x w, labelFilters (snd (f x w)) = labelFilters w) ->
  forall xs w, labelFilters (snd (mapM f xs w)) = labelFilters w.
Proof.
  intros Hf. induction xs as [ | x xs IH]; intros w; [reflexivity | ].
  cbn [mapM]. unfold bind. specialize (Hf x w).
  destruct (f x w) as [[y | e | ] w1]; try exact Hf.
  specialize (IH w1).
  destruct (mapM f xs w1) as [[ys | e | ] w2]; simpl in *; congruence.
Qed.

(** Resolving a message changes neither the instance nor the file. *)
Lemma getMessageFromId_world (gmail : gmailService) (messageId : string)
      (w : world) :
  snd (_getMessageFromId gmail messageId w)
  = World (w_api w) (w_file w)
          (w_trace w ++ [MessagesGet messageId (api_emailAddress (w_api w))]).
Proof.
  unfold _getMessageFromId, bind, getApi, issue, tryCatch, liftE. simpl.
  destruct (users_messages_get gmail messageId (api_emailAddress (w_api w)))
    as [err | msg]; [ | reflexivity].
  simpl. now destruct (err_message err =? "Not Found").
Qed.

(** Resolving and parsing one message id issues one request and changes
    nothing else, whether the message parses or not. *)
Lemma resolve_world (gmail : gmailService)
      (decodeBase64 : string -> string) (historyEntry : historyEntry)
      (id : string) (w : world) :
  snd ((message <- _getMessageFromId gmail id ;;
        liftE (_parseMessage decodeBase64 message historyEntry)) w)
  = World (w_api w) (w_file w)
          (w_trace w ++ [MessagesGet id (api_emailAddress (w_api w))]).
Proof.
  unfold bind.
  pose proof (getMessageFromId_world gmail id w) as H.
  destruct (_getMessageFromId gmail id w) as [[msg | e | ] w1];
    cbn [snd] in *; subst w1; try reflexivity.
  unfold liftE. now destruct (_parseMessage decodeBase64 msg historyEntry).
Qed.

Lemma resolve_labelFilters (gmail : gmailService)
      (decodeBase64 : string -> string) (historyEntry : historyEntry)
      (id : string) (w : world) :
  labelFilters
    (snd ((message <- _getMessageFromId gmail id ;;
           liftE (_parseMessage decodeBase64 message historyEntry)) w))
  = labelFilters w.
Proof. now rewrite resolve_world. Qed.

(* ================================================================== *)
(** ** Further properties: option validation *)

(** Tests on the length of a [filter], in terms of membership. *)
Lemma some_kept_iff {A : Type} (f : A -> bool) (l : list A) :
  Nat.ltb 0 (List.length (filter f l)) = true
  <-> exists x, In x l /\ f x = true.
Proof.
  split.
  - intros H. destruct (filter f l) as [ | x rest] eqn:E; [discriminate | ].
    exists x. apply filter_In. rewrite E. now left.
  - intros (x & Hx). apply filter_In in Hx.
    destruct (filter f l); [contradiction | reflexivity].
Qed.

Lemma all_dropped_iff {A : Type} (f : A -> bool) (l : list A) :
  Nat.ltb 0 (List.length (filter f l)) = false
  <-> forall x, In x l -> f x = false.
Proof.
  split.
  - intros H x Hx. destruct (f x) eqn:E; [ | reflexivity].
    assert (Nat.ltb 0 (List.length (filter f l)) = true) as K
        by (apply some_kept_iff; eauto).
    congruence.
  - intros H. destruct (Nat.ltb 0 (List.length (filter f l))) eqn:E;
      [ | reflexivity].
    apply some_kept_iff in E as (x & Hx & Hf). rewrite (H x Hx) in Hf.
    discriminate.
Qed.

Lemma not_includes_iff (xs : list string) (x : string) :
  negb (Js.includes xs x) = false <-> In x xs.
Proof.
  rewrite negb_false_iff. apply includes_In.
Qed.

(** When [_getPropsFromOptions] accepts an options object. *)
Lemma getPropsFromOptions_accepts (opts : options) (rules : rules)
      (w : world) :
  _getPropsFromOptions (Some opts) rules w = (Return opts, w)
  <-> (forall key, In key (keys opts) ->
                   In key (required rules ++ orEmpty (optional rules)))
      /\ (forall key, In key (required rules) -> In key (keys opts)).
Proof.
  unfold _getPropsFromOptions.
  destruct (Nat.ltb 0 (List.length (filter _ (keys opts)))) eqn:E1.
  - split; [discriminate | ]. intros [H _]. exfalso.
    apply some_kept_iff in E1 as (key & Hk & Hn).
    apply negb_true_iff in Hn.
    assert (Js.includes (required rules ++ orEmpty (optional rules)) key
            = true) by (apply includes_In; auto).
    congruence.
  - destruct (Nat.ltb 0 (List.length (filter _ (required rules)))) eqn:E2.
    + split; [discriminate | ]. intros [_ H]. exfalso.
      apply some_kept_iff in E2 as (key & Hk & Hn).
      apply negb_true_iff in Hn.
      assert (Js.includes (keys opts) key = true)
        by (apply includes_In; auto).
      congruence.
    + split; [intros _ | reflexivity]. split; intros key Hk.
      * apply not_includes_iff.
        exact (proj1 (all_dropped_iff _ _) E1 key Hk).
      * apply not_includes_iff.
        exact (proj1 (all_dropped_iff _ _) E2 key Hk).
Qed.

(** X1. [_getPropsFromOptions] returns the options it was given exactly
    when every key of the options is a required or an optional key of
    the rules and every required key is among the keys of the options;
    otherwise, and when no options object is passed, it throws. It never
    issues a request and changes nothing. *)
Theorem getPropsFromOptions_accepts_iff (opts : options) (rules : rules)
        (w : world) :
  (_getPropsFromOptions (Some opts) rules w = (Return opts, w)
   <-> (forall key, In key (keys opts) ->
                    In key (required rules ++ orEmpty (optional rules)))
       /\ (forall key, In key (required rules) -> In key (keys opts)))
  /\ (_getPropsFromOptions (Some opts) rules w = (Return opts, w)
      \/ exists err, _getPropsFromOptions (Some opts) rules w = (Throw err, w))
  /\ (exists err, _getPropsFromOptions None rules w = (Throw err, w)).
Proof.
  split; [apply getPropsFromOptions_accepts | ].
  split; [apply getPropsFromOptions_cases | eexists; reflexivity].
Qed.

Lemma getPropsFromOptions_accepts_iff_witness :
  _getPropsFromOptions (retrieval "user1@gmail.com" 7) retrievalRules
                       freshWorld
  = (Return (Options (pushFor "user1@gmail.com" 7) (Some "token")
                     None None None None None []),
     freshWorld).
Proof.
  apply (proj1 (getPropsFromOptions_accepts_iff _ retrievalRules freshWorld)).
  split; intros key H; simpl in *; tauto.
Defined.

(** X2. [_setApiPropertiesWithProps] succeeds exactly when every
    given history type is one of the four valid ones and each of
    [addedLabelIds], [removedLabelIds] comes with a [historyTypes] that
    lists its kind ([labelAdded], [labelRemoved]). *)
Theorem setApiProperties_succeeds_iff (props : options) (w : world) :
  (exists w', _setApiPropertiesWithProps props w = (Return tt, w'))
  <-> acceptableProps props.
Proof.
  unfold acceptableProps, _setApiPropertiesWithProps, bind, modifyApi, ret,
    throw.
  split.
  - intros [w' H].
    destruct (Nat.ltb 0 _) eqn:E0; [discriminate | ].
    split; [ | split].
    + intros t Ht. apply not_includes_iff.
      exact (proj1 (all_dropped_iff _ _) E0 t Ht).
    + intros ids Hids. rewrite Hids in H.
      destruct (o_historyTypes props) as [types | ]; [ | discriminate].
      exists types. split; [reflexivity | ].
      destruct (negb (Js.includes types "labelAdded")) eqn:E;
        [discriminate | ].
      now apply not_includes_iff.
    + intros ids Hids. rewrite Hids in H.
      destruct (o_historyTypes props) as [types | ].
      * exists types. split; [reflexivity | ].
        destruct (o_addedLabelIds props);
          [destruct (negb (Js.includes types "labelAdded"));
           [discriminate | ] | ];
          (destruct (negb (Js.includes types "labelRemoved")) eqn:E;
           [discriminate | now apply not_includes_iff]).
      * destruct (o_addedLabelIds props); discriminate.
  - intros (V & A & R).
    rewrite (proj2 (all_dropped_iff _ _)).
    2:{ intros t Ht. apply not_includes_iff. auto. }
    destruct (o_addedLabelIds props) as [added | ].
    + destruct (A added eq_refl) as (types & Ht & Hin). rewrite Ht in *.
      rewrite (proj2 (not_includes_iff _ _) Hin).
      destruct (o_removedLabelIds props) as [removed | ].
      * destruct (R removed eq_refl) as (types' & [= <-] & Hin').
        rewrite (proj2 (not_includes_iff _ _) Hin').
        destruct (o_withLabelIds props), (o_withoutLabelIds props);
          eexists; reflexivity.
      * destruct (o_withLabelIds props), (o_withoutLabelIds props);
          eexists; reflexivity.
    + destruct (o_removedLabelIds props) as [removed | ].
      * destruct (R removed eq_refl) as (types' & Ht & Hin'). rewrite Ht.
        rewrite (proj2 (not_includes_iff _ _) Hin').
        destruct (o_withLabelIds props), (o_withoutLabelIds props);
          eexists; reflexivity.
      * destruct (o_withLabelIds props), (o_withoutLabelIds props);
          eexists; reflexivity.
Qed.

Lemma setApiProperties_succeeds_iff_witness :
  exists w',
    _setApiPropertiesWithProps labelAddedRetrieval freshWorld
    = (Return tt, w').
Proof.
  apply (proj2 (setApiProperties_succeeds_iff labelAddedRetrieval
                                              freshWorld)).
  repeat split.
  - simpl. intros t [<- | []]. simpl. tauto.
  - intros ids _. exists ["labelAdded"]. simpl. auto.
  - intros ids H. discriminate H.
Defined.

(** The world a successful [_setApiPropertiesWithProps] leaves. *)
Lemma setApiProperties_effect_aux (props : options) (w w' : world) :
  _setApiPropertiesWithProps props w = (Return tt, w') ->
  w' = World
         (Api (prevHistoryIdFilePath (w_api w)) (prevHistories (w_api w))
              (pubsubTopic (w_api w)) (api_emailAddress (w_api w))
              (startHistoryId (w_api w))
              (match o_historyTypes props with
               | Some types => types
               | None => VALID_HISTORY_TYPES
               end)
              (supplied (o_addedLabelIds props) (addedLabelIds (w_api w)))
              (supplied (o_removedLabelIds props)
                        (removedLabelIds (w_api w)))
              (supplied (o_withLabelIds props) (withLabelIds (w_api w)))
              (supplied (o_withoutLabelIds props)
                        (withoutLabelIds (w_api w))))
         (w_file w) (w_trace w).
Proof.
  unfold _setApiPropertiesWithProps, bind, modifyApi, ret, throw.
  destruct (Nat.ltb 0 _); [discriminate | ].
  destruct (o_historyTypes props) as [types | ];
    destruct (o_addedLabelIds props) as [added | ];
    destruct (o_removedLabelIds props) as [removed | ];
    destruct (o_withLabelIds props) as [withIds | ];
    destruct (o_withoutLabelIds props) as [withoutIds | ];
    repeat match goal with
           | |- context [if ?b then _ else _] => destruct b
           end;
    try discriminate; intros [= <-]; reflexivity.
Qed.

(** X3. What a successful [_setApiPropertiesWithProps] leaves in the
    instance: [historyTypes] is the option, or the four kinds when the
    option is omitted; each of the four label filters is the option when
    it is supplied and otherwise keeps the value it had, so a filter set
    by an earlier call stays in force. Nothing else changes. *)
Theorem setApiProperties_effect (props : options) (w w' : world) :
  _setApiPropertiesWithProps props w = (Return tt, w') ->
  w' = World
         (Api (prevHistoryIdFilePath (w_api w)) (prevHistories (w_api w))
              (pubsubTopic (w_api w)) (api_emailAddress (w_api w))
              (startHistoryId (w_api w))
              (match o_historyTypes props with
               | Some types => types
               | None => VALID_HISTORY_TYPES
               end)
              (supplied (o_addedLabelIds props) (addedLabelIds (w_api w)))
              (supplied (o_removedLabelIds props)
                        (removedLabelIds (w_api w)))
              (supplied (o_withLabelIds props) (withLabelIds (w_api w)))
              (supplied (o_withoutLabelIds props)
                        (withoutLabelIds (w_api w))))
         (w_file w) (w_trace w).
Proof. apply setApiProperties_effect_aux. Qed.

Lemma setApiProperties_effect_witness :
  labelFilters
    (snd (_setApiPropertiesWithProps
            (Options (pushFor "user1@gmail.com" 7) (Some "token")
                     None None None None None [])
            inboxWorld))
  = (Some ["INBOX"], Some ["SENT"]).
Proof.
  rewrite (setApiProperties_effect
             (Options (pushFor "user1@gmail.com" 7) (Some "token")
                      None None None None None [])
             inboxWorld
             (snd (_setApiPropertiesWithProps
                     (Options (pushFor "user1@gmail.com" 7) (Some "token")
                              None None None None None [])
                     inboxWorld))).
  - reflexivity.
  - reflexivity.
Defined.

(* ================================================================== *)
(** ** Further properties: the message filter *)

Lemma overlap_test_false (a : api) :
  ~ overlapping a ->
  (isSome (withLabelIds a) && isSome (withoutLabelIds a)
   && Nat.ltb 0
        (List.length
           (filter (fun labelId =>
                      Js.includes (orEmpty (withoutLabelIds a)) labelId)
                   (orEmpty (withLabelIds a)))))%bool = false.
Proof.
  intros H.
  destruct (withLabelIds a) as [withIds | ] eqn:Ew; [ | reflexivity].
  destruct (withoutLabelIds a) as [withoutIds | ] eqn:Ewo; [ | reflexivity].
  simpl. apply all_dropped_iff. intros l Hl.
  destruct (Js.includes withoutIds l) eqn:E; [ | reflexivity].
  exfalso. apply H. exists withIds, withoutIds, l.
  apply includes_In in E. auto.
Qed.

(** X4. With label sets that do not overlap, [_filterMessage] never
    throws and changes nothing, and it keeps a message exactly when
    both rules hold: if an include set is configured, the message has
    [labelIds] and one of them is in the set; if an exclude set is
    configured and the message has [labelIds], none of them is in the
    set. So a message without [labelIds] (a message not found) is
    dropped whenever an include set is configured and is never dropped
    by an exclude set alone. *)
Theorem filterMessage_rules (message : parsedMessage) (w : world) :
  ~ overlapping (w_api w) ->
  exists keep,
    _filterMessage message w = (Return keep, w)
    /\ (keep = true
        <-> (forall withIds,
                withLabelIds (w_api w) = Some withIds ->
                exists labelIds labelId,
                  m_labelIds (pm_message message) = Some labelIds
                  /\ In labelId withIds /\ In labelId labelIds)
            /\ (forall withoutIds labelIds labelId,
                  withoutLabelIds (w_api w) = Some withoutIds ->
                  m_labelIds (pm_message message) = Some labelIds ->
                  In labelId withoutIds -> ~ In labelId labelIds)).
Proof.
  intros H. unfold _filterMessage, bind, getApi.
  rewrite (overlap_test_false _ H). clear H.
  destruct (m_labelIds (pm_message message)) as [labelIds | ];
    destruct (withLabelIds (w_api w)) as [withIds | ];
    destruct (withoutLabelIds (w_api w)) as [withoutIds | ];
    cbn [isSome negb andb orEmpty].
  - destruct (Nat.eqb _ 0) eqn:E1.
    { eexists. split; [reflexivity | ]. split; [discriminate | ].
      intros [K _]. destruct (K _ eq_refl) as (ls & l & [= <-] & H1 & H2).
      assert (Nat.eqb
                (List.length
                   (filter (fun withLabelId =>
                              Js.includes labelIds withLabelId) withIds))
                0 = false) as E1'.
      { apply none_kept_iff. exists l.
        split; [assumption | now apply includes_In]. }
      congruence. }
    apply none_kept_iff in E1 as (l & Hl & Hi). apply includes_In in Hi.
    destruct (Nat.ltb 0 _) eqn:E2.
    + eexists. split; [reflexivity | ]. split; [discriminate | ].
      intros [_ K]. exfalso.
      apply some_kept_iff in E2 as (l' & Hl' & Hi').
      apply includes_In in Hi'. exact (K _ _ l' eq_refl eq_refl Hl' Hi').
    + eexists. split; [reflexivity | ]. split; [intros _ | reflexivity].
      split.
      * intros ? [= <-]. now exists labelIds, l.
      * intros ? ? l' [= <-] [= <-] Hl' Hi'.
        apply includes_In in Hi'.
        rewrite (proj1 (all_dropped_iff _ _) E2 l' Hl') in Hi'.
        discriminate.
  - destruct (Nat.eqb _ 0) eqn:E1.
    { eexists. split; [reflexivity | ]. split; [discriminate | ].
      intros [K _]. destruct (K _ eq_refl) as (ls & l & [= <-] & H1 & H2).
      assert (Nat.eqb
                (List.length
                   (filter (fun withLabelId =>
                              Js.includes labelIds withLabelId) withIds))
                0 = false) as E1'.
      { apply none_kept_iff. exists l.
        split; [assumption | now apply includes_In]. }
      congruence. }
    apply none_kept_iff in E1 as (l & Hl & Hi). apply includes_In in Hi.
    eexists. split; [reflexivity | ]. split; [intros _ | reflexivity].
    split; [ | discriminate].
    intros ? [= <-]. now exists labelIds, l.
  - destruct (Nat.ltb 0 _) eqn:E2.
    + eexists. split; [reflexivity | ]. split; [discriminate | ].
      intros [_ K]. exfalso.
      apply some_kept_iff in E2 as (l' & Hl' & Hi').
      apply includes_In in Hi'. exact (K _ _ l' eq_refl eq_refl Hl' Hi').
    + eexists. split; [reflexivity | ]. split; [intros _ | reflexivity].
      split; [discriminate | ].
      intros ? ? l' [= <-] [= <-] Hl' Hi'.
      apply includes_In in Hi'.
      rewrite (proj1 (all_dropped_iff _ _) E2 l' Hl') in Hi'.
      discriminate.
  - eexists. split; [reflexivity | ]. split; [intros _ | reflexivity].
    split; discriminate.
  - eexists. split; [reflexivity | ]. split; [discriminate | ].
    intros [K _]. destruct (K _ eq_refl) as (ls & l & E & _). discriminate.
  - eexists. split; [reflexivity | ]. split; [discriminate | ].
    intros [K _]. destruct (K _ eq_refl) as (ls & l & E & _). discriminate.
  - eexists. split; [reflexivity | ]. split; [intros _ | reflexivity].
    split; discriminate.
  - eexists. split; [reflexivity | ]. split; [intros _ | reflexivity].
    split; discriminate.
Qed.

Lemma filterMessage_rules_witness :
  exists keep,
    _filterMessage parsedStub inboxWorld = (Return keep, inboxWorld)
    /\ (keep = true
        <-> (forall withIds,
                withLabelIds (w_api inboxWorld) = Some withIds ->
                exists labelIds labelId,
                  m_labelIds (pm_message parsedStub) = Some labelIds
                  /\ In labelId withIds /\ In labelId labelIds)
            /\ (forall withoutIds labelIds labelId,
                  withoutLabelIds (w_api inboxWorld) = Some withoutIds ->
                  m_labelIds (pm_message parsedStub) = Some labelIds ->
                  In labelId withoutIds -> ~ In labelId labelIds)).
Proof.
  apply (filterMessage_rules parsedStub inboxWorld).
  intros (withIds & withoutIds & l & Hw & Hwo & H1 & H2).
  simpl in Hw, Hwo. inversion Hw; inversion Hwo; subst.
  simpl in H1, H2. destruct H1 as [<- | []]. destruct H2 as [H2 | []].
  discriminate H2.
Defined.

(* ================================================================== *)
(** ** Further properties: the reconciliation cycle *)

(** X5. A reconciliation cycle that throws, for whatever reason (a
    notification that does not decode, a history file that cannot be
    read, a lease renewal that fails, a file without a record for the
    account), has written nothing: the history file is as before, no
    write was issued, and the lower bound for the history fetch is
    unchanged. *)
Theorem failed_cycle_writes_nothing (gmail : gmailService)
        (n : option notification) (token : option string) (w w' : world)
        (err : jsError) :
  _initialize gmail n token w = (Throw err, w') ->
  w_file w' = w_file w
  /\ startHistoryId (w_api w') = startHistoryId (w_api w)
  /\ exists issued,
       w_trace w' = w_trace w ++ issued
       /\ forallb (fun q => negb (isWriteFile q)) issued = true.
Proof.
  destruct n as [[payload | e] | ].
  - rewrite initialize_push. cbv zeta.
    destruct (w_file w) as [ferr | records] eqn:F.
    + destruct (Js.startsWith _ _).
      * destruct (users_watch gmail _ _).
        -- intros [= _ <-]. cbn. rewrite <- app_assoc.
           repeat split; try assumption. eexists. split; reflexivity.
        -- destruct (find _ _).
           ++ destruct (jsLeq _ _); discriminate.
           ++ intros [= _ <-]. cbn. rewrite <- app_assoc.
              repeat split; try assumption. eexists. split; reflexivity.
      * intros [= _ <-]. cbn.
        repeat split; try assumption. eexists. split; reflexivity.
    + destruct (users_watch gmail _ _).
      * intros [= _ <-]. cbn. rewrite <- app_assoc.
        repeat split; try assumption. eexists. split; reflexivity.
      * destruct (find _ _).
        -- destruct (jsLeq _ _); discriminate.
        -- intros [= _ <-]. cbn. rewrite <- app_assoc.
           repeat split; try assumption. eexists. split; reflexivity.
  - intros [= _ <-]. repeat split. exists []. now rewrite app_nil_r.
  - intros [= _ <-]. repeat split. exists []. now rewrite app_nil_r.
Qed.

Lemma failed_cycle_writes_nothing_witness :
  w_file (snd (_initialize failingService (pushFor "user1@gmail.com" 20)
                           (Some "token") knownAccountWorld))
  = w_file knownAccountWorld.
Proof.
  refine (proj1 (failed_cycle_writes_nothing failingService
                   (pushFor "user1@gmail.com" 20) (Some "token")
                   knownAccountWorld _
                   (JsError "Request had invalid credentials") _)).
  reflexivity.
Defined.

Lemma updateFound_accounts (p : prevHistory -> bool)
      (f : prevHistory -> prevHistory) (records : list prevHistory) :
  (forall r, emailAddress (f r) = emailAddress r) ->
  map emailAddress (updateFound p f records) = map emailAddress records.
Proof.
  intros Hf. induction records as [ | x rest IH]; simpl; [reflexivity | ].
  destruct (p x); simpl; [now rewrite Hf | now rewrite IH].
Qed.

(** X6. A reconciliation cycle on an existing history file, however it
    ends, keeps the accounts of the file, in their order: it neither
    creates nor deletes a record. The record the file holds for every
    account other than that of the notification is left as it was. *)
Theorem cycle_keeps_other_accounts (c : cycle) (w : world)
        (records : list prevHistory) :
  w_file w = FileContent records ->
  exists records',
    w_file (runCycle c w) = FileContent records'
    /\ map emailAddress records' = map emailAddress records
    /\ forall account,
         (forall payload,
             c_notification c = Some (Push payload) ->
             np_emailAddress payload <> account) ->
         storedRecord (runCycle c w) account = storedRecord w account.
Proof.
  intros F. unfold runCycle, storedRecord.
  destruct c as [gmail [[payload | e] | ] token];
    cbn [c_gmail c_notification c_token];
    [ | exists records; auto | exists records; auto].
  rewrite initialize_push. cbv zeta. rewrite F.
  destruct (users_watch gmail _ _); [exists records; auto | ].
  destruct (find _ _); [ | exists records; auto].
  assert (Names : map emailAddress (map jsonRecord records)
                  = map emailAddress records)
    by (rewrite map_map; now apply map_ext).
  destruct (jsLeq _ _); cbn [snd w_file]; eexists;
    (split; [reflexivity | ]);
    (split; [now rewrite !updateFound_accounts by reflexivity | ]);
    intros account Hne; specialize (Hne payload eq_refl);
    rewrite recordOf_json, !recordOf_updateFound by reflexivity;
    (destruct (account =? np_emailAddress payload) eqn:E;
     [apply String.eqb_eq in E; congruence | ]);
    now rewrite <- recordOf_json, recordOf_json_json.
Qed.

Lemma cycle_keeps_other_accounts_witness :
  exists records',
    w_file (runCycle (Cycle renewingService (pushFor "user1@gmail.com" 20)
                            (Some "token"))
                     twoAccountWorld)
    = FileContent records'
    /\ map emailAddress records'
       = map emailAddress [PrevHistory "user1@gmail.com" (Num 10) (Num 5);
                           PrevHistory "user2@gmail.com" (Num 30) Null]
    /\ forall account,
         (forall payload,
             c_notification
               (Cycle renewingService (pushFor "user1@gmail.com" 20)
                      (Some "token"))
             = Some (Push payload) ->
             np_emailAddress payload <> account) ->
         storedRecord
           (runCycle (Cycle renewingService (pushFor "user1@gmail.com" 20)
                            (Some "token"))
                     twoAccountWorld)
           account
         = storedRecord twoAccountWorld account.
Proof.
  apply (cycle_keeps_other_accounts
           (Cycle renewingService (pushFor "user1@gmail.com" 20)
                  (Some "token"))
           twoAccountWorld).
  reflexivity.
Defined.

(** X7. On a history file that holds a record for the account, with a
    lease renewal that succeeds, the cycle answers [false] exactly when
    the notification's counter is less than or equal to the stored one,
    as JavaScript compares them: between two numbers the answer is
    [true] exactly when the notification's is above, and a counter that
    is [NaN] always gets [true]. On [true] the lower bound for the
    history fetch is the counter that was stored and the file holds what
    JSON keeps of the notification's counter, which is the counter when
    it is a number and [null] when it is [NaN]; on [false] the lower
    bound is left as it was and the file keeps its counter. *)
Theorem cycle_answer_and_lower_bound (gmail : gmailService)
        (payload : notificationPayload) (token : option string) (w : world)
        (ph : prevHistory) (expiration : jsNumber) :
  storedRecord w (np_emailAddress payload) = Some ph ->
  users_watch gmail (np_emailAddress payload) (pubsubTopic (w_api w))
  = inr expiration ->
  let answer := fst (_initialize gmail (Some (Push payload)) token w) in
  let after := snd (_initialize gmail (Some (Push payload)) token w) in
  answer = Return (negb (jsLeq (np_historyId payload) (prevHistoryId ph)))
  /\ (forall x y,
         np_historyId payload = Num x -> prevHistoryId ph = Num y ->
         answer = Return (y <? x)%Z)
  /\ (np_historyId payload = NaN -> answer = Return true)
  /\ (answer = Return false ->
      startHistoryId (w_api after) = startHistoryId (w_api w)
      /\ storedCounter after (np_emailAddress payload)
         = Some (prevHistoryId ph))
  /\ (answer = Return true ->
      startHistoryId (w_api after) = Some (prevHistoryId ph)
      /\ storedCounter after (np_emailAddress payload)
         = Some (jsonNumber (np_historyId payload))).
Proof.
  unfold storedRecord. intros Hph Hw. cbv zeta.
  destruct (w_file w) as [err | records] eqn:F; [discriminate | ].
  pose proof (recordOf_json_fixed _ _ _ Hph) as Fixed.
  rewrite initialize_push. cbv zeta. rewrite F, Hw.
  pose proof Hph as Hfind. unfold recordOf in Hfind. rewrite Hfind.
  unfold storedCounter, storedRecord.
  destruct (jsLeq (np_historyId payload) (prevHistoryId ph)) eqn:E;
    cbn [fst snd w_api w_file negb startHistoryId setPrevHistories
         setStartHistoryId].
  - split; [reflexivity | ]. split; [ | split; [ | split]].
    + intros x y Hx Hy. rewrite Hx, Hy, jsLeq_Num in E.
      f_equal. symmetry. apply Z.ltb_ge. now apply Z.leb_le.
    + intros Hn. rewrite Hn in E. discriminate E.
    + intros _. split; [reflexivity | ].
      rewrite recordOf_json, recordOf_updateFound, String.eqb_refl, Hph
        by reflexivity.
      cbn. now rewrite <- Fixed at 2.
    + discriminate.
  - split; [reflexivity | ]. split; [ | split; [ | split]].
    + intros x y Hx Hy. rewrite Hx, Hy, jsLeq_Num in E.
      f_equal. symmetry. apply Z.ltb_lt. now apply Z.leb_gt.
    + reflexivity.
    + discriminate.
    + intros _. split; [reflexivity | ].
      rewrite recordOf_json, !recordOf_updateFound, String.eqb_refl, Hph
        by reflexivity.
      reflexivity.
Qed.

Lemma cycle_answer_and_lower_bound_witness :
  startHistoryId
    (w_api (snd (_initialize renewingService (pushFor "user1@gmail.com" 20)
                             (Some "token") knownAccountWorld)))
  = Some (Num 10)
  /\ storedCounter
       (snd (_initialize renewingService (pushFor "user1@gmail.com" 20)
                         (Some "token") knownAccountWorld))
       "user1@gmail.com"
     = Some (Num 20).
Proof.
  refine (proj2 (proj2 (proj2 (proj2
            (cycle_answer_and_lower_bound renewingService
               (NotificationPayload "user1@gmail.com" (Num 20))
               (Some "token") knownAccountWorld
               (PrevHistory "user1@gmail.com" (Num 10) (Num 5))
               (Num 1000) _ _)))) _).
  - reflexivity.
  - reflexivity.
  - reflexivity.
Defined.

(* ================================================================== *)
(** ** Further properties: what the steps of a call leave alone *)

Section Frames.

Context {T : Type}.

(** A projection of the world, such as its configuration or its file. *)
Variable proj : world -> T.

Lemma mapM_frame {A B : Type} (f : A -> M B) :
  (forall x w, proj (snd (f x w)) = proj w) ->
  forall xs w, proj (snd (mapM f xs w)) = proj w.
Proof.
  intros Hf. induction xs as [ | x xs IH]; intros w; [reflexivity | ].
  cbn [mapM]. unfold bind. specialize (Hf x w).
  destruct (f x w) as [[y | e | ] w1]; try exact Hf.
  specialize (IH w1).
  destruct (mapM f xs w1) as [[ys | e | ] w2]; simpl in *; congruence.
Qed.

Lemma filterM_frame {A : Type} (f : A -> M bool) :
  (forall x w, proj (snd (f x w)) = proj w) ->
  forall xs w, proj (snd (filterM f xs w)) = proj w.
Proof.
  intros Hf. induction xs as [ | x xs IH]; intros w; [reflexivity | ].
  cbn [filterM]. unfold bind. specialize (Hf x w).
  destruct (f x w) as [[y | e | ] w1]; try exact Hf.
  specialize (IH w1).
  destruct (filterM f xs w1) as [[ys | e | ] w2]; simpl in *; congruence.
Qed.

End Frames.

(** [_filterMessage] changes nothing at all. *)
Lemma filterMessage_world (message : parsedMessage) (w : world) :
  snd (_filterMessage message w) = w.
Proof.
  unfold _filterMessage, bind, getApi.
  repeat match goal with
         | |- context [if ?b then _ else _] => destruct b
         end; reflexivity.
Qed.

Lemma setApiProperties_silent (props : options) (w : world) :
  w_trace (snd (_setApiPropertiesWithProps props w)) = w_trace w
  /\ w_file (snd (_setApiPropertiesWithProps props w)) = w_file w
  /\ fst (_setApiPropertiesWithProps props w) <> OutOfFuel.
Proof.
  unfold _setApiPropertiesWithProps, bind, modifyApi, ret, throw.
  destruct (Nat.ltb 0 _); [repeat split; discriminate | ].
  destruct (o_historyTypes props) as [types | ];
    destruct (o_addedLabelIds props) as [added | ];
    destruct (o_removedLabelIds props) as [removed | ];
    destruct (o_withLabelIds props) as [withIds | ];
    destruct (o_withoutLabelIds props) as [withoutIds | ];
    repeat match goal with
           | |- context [if ?b then _ else _] => destruct b
           end;
    repeat split; discriminate.
Qed.

Lemma initialize_config (gmail : gmailService) (n : option notification)
      (token : option string) (w : world) :
  config (snd (_initialize gmail n token w)) = config w.
Proof.
  destruct n as [[payload | e] | ]; [ | reflexivity | reflexivity].
  rewrite initialize_push. cbv zeta.
  destruct (w_file w) as [err | records];
    [destruct (Js.startsWith _ _); [ | reflexivity] | ];
    (destruct (users_watch gmail _ _); [reflexivity | ];
     destruct (find _ _); [ | reflexivity];
     destruct (jsLeq _ _); reflexivity).
Qed.

(** [_getHistory] only appends to the trace of requests. *)
Lemma getHistory_world (gmail : gmailService) (fuel : nat) :
  forall pageToken w,
  exists issued,
    snd (_getHistory gmail fuel pageToken w)
    = World (w_api w) (w_file w) (w_trace w ++ issued).
Proof.
  induction fuel as [ | fuel IH]; intros pageToken w.
  { exists []. rewrite app_nil_r. now destruct w. }
  cbn [_getHistory]. unfold bind at 1 2 3, getApi, issue. simpl.
  destruct (users_history_list gmail _ _ _) as [err | page];
    [eexists; reflexivity | ].
  simpl. destruct (Js.truthy (nextPageToken page)); [ | eexists; reflexivity].
  unfold bind.
  destruct (IH (nextPageToken page)
               (World (w_api w) (w_file w)
                  (w_trace w
                   ++ [HistoryList (api_emailAddress (w_api w))
                         (startHistoryId (w_api w))
                         (if Js.truthy pageToken
                          then pageToken else None)])))
    as [issued IH'].
  cbn [w_api w_file w_trace] in IH'. rewrite <- app_assoc in IH'.
  destruct (_getHistory gmail fuel (nextPageToken page) _) as [[r | e | ] w'];
    eexists; exact IH'.
Qed.

Lemma resolve_api (gmail : gmailService) (decodeBase64 : string -> string)
      (historyEntry : historyEntry) (id : string) (w : world) :
  w_api
    (snd ((message <- _getMessageFromId gmail id ;;
           liftE (_parseMessage decodeBase64 message historyEntry)) w))
  = w_api w.
Proof. now rewrite resolve_world. Qed.

(* ================================================================== *)
(** ** Further properties: the retrieval methods *)

(** X8. A retrieval call whose notification does not decode throws
    without issuing any request and without touching the history file;
    when the options pass validation, what it throws is the decoding
    error. *)
Theorem undecodable_notification_no_request
        (gmail : gmailService) (decodeBase64 : string -> string) (fuel : nat)
        (opts : options) (w : world) (e : jsError) :
  o_notification opts = Some (Garbled e) ->
  (exists err w',
      getMessagesWithoutAttachment gmail decodeBase64 fuel (Some opts) w
      = (Throw err, w')
      /\ getMessages gmail decodeBase64 fuel (Some opts) w = (Throw err, w')
      /\ w_trace w' = w_trace w
      /\ w_file w' = w_file w)
  /\ (forall w1,
        _getPropsFromOptions (Some opts) retrievalRules w = (Return opts, w) ->
        _setApiPropertiesWithProps opts w = (Return tt, w1) ->
        getMessagesWithoutAttachment gmail decodeBase64 fuel (Some opts) w
        = (Throw e, w1)).
Proof.
  intros Hn.
  assert (forall w1,
             _getPropsFromOptions (Some opts) retrievalRules w
             = (Return opts, w) ->
             _setApiPropertiesWithProps opts w = (Return tt, w1) ->
             getMessagesWithoutAttachment gmail decodeBase64 fuel (Some opts) w
             = (Throw e, w1)) as Valid.
  { intros w1 Ok Hset. unfold getMessagesWithoutAttachment, bind.
    rewrite Ok, Hset, Hn. reflexivity. }
  split; [ | exact Valid].
  assert (exists err w',
             getMessagesWithoutAttachment gmail decodeBase64 fuel (Some opts) w
             = (Throw err, w')
             /\ w_trace w' = w_trace w /\ w_file w' = w_file w)
    as (err & w' & E & Ht & Hf).
  { destruct (getPropsFromOptions_cases opts retrievalRules w)
      as [Ok | [err Ko]].
    - destruct (setApiProperties_silent opts w) as (Ht & Hf & Hfuel).
      destruct (_setApiPropertiesWithProps opts w) as [[[] | err | ] w1] eqn:Hset.
      + exists e, w1. rewrite (Valid w1 Ok eq_refl). auto.
      + exists err, w1. unfold getMessagesWithoutAttachment, bind.
        rewrite Ok, Hset. auto.
      + now contradiction Hfuel.
    - exists err, w. unfold getMessagesWithoutAttachment, bind.
      rewrite Ko. auto. }
  exists err, w'. split; [exact E | ].
  split; [unfold getMessages, bind; now rewrite E | auto].
Qed.

Lemma undecodable_notification_no_request_witness :
  getMessagesWithoutAttachment renewingService (fun data => data) 1
    (Some (Options (Some (Garbled (JsError "Unexpected token")))
                   (Some "token") None None None None None []))
    knownAccountWorld
  = (Throw (JsError "Unexpected token"),
     World (setHistoryTypes VALID_HISTORY_TYPES (w_api knownAccountWorld))
           (w_file knownAccountWorld) (w_trace knownAccountWorld)).
Proof.
  apply (proj2 (undecodable_notification_no_request renewingService
                  (fun data => data) 1
                  (Options (Some (Garbled (JsError "Unexpected token")))
                           (Some "token") None None None None None [])
                  knownAccountWorld (JsError "Unexpected token")
                  eq_refl));
    reflexivity.
Defined.

(** X9. A retrieval call on a stale notification (a counter less than or
    equal to the one the history file holds for the account) returns the
    empty list, with or without attachments, after exactly three requests:
    the read of the file, the lease renewal and the write of the file.
    It requests neither history nor messages. *)
Theorem stale_notification_returns_empty
        (gmail : gmailService) (decodeBase64 : string -> string) (fuel : nat)
        (opts : options) (payload : notificationPayload) (w w1 : world)
        (ph : prevHistory) (expiration : jsNumber) :
  _getPropsFromOptions (Some opts) retrievalRules w = (Return opts, w) ->
  _setApiPropertiesWithProps opts w = (Return tt, w1) ->
  o_notification opts = Some (Push payload) ->
  storedRecord w (np_emailAddress payload) = Some ph ->
  users_watch gmail (np_emailAddress payload) (pubsubTopic (w_api w))
  = inr expiration ->
  jsLeq (np_historyId payload) (prevHistoryId ph) = true ->
  exists w' written,
    getMessagesWithoutAttachment gmail decodeBase64 fuel (Some opts) w
    = (Return [], w')
    /\ getMessages gmail decodeBase64 fuel (Some opts) w = (Return [], w')
    /\ w_trace w'
       = w_trace w
         ++ [ReadFile (prevHistoryIdFilePath (w_api w));
             Watch (np_emailAddress payload) (pubsubTopic (w_api w));
             WriteFile (prevHistoryIdFilePath (w_api w)) written]
    /\ w_file w' = FileContent written
    /\ storedCounter w' (np_emailAddress payload) = Some (prevHistoryId ph).
Proof.
  unfold storedRecord. intros Ok Hset Hn Hph Hw Hle.
  destruct (w_file w) as [ferr | records] eqn:F; [discriminate | ].
  pose proof (recordOf_json_fixed _ _ _ Hph) as Fixed.
  pose proof Hph as Hfind. unfold recordOf in Hfind.
  pose proof (setApiProperties_effect_aux opts w w1 Hset) as E1.
  assert (E : getMessagesWithoutAttachment gmail decodeBase64 fuel
                (Some opts) w
              = (Return [],
                 snd (_initialize gmail (Some (Push payload)) (o_token opts)
                                  w1))).
  { unfold getMessagesWithoutAttachment, bind. rewrite Ok, Hset, Hn.
    rewrite initialize_push. cbv zeta. subst w1.
    cbn [w_api w_file w_trace pubsubTopic prevHistoryIdFilePath].
    now rewrite F, Hw, Hfind, Hle. }
  rewrite E. unfold getMessages, bind. rewrite E. cbn [mapM ret].
  rewrite initialize_push. cbv zeta. subst w1.
  cbn [w_api w_file w_trace pubsubTopic prevHistoryIdFilePath].
  rewrite F, Hw, Hfind, Hle. cbn [snd].
  do 2 eexists. split; [reflexivity | ]. split; [reflexivity | ].
  cbn [w_trace w_file]. rewrite <- !app_assoc. cbn [app].
  split; [reflexivity | ]. split; [reflexivity | ].
  unfold storedCounter, storedRecord. cbn [w_file].
  rewrite recordOf_json, recordOf_updateFound, String.eqb_refl, Hph
    by reflexivity.
  cbn. now rewrite <- Fixed at 2.
Qed.

Lemma stale_notification_returns_empty_witness :
  exists w' written,
    getMessagesWithoutAttachment renewingService (fun data => data) 1
      (retrieval "user1@gmail.com" 7) knownAccountWorld
    = (Return [], w')
    /\ getMessages renewingService (fun data => data) 1
         (retrieval "user1@gmail.com" 7) knownAccountWorld
       = (Return [], w')
    /\ w_trace w'
       = w_trace knownAccountWorld
         ++ [ReadFile (prevHistoryIdFilePath (w_api knownAccountWorld));
             Watch "user1@gmail.com" (pubsubTopic (w_api knownAccountWorld));
             WriteFile (prevHistoryIdFilePath (w_api knownAccountWorld))
                       written]
    /\ w_file w' = FileContent written
    /\ storedCounter w' "user1@gmail.com" = Some (Num 10).
Proof.
  apply (stale_notification_returns_empty renewingService (fun data => data)
           1
           (Options (pushFor "user1@gmail.com" 7) (Some "token")
                    None None None None None [])
           (NotificationPayload "user1@gmail.com" (Num 7)) knownAccountWorld
           (World (setHistoryTypes VALID_HISTORY_TYPES
                     (w_api knownAccountWorld))
                  (w_file knownAccountWorld) (w_trace knownAccountWorld))
           (PrevHistory "user1@gmail.com" (Num 10) (Num 5)) (Num 1000));
    reflexivity.
Defined.

(** X10. When the provider serves a chain of pages and there is fuel
    for each, [_getHistory] returns after issuing exactly one request
    per page, in order: the first with the page token of the call (none
    if it is missing or empty), each next one with the continuation
    token of the page before, all with the same user and lower bound.
    The instance and the history file are left as they were, and the
    list returned is that of the last page. *)
Theorem getHistory_requests (gmail : gmailService) (userId : string)
        (start : option jsNumber) (pageToken : option string)
        (pages : list historyPage) :
  servedPages gmail userId start pageToken pages ->
  forall fuel w,
    api_emailAddress (w_api w) = userId ->
    startHistoryId (w_api w) = start ->
    List.length pages <= fuel ->
    _getHistory gmail fuel pageToken w
    = (Return (orEmpty (history (last pages (HistoryPage None None)))),
       World (w_api w) (w_file w)
             (w_trace w ++ pageRequests userId start pageToken pages)).
Proof.
  induction 1 as [pageToken page Hl Ht | pageToken page pages Hl Ht Hs IH];
    intros fuel w Hu Hst Hf; subst userId start.
  - destruct fuel as [ | fuel]; [simpl in Hf; lia | ].
    rewrite (getHistory_step _ _ _ _ _ Hl). cbv zeta. now rewrite Ht.
  - destruct fuel as [ | fuel]; [simpl in Hf; lia | ].
    rewrite (getHistory_step _ _ _ _ _ Hl). cbv zeta. rewrite Ht.
    unfold bind. simpl in Hf.
    rewrite (IH fuel
                (World (w_api w) (w_file w)
                   (w_trace w
                    ++ [HistoryList (api_emailAddress (w_api w))
                          (startHistoryId (w_api w))
                          (if Js.truthy pageToken
                           then pageToken else None)]))
                eq_refl eq_refl ltac:(lia)).
    cbn [w_api w_file w_trace ret app pageRequests].
    rewrite <- app_assoc. cbn [app].
    destruct pages; [inversion Hs | reflexivity].
Qed.

Lemma getHistory_requests_witness :
  _getHistory twoPageService 2 None freshWorld
  = (Return [secondEntry],
     World (w_api freshWorld) (w_file freshWorld)
           [HistoryList "" None None; HistoryList "" None (Some "page2")]).
Proof.
  apply (getHistory_requests twoPageService "" None None
           [firstPage; secondPage]).
  - apply served_more; [reflexivity | reflexivity | ].
    apply served_last; reflexivity.
  - reflexivity.
  - reflexivity.
  - simpl. lia.
Defined.

(** A rejected page request rejects the fetch, whatever was fetched
    before. *)
Lemma getHistory_rejection (gmail : gmailService) (fuel : nat)
      (pageToken : option string) (w : world) (err : jsError) :
  users_history_list gmail (api_emailAddress (w_api w))
    (startHistoryId (w_api w))
    (if Js.truthy pageToken then pageToken else None) = inl err ->
  _getHistory gmail (S fuel) pageToken w
  = (Throw err,
     World (w_api w) (w_file w)
           (w_trace w
            ++ [HistoryList (api_emailAddress (w_api w))
                  (startHistoryId (w_api w))
                  (if Js.truthy pageToken then pageToken else None)])).
Proof.
  intros H. cbn [_getHistory]. unfold bind, getApi, issue. simpl.
  now rewrite H.
Qed.

(* ================================================================== *)
(** ** Further properties: the message parser *)

(** Induction on a payload, with the property at hand for every
    sub-part. *)
Lemma part_induction (P : part -> Prop) :
  (forall mimeType filename headers body parts,
      Forall P parts -> P (Part mimeType filename headers body parts)) ->
  forall payload, P payload.
Proof.
  intros H. fix IH 1. intros [mimeType filename headers body parts].
  apply H. induction parts as [ | x rest IHrest]; constructor;
    [apply IH | apply IHrest].
Qed.

Lemma lastOr_app {A : Type} (previous : option A) (l1 l2 : list A) :
  lastOr previous (l1 ++ l2) = lastOr (lastOr previous l1) l2.
Proof. unfold lastOr. apply fold_left_app. Qed.

(** Once a part has thrown, the parts after it are not parsed. *)
Lemma parseParts_error (decodeBase64 : string -> string)
      (parts : list part) (err : jsError) :
  fold_left
    (fun done p =>
       match done with
       | inl err => inl err
       | inr pm => _parsePayload decodeBase64 p pm
       end)
    parts (inl err)
  = inl err.
Proof. induction parts as [ | x rest IH]; [reflexivity | exact IH]. Qed.

(** What [_parsePayload] does to a message that already has an
    [attachments] array. When every text leaf has data, it overwrites
    each body with the last leaf of its type, appends the attachments in
    depth-first order and leaves everything else. When a text leaf has
    none, it throws the error of [Buffer.from]. *)
Lemma parsePayload_spec (decodeBase64 : string -> string) :
  forall payload parsed atts,
    attachments parsed = Some atts ->
    _parsePayload decodeBase64 payload parsed
    = if textLeavesHaveData payload
      then inr (ParsedMessage (pm_message parsed) (historyType parsed)
                  (from parsed) (to parsed) (cc parsed) (bcc parsed)
                  (subject parsed) (date parsed)
                  (lastOr (bodyHtml parsed)
                          (map decodeBase64 (leafBodies "text/html" payload)))
                  (lastOr (bodyText parsed)
                          (map decodeBase64
                               (leafBodies "text/plain" payload)))
                  (Some (atts ++ attachmentsOf payload)))
      else inl bufferError.
Proof.
  induction payload as [mimeType filename headers body parts IH]
    using part_induction.
  intros parsed atts Hatts.
  cbn [_parsePayload leafBodies attachmentsOf textLeavesHaveData].
  destruct (Js.startsWith mimeType "multipart/").
  - revert parsed atts Hatts.
    induction IH as [ | x rest Hx _ IHrest]; intros parsed atts Hatts.
    + destruct parsed. simpl in *. subst. now rewrite app_nil_r.
    + cbn [fold_left flat_map forallb]. rewrite (Hx parsed atts Hatts).
      destruct (textLeavesHaveData x); cbn [andb];
        [ | apply parseParts_error].
      erewrite IHrest by reflexivity.
      destruct (forallb textLeavesHaveData rest); [ | reflexivity].
      cbn [pm_message historyType from to cc bcc subject date bodyHtml
           bodyText attachments].
      now rewrite !map_app, !lastOr_app, app_assoc.
  - destruct (mimeType =? "text/html") eqn:Eh.
    + apply String.eqb_eq in Eh. subst mimeType. cbn [orb].
      destruct (b_data body) as [data | ]; [ | reflexivity].
      destruct parsed. simpl in *. subst. now rewrite app_nil_r.
    + destruct (mimeType =? "text/plain") eqn:Ep.
      * apply String.eqb_eq in Ep. subst mimeType. cbn [orb].
        destruct (b_data body) as [data | ]; [ | reflexivity].
        destruct parsed. simpl in *. subst. now rewrite app_nil_r.
      * cbn [orb].
        destruct (isAttachmentType mimeType);
          destruct parsed; simpl in *; subst;
          [reflexivity | now rewrite app_nil_r].
Qed.

(** X11. Parsing a message either returns or throws the error of
    [Buffer.from], and it throws only on a payload with a text leaf
    without data. The [historyType] of the parsed message is the name of
    the first of the four kinds, in the order added, deleted,
    label-added, label-removed, whose property the history entry has,
    and the empty string when it has none; the parsed message is built
    on the message it was given. *)
Theorem parseMessage_historyType (decodeBase64 : string -> string)
        (message : message) (e : historyEntry) :
  match _parseMessage decodeBase64 message e with
  | inr parsed =>
      historyType parsed
      = match firstKind e with
        | Some k => kindName k
        | None => ""
        end
      /\ pm_message parsed = message
  | inl err =>
      err = bufferError
      /\ exists payload,
           m_payload message = Some payload
           /\ textLeavesHaveData payload = false
  end.
Proof.
  unfold _parseMessage.
  destruct (m_payload message) as [payload | ].
  - erewrite parsePayload_spec by reflexivity.
    destruct (textLeavesHaveData payload) eqn:Hdata.
    + cbn [historyType pm_message]. split; [ | reflexivity].
      destruct e as [id msgs [a | ] [d | ] [la | ] [lr | ]]; reflexivity.
    + split; [reflexivity | ]. now exists payload.
  - cbn [historyType pm_message]. split; [ | reflexivity].
    destruct e as [id msgs [a | ] [d | ] [la | ] [lr | ]]; reflexivity.
Qed.

(** X12. The content of a parsed message. A message with a payload
    whose [text/plain] and [text/html] leaves all have data parses, and
    then: [attachments] lists the leaves of an attachment type
    ([image/], [audio/], [video/], [application/], [font/], [model/]) in
    depth-first order, without data; [bodyText] and [bodyHtml] are the
    decoded bodies of the last [text/plain] and [text/html] leaf, absent
    when there is none; [from], [to], [cc], [bcc], [subject] and [date]
    come from the first header of that exact name and are absent when
    there is none. A message with a payload in which a text leaf has no
    data does not parse: the error of [Buffer.from] is thrown. A
    message without a payload (deleted, or not found) parses, none of
    these is set and [attachments] is what the message carried. *)
Theorem parseMessage_content (decodeBase64 : string -> string)
        (message : message) (e : historyEntry) :
  match m_payload message with
  | Some payload =>
      if textLeavesHaveData payload
      then
        exists parsed,
          _parseMessage decodeBase64 message e = inr parsed
          /\ attachments parsed = Some (attachmentsOf payload)
          /\ bodyText parsed
             = lastOr None
                      (map decodeBase64 (leafBodies "text/plain" payload))
          /\ bodyHtml parsed
             = lastOr None
                      (map decodeBase64 (leafBodies "text/html" payload))
          /\ from parsed
             = option_map _parseEmailAddressHeader
                          (headerValue "From" payload)
          /\ to parsed = addressList (headerValue "To" payload)
          /\ cc parsed = addressList (headerValue "Cc" payload)
          /\ bcc parsed = addressList (headerValue "Bcc" payload)
          /\ subject parsed = headerValue "Subject" payload
          /\ date parsed = headerValue "Date" payload
      else _parseMessage decodeBase64 message e = inl bufferError
  | None =>
      exists parsed,
        _parseMessage decodeBase64 message e = inr parsed
        /\ attachments parsed = m_attachments message
        /\ bodyText parsed = None
        /\ bodyHtml parsed = None
        /\ from parsed = None
        /\ to parsed = None
        /\ cc parsed = None
        /\ bcc parsed = None
        /\ subject parsed = None
        /\ date parsed = None
  end.
Proof.
  unfold _parseMessage.
  destruct (m_payload message) as [payload | ].
  - erewrite parsePayload_spec by reflexivity.
    destruct (textLeavesHaveData payload); [ | reflexivity].
    eexists. split; [reflexivity | ]. repeat split.
  - eexists. split; [reflexivity | ]. repeat split.
Qed.

(** The stub of a message that was not found parses to itself, with the
    history type of the entry. *)
Lemma parseMessage_stub_example :
  _parseMessage (fun data => data) (notFoundMessage "m1") firstEntry
  = inr parsedStub.
Proof. reflexivity. Qed.

(** The sample message parses; a message whose [text/plain] leaf has an
    attachment id in place of data does not. *)
Lemma parseMessage_example :
  _parseMessage (fun data => data) sampleMessage firstEntry
  = inr (ParsedMessage sampleMessage "messageAdded"
           (Some (ParsedEmail "user" "user@example.com"))
           (Some [ParsedEmail "user1" "user1@gmail.com";
                  ParsedEmail "user2@gmail.com" "user2@gmail.com"])
           None None (Some "this is subject") None
           (Some "<div>this is body</div>") (Some "this is body")
           (Some [Attachment "image/jpeg" "example.jpg" (Some "att1") 2
                             None]))
  /\ _parseMessage (fun data => data) textAttachedMessage firstEntry
     = inl bufferError.
Proof. split; reflexivity. Qed.

(** A retrieval that meets such a message throws that error. *)
Lemma retrieval_of_text_leaf_without_data :
  fst (getMessagesWithoutAttachment textAttachedService (fun data => data) 1
         (retrieval "user1@gmail.com" 20) knownAccountWorld)
  = Throw bufferError.
Proof. reflexivity. Qed.

(** Strings and lists of characters. *)
Lemma append_nil_r (s : string) : (s ++ "")%string = s.
Proof. induction s as [ | c s IH]; simpl; [ | rewrite IH]; reflexivity. Qed.

Lemma append_assoc (s1 s2 s3 : string) :
  ((s1 ++ s2) ++ s3)%string = (s1 ++ (s2 ++ s3))%string.
Proof. induction s1 as [ | c s1 IH]; simpl; [ | rewrite IH]; reflexivity. Qed.

Lemma string_of_list_ascii_app (l1 l2 : list ascii) :
  string_of_list_ascii (l1 ++ l2)
  = (string_of_list_ascii l1 ++ string_of_list_ascii l2)%string.
Proof. induction l1 as [ | c l1 IH]; simpl; [ | rewrite IH]; reflexivity. Qed.

Lemma segment_snoc (cur : list ascii) (c : ascii) :
  string_of_list_ascii (rev (c :: cur))
  = (string_of_list_ascii (rev cur) ++ String c "")%string.
Proof. simpl. now rewrite string_of_list_ascii_app. Qed.

Lemma splitCommaSpaceAux_cons (cur : list ascii) (s : string) :
  exists x rest, Js.splitCommaSpaceAux cur s = x :: rest.
Proof.
  destruct s as [ | c [ | d rest']]; simpl; try (eexists; eexists; reflexivity).
  destruct (Ascii.eqb c "," && Ascii.eqb d " ")%bool;
    [eexists; eexists; reflexivity | ].
  destruct rest' as [ | d' rest'']; simpl;
    try (eexists; eexists; reflexivity).
  destruct (Ascii.eqb d "," && Ascii.eqb d' " ")%bool;
    [eexists; eexists; reflexivity | ].
  clear. revert c d d' cur.
  induction rest'' as [ | x r IH]; intros c d d' cur; simpl;
    [eexists; eexists; reflexivity | ].
  destruct (Ascii.eqb d' "," && Ascii.eqb x " ")%bool;
    [eexists; eexists; reflexivity | ].
  apply (IH d d' x (c :: cur)).
Qed.

Lemma joinCommaSpace_cons (x : string) (cur : list ascii) (s : string) :
  Js.joinCommaSpace (x :: Js.splitCommaSpaceAux cur s)
  = (x ++ ", " ++ Js.joinCommaSpace (Js.splitCommaSpaceAux cur s))%string.
Proof.
  destruct (splitCommaSpaceAux_cons cur s) as (y & rest & ->). reflexivity.
Qed.

Lemma splitCommaSpaceAux_step (cur : list ascii) (c d : ascii)
      (rest : string) :
  Js.splitCommaSpaceAux cur (String c (String d rest))
  = if (Ascii.eqb c "," && Ascii.eqb d " ")%bool
    then string_of_list_ascii (rev cur) :: Js.splitCommaSpaceAux [] rest
    else Js.splitCommaSpaceAux (c :: cur) (String d rest).
Proof. reflexivity. Qed.

Lemma splitCommaSpaceAux_join :
  forall n s cur,
    String.length s <= n ->
    Js.joinCommaSpace (Js.splitCommaSpaceAux cur s)
    = (string_of_list_ascii (rev cur) ++ s)%string.
Proof.
  induction n as [ | n IH]; intros s cur Hlen.
  - destruct s; [ | simpl in Hlen; lia]. simpl. now rewrite append_nil_r.
  - destruct s as [ | c [ | d rest']].
    + simpl. now rewrite append_nil_r.
    + cbn [Js.splitCommaSpaceAux Js.joinCommaSpace]. apply segment_snoc.
    + rewrite splitCommaSpaceAux_step.
      destruct (Ascii.eqb c "," && Ascii.eqb d " ")%bool eqn:E.
      * apply andb_prop in E as [Ec Ed].
        apply Ascii.eqb_eq in Ec, Ed. subst c d.
        rewrite joinCommaSpace_cons, IH by (simpl in *; lia).
        reflexivity.
      * rewrite IH by (simpl in *; lia).
        rewrite segment_snoc, append_assoc. reflexivity.
Qed.

Lemma containsCommaSpace_cons (c d : ascii) (rest : string) :
  containsCommaSpace (String c (String d rest))
  = ((Ascii.eqb c "," && Ascii.eqb d " ")
     || containsCommaSpace (String d rest))%bool.
Proof. reflexivity. Qed.

Lemma containsCommaSpace_prefix (x y : string) :
  containsCommaSpace (x ++ y) = false -> containsCommaSpace x = false.
Proof.
  induction x as [ | c x IH]; [reflexivity | ].
  destruct x as [ | d x']; [reflexivity | ].
  change ((String c (String d x') ++ y)%string)
    with (String c (String d (x' ++ y)%string)).
  rewrite !containsCommaSpace_cons. intros H.
  apply orb_false_iff in H as [H1 H2]. rewrite H1. simpl.
  apply IH. exact H2.
Qed.

Lemma containsCommaSpace_snoc (x : string) (c d : ascii) :
  containsCommaSpace (x ++ String c (String d ""))
  = (containsCommaSpace (x ++ String c "")
     || (Ascii.eqb c "," && Ascii.eqb d " "))%bool.
Proof.
  induction x as [ | a x IH].
  - simpl. now rewrite orb_false_r.
  - destruct x as [ | b x'].
    + change (containsCommaSpace (String a (String c (String d ""))))
        with ((Ascii.eqb a "," && Ascii.eqb c " ")
              || containsCommaSpace (String c (String d "")))%bool.
      change (containsCommaSpace (String a (String c "")))
        with ((Ascii.eqb a "," && Ascii.eqb c " ") || false)%bool.
      simpl. now rewrite !orb_false_r.
    + change ((String a (String b x') ++ String c (String d ""))%string)
        with (String a (String b (x' ++ String c (String d ""))%string)).
      change ((String a (String b x') ++ String c "")%string)
        with (String a (String b (x' ++ String c "")%string)).
      rewrite !containsCommaSpace_cons.
      change (String b (x' ++ String c (String d ""))%string)
        with ((String b x' ++ String c (String d ""))%string).
      rewrite IH. now rewrite orb_assoc.
Qed.

Lemma splitCommaSpaceAux_segments :
  forall n s cur,
    String.length s <= n ->
    containsCommaSpace (string_of_list_ascii (rev cur) ++ firstChar s) = false ->
    Forall (fun segment => containsCommaSpace segment = false)
           (Js.splitCommaSpaceAux cur s).
Proof.
  induction n as [ | n IH]; intros s cur Hlen Hcur.
  - destruct s; [ | simpl in Hlen; lia]. simpl in *.
    rewrite append_nil_r in Hcur. now constructor.
  - destruct s as [ | c [ | d rest']].
    + simpl in *. rewrite append_nil_r in Hcur. now constructor.
    + cbn [Js.splitCommaSpaceAux]. rewrite segment_snoc. now constructor.
    + rewrite splitCommaSpaceAux_step.
      destruct (Ascii.eqb c "," && Ascii.eqb d " ")%bool eqn:E.
      * constructor.
        -- exact (containsCommaSpace_prefix _ _ Hcur).
        -- apply IH; [simpl in *; lia | ]. now destruct rest'.
      * apply IH; [simpl in *; lia | ].
        rewrite segment_snoc, append_assoc. cbn [firstChar append].
        rewrite containsCommaSpace_snoc. cbn [firstChar] in Hcur.
        now rewrite Hcur, E.
Qed.

(** X13. A [To], [Cc] or [Bcc] header value is cut at every occurrence
    of a comma followed by a space: the list of parsed addresses has one
    element per segment, in order; no segment holds the separator;
    joining the segments with the separator gives back the header
    value; and the list is never empty (a header without separator
    yields one address). *)
Theorem recipients_segments (value : string) :
  addressList (Some value)
  = Some (map _parseEmailAddressHeader (Js.splitCommaSpace value))
  /\ Js.joinCommaSpace (Js.splitCommaSpace value) = value
  /\ Forall (fun segment => containsCommaSpace segment = false)
            (Js.splitCommaSpace value)
  /\ Js.splitCommaSpace value <> [].
Proof.
  unfold Js.splitCommaSpace. split; [reflexivity | ]. split; [ | split].
  - now rewrite (splitCommaSpaceAux_join (String.length value)).
  - apply (splitCommaSpaceAux_segments (String.length value));
      [lia | now destruct value].
  - destruct (splitCommaSpaceAux_cons [] value) as (x & rest & ->).
    discriminate.
Qed.

(* ================================================================== *)
(** ** Further properties: attachments and the new-message method *)

(** Fetching the data of the attachments of one message: one request
    for each, in order, each answered with data. *)
Lemma fetchAll_spec (gmail : gmailService) (decodeBase64 : string -> string)
      (p : parsedMessage) :
  forall atts w0 fetched w1,
    mapM (fun att =>
            data <- getAttachment gmail decodeBase64 p att ;;
            ret (withData data att))
         atts w0
    = (Return fetched, w1) ->
    Forall2
      (fun a a' =>
         exists data,
           users_messages_attachments_get gmail (a_attachmentId a)
             (m_id (pm_message p)) (api_emailAddress (w_api w0))
           = inr (Some data)
           /\ a' = withData (decodeBase64 data) a)
      atts fetched
    /\ w1 = World (w_api w0) (w_file w0)
              (w_trace w0
               ++ map (fun a =>
                         AttachmentsGet (a_attachmentId a)
                                        (m_id (pm_message p))
                                        (api_emailAddress (w_api w0)))
                      atts).
Proof.
  induction atts as [ | a atts IH]; intros w0 fetched w1 H.
  - inversion H; subst. split; [constructor | ].
    cbn [map]. rewrite app_nil_r. now destruct w1.
  - cbn [mapM] in H. unfold bind at 1 in H.
    unfold bind at 1, getAttachment, bind, getApi, issue, liftE in H.
    cbn [w_api w_file w_trace] in H.
    destruct (users_messages_attachments_get gmail (a_attachmentId a)
                (m_id (pm_message p)) (api_emailAddress (w_api w0)))
      as [err | [data | ]] eqn:Ea; try discriminate H.
    unfold ret at 1 2 3 in H. cbn beta iota in H.
    match type of H with
    | context [mapM ?f atts ?w] =>
        destruct (mapM f atts w) as [[rest | e | ] w2] eqn:E;
        try discriminate H
    end.
    inversion H; subst. clear H.
    destruct (IH _ _ _ E) as [F ->]. cbn [w_api w_file w_trace] in *.
    split; [constructor; [now exists data | exact F] | ].
    cbn [map]. now rewrite <- app_assoc.
Qed.

Lemma attachAll_spec (gmail : gmailService)
      (decodeBase64 : string -> string) (p m : parsedMessage)
      (w0 w1 : world) :
  attachAll gmail decodeBase64 p w0 = (Return m, w1) ->
  attached gmail decodeBase64 (api_emailAddress (w_api w0)) p m
  /\ w1 = World (w_api w0) (w_file w0)
            (w_trace w0
             ++ attachmentRequests (api_emailAddress (w_api w0)) p).
Proof.
  unfold attachAll, attachmentRequests.
  destruct (attachments p) as [atts | ] eqn:Ea; [ | discriminate].
  unfold bind at 1.
  destruct (mapM _ atts w0) as [[fetched | e | ] w2] eqn:E; try discriminate.
  intros [= <- <-]. destruct (fetchAll_spec _ _ _ _ _ _ _ E) as [F ->].
  split; [ | reflexivity].
  exists atts, fetched. auto.
Qed.

Lemma attachEach_spec (gmail : gmailService)
      (decodeBase64 : string -> string) :
  forall plain w1 messages w',
    mapM (attachAll gmail decodeBase64) plain w1 = (Return messages, w') ->
    Forall2 (attached gmail decodeBase64 (api_emailAddress (w_api w1)))
            plain messages
    /\ w' = World (w_api w1) (w_file w1)
              (w_trace w1
               ++ flat_map (attachmentRequests (api_emailAddress (w_api w1)))
                           plain).
Proof.
  induction plain as [ | p plain IH]; intros w1 messages w' H.
  - inversion H; subst. split; [constructor | ].
    cbn [flat_map]. rewrite app_nil_r. now destruct w'.
  - cbn [mapM] in H. unfold bind in H.
    destruct (attachAll gmail decodeBase64 p w1) as [[m | e | ] w2] eqn:E1;
      try discriminate H.
    destruct (mapM (attachAll gmail decodeBase64) plain w2)
      as [[ms | e | ] w3] eqn:E2; try discriminate H.
    inversion H; subst. clear H.
    destruct (attachAll_spec _ _ _ _ _ _ E1) as [A ->].
    destruct (IH _ _ _ E2) as [F ->]. cbn [w_api w_file w_trace] in *.
    split; [constructor; assumption | ].
    cbn [flat_map]. now rewrite <- app_assoc.
Qed.

(** X14. When [getMessages] returns, its messages are those
    [getMessagesWithoutAttachment] returns for the same call, in the
    same order, each with its [attachments] replaced by the same
    attachments, each carrying as its data the decoded answer of the
    provider to the request for that attachment of that message; nothing
    else of a message differs. After the requests of
    [getMessagesWithoutAttachment] the call has issued exactly one
    request per attachment, message by message and in the order of the
    attachments, and it has changed neither the instance nor the
    history file. *)
Theorem getMessages_attaches_data
        (gmail : gmailService) (decodeBase64 : string -> string) (fuel : nat)
        (opts : option options) (w w' : world)
        (messages : list parsedMessage) :
  getMessages gmail decodeBase64 fuel opts w = (Return messages, w') ->
  exists plain w1,
    getMessagesWithoutAttachment gmail decodeBase64 fuel opts w
    = (Return plain, w1)
    /\ Forall2 (attached gmail decodeBase64 (api_emailAddress (w_api w1)))
               plain messages
    /\ Forall (fun m =>
                 exists fetched,
                   attachments m = Some fetched
                   /\ Forall (fun a => a_data a <> None) fetched)
              messages
    /\ w' = World (w_api w1) (w_file w1)
              (w_trace w1
               ++ flat_map (attachmentRequests (api_emailAddress (w_api w1)))
                           plain).
Proof.
  unfold getMessages. unfold bind at 1.
  destruct (getMessagesWithoutAttachment gmail decodeBase64 fuel opts w)
    as [[plain | e | ] w1]; try discriminate.
  intros H. exists plain, w1. split; [reflexivity | ].
  destruct (attachEach_spec _ _ _ _ _ _ H) as [A ->].
  split; [exact A | split; [ | reflexivity]].
  clear H. induction A as [ | p m ps ms Hpm _ IH]; constructor; [ | exact IH].
  destruct Hpm as (atts & fetched & _ & -> & F).
  exists fetched. split; [reflexivity | ].
  clear - F. induction F as [ | a a' l l' (data & _ & ->) _ IH]; constructor;
    [discriminate | exact IH].
Qed.

Lemma getMessages_attaches_data_witness :
  exists messages w',
    getMessages mailboxService (fun data => data) 1
                (retrieval "user1@gmail.com" 20) knownAccountWorld
    = (Return messages, w')
    /\ exists plain w1,
         getMessagesWithoutAttachment mailboxService (fun data => data) 1
           (retrieval "user1@gmail.com" 20) knownAccountWorld
         = (Return plain, w1)
         /\ Forall2 (attached mailboxService (fun data => data)
                              (api_emailAddress (w_api w1)))
                    plain messages
         /\ Forall (fun m =>
                      exists fetched,
                        attachments m = Some fetched
                        /\ Forall (fun a => a_data a <> None) fetched)
                   messages
         /\ w' = World (w_api w1) (w_file w1)
                   (w_trace w1
                    ++ flat_map (attachmentRequests
                                   (api_emailAddress (w_api w1)))
                                plain).
Proof.
  destruct (getMessages mailboxService (fun data => data) 1
              (retrieval "user1@gmail.com" 20) knownAccountWorld)
    as [[messages | e | ] w'] eqn:E;
    [ | vm_compute in E; discriminate E | vm_compute in E; discriminate E].
  exists messages, w'. split; [reflexivity | ].
  exact (getMessages_attaches_data _ _ _ _ _ _ _ E).
Defined.

(** What that call returns, and what it requests. *)
Lemma getMessages_example :
  w_trace (snd (getMessages mailboxService (fun data => data) 1
                  (retrieval "user1@gmail.com" 20) knownAccountWorld))
  = [ReadFile DEFAULT_HISTORY_ID_FILE_PATH;
     Watch "user1@gmail.com" "topic";
     WriteFile DEFAULT_HISTORY_ID_FILE_PATH
               [PrevHistory "user1@gmail.com" (Num 20) (Num 1000)];
     HistoryList "user1@gmail.com" (Some (Num 10)) None;
     MessagesGet "m1" "user1@gmail.com";
     AttachmentsGet (Some "att1") "m1" "user1@gmail.com"]
  /\ fst (getMessages mailboxService (fun data => data) 1
            (retrieval "user1@gmail.com" 20) knownAccountWorld)
     = Return
      [ParsedMessage sampleMessage "messageAdded"
         (Some (ParsedEmail "user" "user@example.com"))
         (Some [ParsedEmail "user1" "user1@gmail.com";
                ParsedEmail "user2@gmail.com" "user2@gmail.com"])
         None None (Some "this is subject") None
         (Some "<div>this is body</div>") (Some "this is body")
         (Some [Attachment "image/jpeg" "example.jpg" (Some "att1") 2
                           (Some "ffff")])].
Proof. split; reflexivity. Qed.

(** Fetching attachments changes neither the instance nor the file. *)
Lemma attachAll_api (gmail : gmailService) (decodeBase64 : string -> string)
      (p : parsedMessage) (w : world) :
  w_api (snd (attachAll gmail decodeBase64 p w)) = w_api w.
Proof.
  unfold attachAll. destruct (attachments p) as [atts | ]; [ | reflexivity].
  unfold bind at 1.
  pose proof (mapM_frame w_api
                (fun att =>
                   data <- getAttachment gmail decodeBase64 p att ;;
                   ret (withData data att))) as F.
  match type of F with
  | ?hyp -> _ => assert hyp as Hf
  end.
  { intros att w0. unfold getAttachment, bind, getApi, issue, liftE. simpl.
    destruct (users_messages_attachments_get gmail (a_attachmentId att)
                (m_id (pm_message p)) (api_emailAddress (w_api w0)))
      as [err | [data | ]]; reflexivity. }
  specialize (F Hf atts w).
  destruct (mapM _ atts w) as [[fetched | e | ] w1]; exact F.
Qed.

(** After a retrieval call whose options pass both validations, the
    instance is configured as [_setApiPropertiesWithProps] left it,
    however the call ends. *)
Lemma retrieval_config (gmail : gmailService)
      (decodeBase64 : string -> string) (fuel : nat) (opts : options)
      (w w1 : world) :
  _getPropsFromOptions (Some opts) retrievalRules w = (Return opts, w) ->
  _setApiPropertiesWithProps opts w = (Return tt, w1) ->
  config (snd (getMessagesWithoutAttachment gmail decodeBase64 fuel
                 (Some opts) w))
  = config w1.
Proof.
  intros Ok Hset. unfold getMessagesWithoutAttachment.
  unfold bind at 1. rewrite Ok. unfold bind at 1. rewrite Hset.
  unfold bind at 1.
  pose proof (initialize_config gmail (o_notification opts) (o_token opts) w1)
    as E2.
  destruct (_initialize gmail (o_notification opts) (o_token opts) w1)
    as [[[ | ] | e | ] w2]; try exact E2.
  unfold bind at 1.
  destruct (getHistory_world gmail fuel None w2) as [issued E3].
  destruct (_getHistory gmail fuel None w2) as [[fetched | e | ] w3];
    cbn [snd] in E2, E3; subst w3; try exact E2.
  unfold bind at 1, getApi. cbn [w_api].
  destruct (Nat.ltb 0 (List.length (_filterHistory (w_api w2) fetched)));
    [ | exact E2].
  unfold bind at 1.
  match goal with
  | |- context [mapM ?f ?xs ?w0] =>
      pose proof (mapM_frame w_api f
                    (fun e => mapM_frame w_api _
                                (resolve_api gmail decodeBase64 e)
                                (he_messages e))
                    xs w0) as E4;
      destruct (mapM f xs w0) as [[resolved | e | ] w4]
  end; cbn [snd w_api] in E4;
    try (unfold config in *; cbn [snd]; now rewrite E4).
  pose proof (filterM_frame (fun w => w) _filterMessage filterMessage_world
                            (fold_left (fun messages message =>
                                          messages ++ message)
                                       resolved []) w4) as E5.
  rewrite E5. unfold config in *. now rewrite E4.
Qed.

(** X15. [getNewMessage] accepts the keys [notification] and [token]
    only: options with any other key, such as [historyTypes] or
    [withLabelIds], make it throw without issuing a request and without
    changing anything. *)
Theorem getNewMessage_rejects_other_keys
        (gmail : gmailService) (decodeBase64 : string -> string) (fuel : nat)
        (opts : options) (w : world) (key : string) :
  In key (keys opts) ->
  key <> "notification" -> key <> "token" ->
  exists err,
    getNewMessage gmail decodeBase64 fuel (Some opts) w = (Throw err, w).
Proof.
  intros Hin Hn Ht. unfold getNewMessage. unfold bind at 1.
  destruct (getPropsFromOptions_cases opts newMessageRules w)
    as [Ok | [err Ko]].
  - exfalso. apply getPropsFromOptions_accepts in Ok as [Hall _].
    specialize (Hall key Hin). simpl in Hall. intuition congruence.
  - rewrite Ko. now exists err.
Qed.

Lemma getNewMessage_rejects_other_keys_witness :
  exists err,
    getNewMessage renewingService (fun data => data) 1
      (Some labelAddedRetrieval) knownAccountWorld
    = (Throw err, knownAccountWorld).
Proof.
  apply (getNewMessage_rejects_other_keys renewingService (fun data => data)
           1 labelAddedRetrieval knownAccountWorld "historyTypes").
  - simpl. tauto.
  - discriminate.
  - discriminate.
Defined.

(** X16. A call of [getNewMessage] whose options are accepted leaves
    the instance, however the call ends, configured with the history
    type [messageAdded], the include set [INBOX] and the exclude set
    [SENT]; the added- and removed-label-id filters keep the values they
    had. *)
Theorem getNewMessage_pins_configuration
        (gmail : gmailService) (decodeBase64 : string -> string) (fuel : nat)
        (opts : options) (w : world) :
  _getPropsFromOptions (Some opts) newMessageRules w = (Return opts, w) ->
  config (snd (getNewMessage gmail decodeBase64 fuel (Some opts) w))
  = (["messageAdded"], addedLabelIds (w_api w), removedLabelIds (w_api w),
     Some ["INBOX"], Some ["SENT"]).
Proof.
  intros Ok. unfold getNewMessage. unfold bind at 1. rewrite Ok.
  apply getPropsFromOptions_accepts in Ok as [Hall Hreq].
  assert (Hnone : o_historyTypes opts = None /\ o_addedLabelIds opts = None
                  /\ o_removedLabelIds opts = None
                  /\ o_withLabelIds opts = None
                  /\ o_withoutLabelIds opts = None).
  { repeat split.
    - destruct (o_historyTypes opts) eqn:E; [ | reflexivity].
      specialize (Hall "historyTypes"). unfold keys in Hall. rewrite E in Hall.
      cbn [isSome] in Hall. rewrite !in_app_iff in Hall. simpl in Hall.
      intuition discriminate.
    - destruct (o_addedLabelIds opts) eqn:E; [ | reflexivity].
      specialize (Hall "addedLabelIds"). unfold keys in Hall.
      rewrite E in Hall.
      cbn [isSome] in Hall. rewrite !in_app_iff in Hall. simpl in Hall.
      intuition discriminate.
    - destruct (o_removedLabelIds opts) eqn:E; [ | reflexivity].
      specialize (Hall "removedLabelIds"). unfold keys in Hall.
      rewrite E in Hall.
      cbn [isSome] in Hall. rewrite !in_app_iff in Hall. simpl in Hall.
      intuition discriminate.
    - destruct (o_withLabelIds opts) eqn:E; [ | reflexivity].
      specialize (Hall "withLabelIds"). unfold keys in Hall.
      rewrite E in Hall.
      cbn [isSome] in Hall. rewrite !in_app_iff in Hall. simpl in Hall.
      intuition discriminate.
    - destruct (o_withoutLabelIds opts) eqn:E; [ | reflexivity].
      specialize (Hall "withoutLabelIds"). unfold keys in Hall.
      rewrite E in Hall.
      cbn [isSome] in Hall. rewrite !in_app_iff in Hall. simpl in Hall.
      intuition discriminate. }
  destruct Hnone as (Hh & Ha & Hr & Hw & Hwo).
  rewrite Ha, Hr.
  set (props := Options (o_notification opts) (o_token opts)
                        (Some ["messageAdded"]) None None (Some ["INBOX"])
                        (Some ["SENT"]) (o_otherKeys opts)).
  assert (Ok' : _getPropsFromOptions (Some props) retrievalRules w
                = (Return props, w)).
  { apply getPropsFromOptions_accepts. split.
    - intros key Hin. unfold keys, props in Hin.
      cbn [o_notification o_token o_historyTypes o_addedLabelIds
           o_removedLabelIds o_withLabelIds o_withoutLabelIds o_otherKeys
           isSome] in Hin.
      rewrite !in_app_iff in Hin.
      assert (In key (keys opts) -> In key (required retrievalRules
                                            ++ orEmpty (optional retrievalRules)))
        as Lift.
      { intros K. specialize (Hall key K). simpl in Hall. simpl. tauto. }
      destruct Hin as [K | [K | [K | [K | [K | [K | [K | K]]]]]]].
      + apply Lift. unfold keys. rewrite !in_app_iff. auto.
      + apply Lift. unfold keys. rewrite !in_app_iff. auto.
      + simpl in K. simpl. tauto.
      + destruct K.
      + destruct K.
      + simpl in K. simpl. tauto.
      + simpl in K. simpl. tauto.
      + apply Lift. unfold keys. rewrite !in_app_iff. auto 10.
    - intros key Hin. specialize (Hreq key Hin).
      unfold keys in *. rewrite Hh, Ha, Hr, Hw, Hwo in Hreq.
      cbn [isSome app] in Hreq. unfold props.
      cbn [o_notification o_token o_historyTypes o_addedLabelIds
           o_removedLabelIds o_withLabelIds o_withoutLabelIds o_otherKeys
           isSome].
      rewrite !in_app_iff in *. simpl. tauto. }
  pose proof (retrieval_config gmail decodeBase64 fuel props w
                (World (setWithoutLabelIds (Some ["SENT"])
                          (setWithLabelIds (Some ["INBOX"])
                             (setHistoryTypes ["messageAdded"] (w_api w))))
                       (w_file w) (w_trace w))
                Ok' eq_refl) as C.
  unfold bind.
  destruct (getMessagesWithoutAttachment gmail decodeBase64 fuel (Some props) w)
    as [[[ | message rest] | e | ] w2]; cbn [snd] in C |- *;
    try exact C.
  pose proof (attachAll_api gmail decodeBase64 message w2) as A.
  destruct (attachAll gmail decodeBase64 message w2) as [[m | e | ] w3];
    cbn [snd] in A; unfold ret, config in *; cbn [snd]; rewrite A; exact C.
Qed.

Lemma getNewMessage_pins_configuration_witness :
  config (snd (getNewMessage mailboxService (fun data => data) 1
                 (retrieval "user1@gmail.com" 20) knownAccountWorld))
  = (["messageAdded"], None, None, Some ["INBOX"], Some ["SENT"]).
Proof.
  apply (getNewMessage_pins_configuration mailboxService (fun data => data) 1
           (Options (pushFor "user1@gmail.com" 20) (Some "token")
                    None None None None None [])
           knownAccountWorld).
  reflexivity.
Defined.

(* ================================================================== *)
(** ** Further properties: the history filter and the fetch *)

Lemma filter_all {A : Type} (f : A -> bool) (l : list A) :
  (forall x, In x l -> f x = true) -> filter f l = l.
Proof.
  induction l as [ | x l IH]; intros H; simpl; [reflexivity | ].
  rewrite (H x (or_introl eq_refl)), IH; [reflexivity | ].
  intros y Hy. apply H. now right.
Qed.

(** X17. For history types among the four valid ones: every entry
    [_filterHistory] returns is an entry of the history it was given
    and has the property of a requested kind, so an entry with none of
    the four change properties is never returned; and when neither an
    added- nor a removed-label-id filter is configured, the label-delta
    pass changes nothing. *)
Theorem filterHistory_returns_requested_changes
        (a : api) (kinds : list kind) (history : list historyEntry) :
  historyTypes a = map kindName kinds ->
  (forall e,
      In e (_filterHistory a history) ->
      In e history /\ exists k, In k kinds /\ carries k e = true)
  /\ (forall e,
        (forall k, carries k e = false) -> ~ In e (_filterHistory a history))
  /\ (addedLabelIds a = None -> removedLabelIds a = None ->
      _filterHistory a history = filteredWithHistoryTypes a history).
Proof.
  intros H.
  assert (G : forall e,
             In e (_filterHistory a history) ->
             In e history /\ exists k, In k kinds /\ carries k e = true).
  { intros e He. unfold _filterHistory in He. rewrite app_nil_l in He.
    apply filter_In in He as [He _].
    unfold filteredWithHistoryTypes in He.
    rewrite H, kind_loop, app_nil_l in He.
    apply in_flat_map in He as (k & Hk & He).
    apply filter_In in He as [He Hc]. eauto. }
  split; [exact G | split].
  - intros e Hnone He. destruct (G e He) as (_ & k & _ & Hc).
    rewrite Hnone in Hc. discriminate.
  - intros Ha Hr. unfold _filterHistory. rewrite app_nil_l.
    apply filter_all. intros e _.
    unfold passesAddedRemovedLabelIds. now rewrite Ha, Hr.
Qed.

Lemma filterHistory_returns_requested_changes_witness :
  _filterHistory (apiWithTypes ["labelAdded"; "messageAdded"] None)
                 [entryWith "1" (Some ["1"]) None;
                  entryWith "2" None None]
  = filteredWithHistoryTypes
      (apiWithTypes ["labelAdded"; "messageAdded"] None)
      [entryWith "1" (Some ["1"]) None; entryWith "2" None None].
Proof.
  refine (proj2 (proj2 (filterHistory_returns_requested_changes
                          (apiWithTypes ["labelAdded"; "messageAdded"] None)
                          [LabelAdded; Added] _ _)) _ _);
    reflexivity.
Defined.

Lemma grows_refl (w : world) : grows w w.
Proof. exists []. now rewrite app_nil_r. Qed.

Lemma grows_trans (w1 w2 w3 : world) :
  grows w1 w2 -> grows w2 w3 -> grows w1 w3.
Proof.
  intros [l1 H1] [l2 H2]. exists (l1 ++ l2). now rewrite H2, H1, app_assoc.
Qed.

Lemma mapM_grows {A B : Type} (f : A -> M B) :
  (forall x w, grows w (snd (f x w))) ->
  forall xs w, grows w (snd (mapM f xs w)).
Proof.
  intros Hf. induction xs as [ | x xs IH]; intros w; [apply grows_refl | ].
  cbn [mapM]. unfold bind. specialize (Hf x w).
  destruct (f x w) as [[y | e | ] w1]; try exact Hf.
  specialize (IH w1).
  destruct (mapM f xs w1) as [[ys | e | ] w2]; cbn [snd] in *;
    eapply grows_trans; eauto.
Qed.

Lemma resolve_grows (gmail : gmailService) (decodeBase64 : string -> string)
      (historyEntry : historyEntry) (id : string) (w : world) :
  grows w
    (snd ((message <- _getMessageFromId gmail id ;;
           liftE (_parseMessage decodeBase64 message historyEntry)) w)).
Proof. rewrite resolve_world. eexists. reflexivity. Qed.

(* ================================================================== *)
(** ** The overlap of the label sets, at the level of a call *)

Lemma overlapping_labelFilters (w w' : world) :
  labelFilters w' = labelFilters w ->
  overlapping (w_api w) -> overlapping (w_api w').
Proof.
  unfold labelFilters. intros [= E1 E2] (withIds & withoutIds & l & H).
  exists withIds, withoutIds, l. now rewrite E1, E2.
Qed.

(** A cycle that returns has read the file, renewed the lease and
    written the file. *)
Lemma initialize_returns_trace (gmail : gmailService)
      (n : option notification) (token : option string) (w w' : world)
      (shouldProceed : bool) :
  _initialize gmail n token w = (Return shouldProceed, w') ->
  exists payload written,
    n = Some (Push payload)
    /\ w_trace w'
       = w_trace w
         ++ [ReadFile (prevHistoryIdFilePath (w_api w));
             Watch (np_emailAddress payload) (pubsubTopic (w_api w));
             WriteFile (prevHistoryIdFilePath (w_api w)) written].
Proof.
  destruct n as [[payload | e] | ]; [ | discriminate | discriminate].
  rewrite initialize_push. cbv zeta. intros H. exists payload.
  destruct (match w_file w with
            | FileError err => _
            | FileContent records => _
            end) as [err | records]; [discriminate | ].
  destruct (users_watch gmail _ _) as [err | expiration]; [discriminate | ].
  destruct (find _ records) as [ph | ]; [ | discriminate].
  destruct (jsLeq _ _); inversion H; subst; clear H; cbn [w_trace];
    eexists; (split; [reflexivity | ]); now rewrite <- !app_assoc.
Qed.

(** The steps of a retrieval leave the label filters as the options of
    the call configured them. *)
Lemma resolveHistory_labelFilters (gmail : gmailService)
      (decodeBase64 : string -> string) (history : list historyEntry)
      (w : world) :
  labelFilters (snd (resolveHistory gmail decodeBase64 history w))
  = labelFilters w.
Proof.
  unfold resolveHistory. apply mapM_labelFilters. intros e w0.
  apply mapM_labelFilters. intros id w1. apply resolve_labelFilters.
Qed.

Lemma resolveHistory_grows (gmail : gmailService)
      (decodeBase64 : string -> string) (history : list historyEntry)
      (w : world) :
  grows w (snd (resolveHistory gmail decodeBase64 history w)).
Proof.
  unfold resolveHistory. apply mapM_grows. intros e w0.
  apply mapM_grows. intros id w1. apply resolve_grows.
Qed.

(** A retrieval, step by step, on an instance whose include and exclude
    label sets share a label once the options of the call are set. *)
Lemma retrieval_under_overlap (gmail : gmailService)
      (decodeBase64 : string -> string) (fuel : nat) (opts : options)
      (w w1 w2 w3 w4 : world) (fetched : list historyEntry)
      (resolved : list (list parsedMessage)) :
  _getPropsFromOptions (Some opts) retrievalRules w = (Return opts, w) ->
  _setApiPropertiesWithProps opts w = (Return tt, w1) ->
  overlapping (w_api w1) ->
  _initialize gmail (o_notification opts) (o_token opts) w1
  = (Return true, w2) ->
  _getHistory gmail fuel None w2 = (Return fetched, w3) ->
  resolveHistory gmail decodeBase64 (_filterHistory (w_api w3) fetched) w3
  = (Return resolved, w4) ->
  getMessagesWithoutAttachment gmail decodeBase64 fuel (Some opts) w
  = (match concatAll resolved with
     | [] => Return []
     | _ :: _ => Throw overlapError
     end, w4)
  /\ exists payload written issued,
       o_notification opts = Some (Push payload)
       /\ w_trace w4
          = w_trace w
            ++ [ReadFile (prevHistoryIdFilePath (w_api w));
                Watch (np_emailAddress payload) (pubsubTopic (w_api w));
                WriteFile (prevHistoryIdFilePath (w_api w)) written]
            ++ issued.
Proof.
  intros Ok Hset Hov Hinit Hhist Hres. split.
  - unfold getMessagesWithoutAttachment.
    unfold bind at 1. rewrite Ok. unfold bind at 1. rewrite Hset.
    unfold bind at 1. rewrite Hinit. unfold bind at 1. rewrite Hhist.
    unfold bind at 1, getApi. cbn [w_api].
    destruct (_filterHistory (w_api w3) fetched) as [ | e history] eqn:Hf.
    + cbn in Hres. inversion Hres; subst. reflexivity.
    + cbn [List.length Nat.ltb Nat.leb]. unfold bind at 1.
      change (mapM _ (e :: history) w3)
        with (resolveHistory gmail decodeBase64 (e :: history) w3).
      rewrite Hres. apply filterM_overlap.
      pose proof (initialize_labelFilters gmail (o_notification opts)
                    (o_token opts) w1) as E2.
      pose proof (getHistory_labelFilters gmail fuel None w2) as E3.
      pose proof (resolveHistory_labelFilters gmail decodeBase64
                    (e :: history) w3) as E4.
      rewrite Hinit in E2. rewrite Hhist in E3. rewrite Hres in E4.
      cbn [snd] in E2, E3, E4.
      apply (overlapping_labelFilters w1); [congruence | assumption].
  - pose proof (setApiProperties_effect_aux opts w w1 Hset) as E1.
    destruct (initialize_returns_trace _ _ _ _ _ _ Hinit)
      as (payload & written & Hn & T2).
    destruct (getHistory_world gmail fuel None w2) as [issued T3].
    rewrite Hhist in T3. cbn [snd] in T3.
    destruct (resolveHistory_grows gmail decodeBase64
                (_filterHistory (w_api w3) fetched) w3) as [more T4].
    rewrite Hres in T4. cbn [snd] in T4.
    exists payload, written, (issued ++ more). split; [exact Hn | ].
    rewrite T4, T3. cbn [w_trace]. rewrite T2, E1.
    cbn [w_trace w_api prevHistoryIdFilePath pubsubTopic].
    now rewrite <- !app_assoc.
Qed.

(** A retrieval that returns, on an instance whose label sets overlap
    once the options are set, returns no message. *)
Lemma retrieval_returns_under_overlap (gmail : gmailService)
      (decodeBase64 : string -> string) (fuel : nat) (opts : options)
      (w w1 w' : world) (messages : list parsedMessage) :
  _setApiPropertiesWithProps opts w = (Return tt, w1) ->
  overlapping (w_api w1) ->
  getMessagesWithoutAttachment gmail decodeBase64 fuel (Some opts) w
  = (Return messages, w') ->
  messages = [].
Proof.
  intros Hset Hov.
  destruct (getPropsFromOptions_cases opts retrievalRules w)
    as [Ok | [err Ko]];
    [ | unfold getMessagesWithoutAttachment, bind; rewrite Ko; discriminate].
  destruct (_initialize gmail (o_notification opts) (o_token opts) w1)
    as [[[ | ] | e | ] w2] eqn:Hinit.
  2-4: unfold getMessagesWithoutAttachment;
       unfold bind at 1; rewrite Ok; unfold bind at 1; rewrite Hset;
       unfold bind at 1; rewrite Hinit;
       try discriminate; unfold ret; now intros [= <- _].
  destruct (_getHistory gmail fuel None w2) as [[fetched | e | ] w3]
    eqn:Hhist.
  2-3: unfold getMessagesWithoutAttachment;
       unfold bind at 1; rewrite Ok; unfold bind at 1; rewrite Hset;
       unfold bind at 1; rewrite Hinit; unfold bind at 1; rewrite Hhist;
       discriminate.
  destruct (resolveHistory gmail decodeBase64
              (_filterHistory (w_api w3) fetched) w3)
    as [[resolved | e | ] w4] eqn:Hres.
  - destruct (retrieval_under_overlap _ _ _ _ _ _ _ _ _ _ _
                Ok Hset Hov Hinit Hhist Hres) as [E _].
    rewrite E. destruct (concatAll resolved); [congruence | discriminate].
  - unfold getMessagesWithoutAttachment.
    unfold bind at 1. rewrite Ok. unfold bind at 1. rewrite Hset.
    unfold bind at 1. rewrite Hinit. unfold bind at 1. rewrite Hhist.
    unfold bind at 1, getApi. cbn [w_api].
    destruct (Nat.ltb 0 _); [ | unfold ret; now intros [= <- _]].
    unfold bind at 1. unfold resolveHistory in Hres. rewrite Hres.
    discriminate.
  - unfold getMessagesWithoutAttachment.
    unfold bind at 1. rewrite Ok. unfold bind at 1. rewrite Hset.
    unfold bind at 1. rewrite Hinit. unfold bind at 1. rewrite Hhist.
    unfold bind at 1, getApi. cbn [w_api].
    destruct (Nat.ltb 0 _); [ | unfold ret; now intros [= <- _]].
    unfold bind at 1. unfold resolveHistory in Hres. rewrite Hres.
    discriminate.
Qed.

(** Options whose label sets overlap configure an instance whose label
    sets overlap. *)
Lemma overlappingOptions_configured (opts : options) (w w1 : world) :
  overlappingOptions opts ->
  _setApiPropertiesWithProps opts w = (Return tt, w1) ->
  overlapping (w_api w1).
Proof.
  intros (withIds & withoutIds & l & Hw & Hwo & Hl1 & Hl2) Hset.
  apply (setApiProperties_labelFilters _ _ _ _ _ Hw Hwo) in Hset.
  unfold labelFilters in Hset. inversion Hset.
  now exists withIds, withoutIds, l.
Qed.

(** C3, as the code has it. The configuration error for include and
    exclude label sets that share a label id is thrown by the message
    filter, when it is applied to a message and before it reads the
    labels of that message. So a retrieval call on an instance whose
    label sets overlap once the options of the call are set, whether
    both sets come from these options or one was left by an earlier
    call, throws that error whenever its cycle answers that the
    notification is fresh, the history is fetched and the messages of
    the filtered history are resolved, and there is at least one of
    them; by then the call has read the history file, renewed the
    lease, written the file and issued its history and message requests.
    When these steps yield no message the call returns the empty list;
    and a call that returns under such a configuration, from these
    options or from the instance, returns the empty list. *)
Theorem overlap_error_at_first_message :
  (forall message w,
      overlapping (w_api w) ->
      _filterMessage message w = (Throw overlapError, w))
  /\ (forall messages w,
        overlapping (w_api w) ->
        filterM _filterMessage messages w
        = (match messages with
           | [] => Return []
           | _ :: _ => Throw overlapError
           end, w))
  /\ (forall gmail decodeBase64 fuel opts w w1 w2 w3 w4 fetched resolved,
        _getPropsFromOptions (Some opts) retrievalRules w = (Return opts, w) ->
        _setApiPropertiesWithProps opts w = (Return tt, w1) ->
        overlapping (w_api w1) ->
        _initialize gmail (o_notification opts) (o_token opts) w1
        = (Return true, w2) ->
        _getHistory gmail fuel None w2 = (Return fetched, w3) ->
        resolveHistory gmail decodeBase64
                       (_filterHistory (w_api w3) fetched) w3
        = (Return resolved, w4) ->
        getMessagesWithoutAttachment gmail decodeBase64 fuel (Some opts) w
        = (match concatAll resolved with
           | [] => Return []
           | _ :: _ => Throw overlapError
           end, w4)
        /\ exists payload written issued,
             o_notification opts = Some (Push payload)
             /\ w_trace w4
                = w_trace w
                  ++ [ReadFile (prevHistoryIdFilePath (w_api w));
                      Watch (np_emailAddress payload)
                            (pubsubTopic (w_api w));
                      WriteFile (prevHistoryIdFilePath (w_api w)) written]
                  ++ issued)
  /\ (forall gmail decodeBase64 fuel opts w w1 messages w',
        _setApiPropertiesWithProps opts w = (Return tt, w1) ->
        overlapping (w_api w1) ->
        getMessagesWithoutAttachment gmail decodeBase64 fuel (Some opts) w
        = (Return messages, w') ->
        messages = [])
  /\ (forall gmail decodeBase64 fuel opts w messages w',
        overlappingOptions opts ->
        getMessagesWithoutAttachment gmail decodeBase64 fuel (Some opts) w
        = (Return messages, w') ->
        messages = []).
Proof.
  split; [exact filterMessage_overlap | ].
  split; [exact filterM_overlap | ].
  split; [intros; eapply retrieval_under_overlap; eassumption | ].
  split; [intros; eapply retrieval_returns_under_overlap; eauto | ].
  intros gmail decodeBase64 fuel opts w messages w' Hov H.
  destruct (setApiProperties_silent opts w) as (_ & _ & Hfuel).
  destruct (_setApiPropertiesWithProps opts w) as [[[] | e | ] w1] eqn:Hset.
  - eapply retrieval_returns_under_overlap; eauto.
    eapply overlappingOptions_configured; eauto.
  - exfalso. revert H. unfold getMessagesWithoutAttachment, bind.
    destruct (getPropsFromOptions_cases opts retrievalRules w)
      as [Ok | [err Ko]]; [rewrite Ok, Hset | rewrite Ko]; discriminate.
  - now contradiction Hfuel.
Qed.

Lemma overlap_error_at_first_message_witness :
  fst (getMessagesWithoutAttachment twoPageService (fun data => data) 2
         (Some (overlappingRetrieval "user1@gmail.com" 20))
         knownAccountWorld)
  = Throw overlapError.
Proof.
  pose proof (proj1 (proj2 (proj2 overlap_error_at_first_message))
                twoPageService (fun data => data) 2
                (overlappingRetrieval "user1@gmail.com" 20)
                knownAccountWorld) as H.
  edestruct H as [E _].
  - reflexivity.
  - cbv. reflexivity.
  - exists ["INBOX"], ["INBOX"], "INBOX". repeat split; simpl; auto.
  - cbv. reflexivity.
  - cbv. reflexivity.
  - cbv. reflexivity.
  - rewrite E. reflexivity.
Defined.

(** The message filter on an instance whose label sets both hold
    ["INBOX"], applied to one message. *)
Lemma filter_under_overlap_example :
  filterM _filterMessage [parsedStub] overlappingWorld
  = (Throw overlapError, overlappingWorld).
Proof. reflexivity. Qed.

(** C3, as the specification words it, fails: a call configured with
    overlapping label sets does not always throw, let alone before any
    request. On a stale notification the cycle reads the file, renews
    the lease, writes the file and the call returns the empty list. *)
Lemma overlap_not_raised_on_stale_cycle :
  ~ (forall (gmail : gmailService) (decodeBase64 : string -> string)
            (fuel : nat) (opts : options) (w : world),
        overlappingOptions opts ->
        exists err w',
          getMessagesWithoutAttachment gmail decodeBase64 fuel (Some opts) w
          = (Throw err, w')
          /\ w_trace w' = w_trace w).
Proof.
  intros H.
  destruct (H renewingService (fun data => data) 1
              (overlappingRetrieval "user1@gmail.com" 7) knownAccountWorld)
    as (err & w' & E & _).
  - exists ["INBOX"], ["INBOX"], "INBOX". repeat split; simpl; auto.
  - vm_compute in E. discriminate E.
Qed.

(** What that call does. *)
Lemma overlap_stale_cycle_example :
  getMessagesWithoutAttachment renewingService (fun data => data) 1
    (Some (overlappingRetrieval "user1@gmail.com" 7)) knownAccountWorld
  = (Return [],
     World (setWithoutLabelIds (Some ["INBOX"])
              (setWithLabelIds (Some ["INBOX"])
                 (Api DEFAULT_HISTORY_ID_FILE_PATH
                      [PrevHistory "user1@gmail.com" (Num 10) (Num 1000)]
                      "topic" "user1@gmail.com" None VALID_HISTORY_TYPES
                      None None None None)))
           (FileContent [PrevHistory "user1@gmail.com" (Num 10) (Num 1000)])
           [ReadFile DEFAULT_HISTORY_ID_FILE_PATH;
            Watch "user1@gmail.com" "topic";
            WriteFile DEFAULT_HISTORY_ID_FILE_PATH
                      [PrevHistory "user1@gmail.com" (Num 10) (Num 1000)]]).
Proof. reflexivity. Qed.

(** On a fresh notification with one message to filter, the error is
    thrown, after the cycle, the history request and the resolution of
    the message. *)
Lemma overlap_error_after_requests :
  fst (getMessagesWithoutAttachment twoPageService (fun data => data) 2
         (Some (overlappingRetrieval "user1@gmail.com" 20))
         knownAccountWorld)
  = Throw overlapError
  /\ w_trace
       (snd (getMessagesWithoutAttachment twoPageService (fun data => data) 2
               (Some (overlappingRetrieval "user1@gmail.com" 20))
               knownAccountWorld))
     = [ReadFile DEFAULT_HISTORY_ID_FILE_PATH;
        Watch "user1@gmail.com" "topic";
        WriteFile DEFAULT_HISTORY_ID_FILE_PATH
                  [PrevHistory "user1@gmail.com" (Num 20) (Num 1000)];
        HistoryList "user1@gmail.com" (Some (Num 10)) None;
        HistoryList "user1@gmail.com" (Some (Num 10)) (Some "page2");
        MessagesGet "m2" "user1@gmail.com"].
Proof. split; reflexivity. Qed.

(** The same error when the options of the call carry the include set
    only and an earlier call left the exclude set in the instance. *)
Lemma overlap_error_from_earlier_call :
  ~ overlappingOptions (includingRetrieval "user1@gmail.com" 20)
  /\ fst (getMessagesWithoutAttachment twoPageService (fun data => data) 2
            (Some (includingRetrieval "user1@gmail.com" 20)) excludingWorld)
     = Throw overlapError.
Proof.
  split; [ | reflexivity].
  intros (withIds & withoutIds & l & _ & H & _). discriminate H.
Qed.

(** X18. A retrieval call on a fresh notification (a counter that is not
    less than or equal to the one the history file holds for the
    account: one above it, or one that is not a number), with options
    that pass validation and a lease renewal that succeeds, reads the
    file, renews the lease, writes the file with the notification's
    counter and then requests the history of that account from the
    counter the file held before the call, without a page token.
    Whatever else the call requests comes after. *)
Theorem fresh_notification_fetches_from_stored_counter
        (gmail : gmailService) (decodeBase64 : string -> string) (fuel : nat)
        (opts : options) (payload : notificationPayload) (w w1 : world)
        (ph : prevHistory) (expiration : jsNumber) :
  _getPropsFromOptions (Some opts) retrievalRules w = (Return opts, w) ->
  _setApiPropertiesWithProps opts w = (Return tt, w1) ->
  o_notification opts = Some (Push payload) ->
  storedRecord w (np_emailAddress payload) = Some ph ->
  users_watch gmail (np_emailAddress payload) (pubsubTopic (w_api w))
  = inr expiration ->
  jsLeq (np_historyId payload) (prevHistoryId ph) = false ->
  exists written later,
    w_trace (snd (getMessagesWithoutAttachment gmail decodeBase64 (S fuel)
                    (Some opts) w))
    = w_trace w
      ++ [ReadFile (prevHistoryIdFilePath (w_api w));
          Watch (np_emailAddress payload) (pubsubTopic (w_api w));
          WriteFile (prevHistoryIdFilePath (w_api w)) written;
          HistoryList (np_emailAddress payload) (Some (prevHistoryId ph)) None]
      ++ later
    /\ recordOf (np_emailAddress payload) written
       = Some (PrevHistory (np_emailAddress payload) (np_historyId payload)
                           expiration).
Proof.
  unfold storedRecord. intros Ok Hset Hn Hph Hw Hlt.
  destruct (w_file w) as [ferr | records] eqn:F; [discriminate | ].
  pose proof (setApiProperties_effect_aux opts w w1 Hset) as E1.
  unfold getMessagesWithoutAttachment.
  unfold bind at 1. rewrite Ok. unfold bind at 1. rewrite Hset, Hn.
  unfold bind at 1. rewrite initialize_push. cbv zeta. subst w1.
  cbn [w_api w_file w_trace pubsubTopic prevHistoryIdFilePath].
  rewrite F, Hw. pose proof Hph as Hfind. unfold recordOf in Hfind.
  rewrite Hfind, Hlt.
  set (written :=
         updateFound
           (fun ph0 => emailAddress ph0 =? np_emailAddress payload)
           (setPrevHistoryId (np_historyId payload))
           (updateFound
              (fun ph0 => emailAddress ph0 =? np_emailAddress payload)
              (setWatchExpiration expiration) (map jsonRecord records))).
  exists written.
  assert (Hrec : recordOf (np_emailAddress payload) written
                 = Some (PrevHistory (np_emailAddress payload)
                                     (np_historyId payload)
                                     expiration)).
  { unfold written.
    rewrite !recordOf_updateFound, String.eqb_refl, Hph by reflexivity.
    cbn. f_equal. unfold setPrevHistoryId, setWatchExpiration. cbn.
    f_equal. apply find_some in Hfind as [_ E].
    now apply String.eqb_eq in E. }
  match goal with
  | |- context [bind (_getHistory gmail (S fuel) None) ?k ?w0] =>
      set (k0 := k); set (w2 := w0)
  end.
  assert (Step : exists later,
             w_trace (snd (_getHistory gmail (S fuel) None w2))
             = w_trace w2
               ++ [HistoryList (np_emailAddress payload)
                               (Some (prevHistoryId ph)) None]
               ++ later).
  { destruct (users_history_list gmail (api_emailAddress (w_api w2))
                (startHistoryId (w_api w2)) None) as [err | page] eqn:EL.
    - rewrite (getHistory_rejection gmail fuel None w2 err EL).
      exists []. reflexivity.
    - rewrite (getHistory_step gmail fuel None w2 page EL). cbv zeta.
      destruct (Js.truthy (nextPageToken page)); [ | exists []; reflexivity].
      unfold bind.
      match goal with
      | |- context [_getHistory gmail fuel ?t ?w0] =>
          destruct (getHistory_world gmail fuel t w0) as [issued G];
          destruct (_getHistory gmail fuel t w0) as [[r | e | ] w3];
          cbn [snd] in G |- *; subst w3; exists issued;
          cbn [w_trace]; now rewrite <- app_assoc
      end. }
  destruct Step as [later Step].
  assert (Tail : grows (snd (_getHistory gmail (S fuel) None w2))
                       (snd (bind (_getHistory gmail (S fuel) None) k0 w2))).
  { unfold bind.
    destruct (_getHistory gmail (S fuel) None w2) as [[fetched | e | ] w3];
      try apply grows_refl.
    unfold k0. unfold bind at 1, getApi. cbn [snd].
    destruct (Nat.ltb 0 (List.length (_filterHistory (w_api w3) fetched)));
      [ | apply grows_refl].
    unfold bind at 1.
    match goal with
    | |- context [mapM ?f ?xs w3] =>
        pose proof (mapM_grows f
                      (fun e => mapM_grows _
                                  (resolve_grows gmail decodeBase64 e)
                                  (he_messages e))
                      xs w3) as G;
        destruct (mapM f xs w3) as [[resolved | e | ] w4]
    end; cbn [snd] in G |- *; try exact G.
    pose proof (filterM_frame (fun w => w) _filterMessage filterMessage_world
                              (fold_left (fun messages message =>
                                            messages ++ message)
                                         resolved []) w4) as E5.
    cbn beta in E5. rewrite E5. exact G. }
  destruct Tail as [more Tail]. rewrite Tail, Step.
  exists (later ++ more). split; [ | exact Hrec].
  unfold w2. cbn [w_trace]. rewrite <- !app_assoc. reflexivity.
Qed.

Lemma fresh_notification_fetches_from_stored_counter_witness :
  exists written later,
    w_trace (snd (getMessagesWithoutAttachment mailboxService
                    (fun data => data) 1 (retrieval "user1@gmail.com" 20)
                    knownAccountWorld))
    = w_trace knownAccountWorld
      ++ [ReadFile (prevHistoryIdFilePath (w_api knownAccountWorld));
          Watch "user1@gmail.com" (pubsubTopic (w_api knownAccountWorld));
          WriteFile (prevHistoryIdFilePath (w_api knownAccountWorld)) written;
          HistoryList "user1@gmail.com" (Some (Num 10)) None]
      ++ later
    /\ recordOf "user1@gmail.com" written
       = Some (PrevHistory "user1@gmail.com" (Num 20) (Num 1000)).
Proof.
  apply (fresh_notification_fetches_from_stored_counter mailboxService
           (fun data => data) 0
           (Options (pushFor "user1@gmail.com" 20) (Some "token")
                    None None None None None [])
           (NotificationPayload "user1@gmail.com" (Num 20)) knownAccountWorld
           (World (setHistoryTypes VALID_HISTORY_TYPES
                     (w_api knownAccountWorld))
                  (w_file knownAccountWorld) (w_trace knownAccountWorld))
           (PrevHistory "user1@gmail.com" (Num 10) (Num 5)) (Num 1000));
    reflexivity.
Defined.

(* ================================================================== *)
(** ** Further properties: the parsed address *)

(** A successful match of a pattern without group consumed a prefix of
    the input, advanced the index by its length and passed the captures
    on as they were. *)
Lemma m_consumes {R : Type} (r : regex) :
  groupFree r = true ->
  forall s pos c (k : cont R) x,
    m r s pos c k = Some x ->
    exists l s',
      s = l ++ s' /\ k s' (pos + List.length l) c = Some x.
Proof.
  induction r as [ | p | | r1 IH1 r2 IH2 | r1 IH1 r2 IH2 | r1 IH1 | p
                   | i r1 IH1 ]; intros G s pos c k x H;
    cbn [groupFree] in G.
  - exists [], s. now rewrite Nat.add_0_r.
  - destruct s as [ | a s']; [discriminate | ].
    rewrite m_Class_cons in H. destruct (p a); [ | discriminate].
    exists [a], s'. now rewrite Nat.add_1_r.
  - simpl in H. destruct (Nat.eqb pos 0); [ | discriminate].
    exists [], s. now rewrite Nat.add_0_r.
  - apply andb_prop in G as [G1 G2]. rewrite m_Seq in H.
    apply (IH1 G1) in H as (l1 & s1 & -> & H).
    apply (IH2 G2) in H as (l2 & s2 & -> & H).
    exists (l1 ++ l2), s2.
    now rewrite length_app, Nat.add_assoc, app_assoc.
  - apply andb_prop in G as [G1 G2]. simpl in H.
    destruct (m r1 s pos c k) eqn:E.
    + inversion H; subst. now apply (IH1 G1) in E.
    + now apply (IH2 G2) in H.
  - rewrite m_Opt in H. destruct (m r1 s pos c k) eqn:E.
    + inversion H; subst. now apply (IH1 G) in E.
    + exists [], s. now rewrite Nat.add_0_r.
  - revert pos H. induction s as [ | a s' IHs]; intros pos H.
    + exists [], []. now rewrite Nat.add_0_r.
    + rewrite m_StarC_cons in H. destruct (p a).
      * destruct (m (StarC p) s' (S pos) c k) eqn:E.
        -- inversion H; subst.
           apply IHs in E as (l & s1 & -> & E).
           exists (a :: l), s1. cbn [List.length app].
           now rewrite Nat.add_succ_r.
        -- exists [], (a :: s'). now rewrite Nat.add_0_r.
      * exists [], (a :: s'). now rewrite Nat.add_0_r.
  - discriminate.
Qed.

(** What the second group of the address pattern captures holds an
    ["@"]. *)
Lemma addressBody_consumes {R : Type} (k : cont R) s pos c x :
  m addressBody s pos c k = Some x ->
  exists l s',
    s = l ++ s' /\ In "@"%char l /\ k s' (pos + List.length l) c = Some x.
Proof.
  unfold addressBody. rewrite m_Seq. intros H.
  apply (m_consumes (plusC dot) eq_refl) in H as (l1 & s1 & -> & H).
  rewrite m_Seq in H. unfold chr in H.
  destruct s1 as [ | a s1]; [discriminate | ].
  rewrite m_Class_cons in H.
  destruct (Ascii.eqb "@" a) eqn:Ea; [ | discriminate].
  apply Ascii.eqb_eq in Ea. subst a.
  apply (m_consumes (plusC notGt) eq_refl) in H as (l2 & s2 & -> & H).
  exists (l1 ++ "@"%char :: l2), s2. split; [ | split].
  - now rewrite <- app_assoc.
  - apply in_or_app. right. now left.
  - rewrite length_app. cbn [List.length].
    rewrite <- H. f_equal. lia.
Qed.

Lemma firstn_consumed {A : Type} (l s : list A) (pos : nat) :
  firstn (pos + List.length l - pos) (l ++ s) = l.
Proof.
  replace (pos + List.length l - pos) with (List.length l + 0) by lia.
  rewrite firstn_app_2. simpl. apply app_nil_r.
Qed.

(** X19. The address [_parseEmailAddressHeader] returns is a piece of
    the header that holds an ["@"] whenever the pattern matches, and the
    header itself otherwise. *)
Theorem parsed_address_is_part_of_header (header : string) :
  match exec emailAddressRegex header with
  | Some _ =>
      exists before after,
        list_ascii_of_string header
        = before
          ++ list_ascii_of_string
               (address (_parseEmailAddressHeader header))
          ++ after
        /\ In "@"%char
              (list_ascii_of_string
                 (address (_parseEmailAddressHeader header)))
  | None => address (_parseEmailAddressHeader header) = header
  end.
Proof.
  unfold _parseEmailAddressHeader.
  destruct (exec emailAddressRegex header) as [res | ] eqn:E;
    [ | reflexivity].
  cbn [address]. unfold exec in E.
  apply execFrom_matches in E as (s0 & pos0 & [l0 S0] & E).
  unfold emailAddressRegex in E. rewrite m_Seq in E.
  apply m_reaches_continuation in E as (s1 & p1 & c1 & E & [l1 S1] & _).
  rewrite m_Seq in E.
  apply m_reaches_continuation in E as (s2 & p2 & c2 & E & [l2 S2] & _).
  rewrite m_Seq, m_Group in E.
  apply addressBody_consumes in E as (l & s3 & -> & Hat & E).
  apply (m_consumes (Opt (chr ">")) eq_refl) in E as (l4 & s4 & -> & E).
  inversion E; subst; clear E.
  unfold group. cbn [mCaptures capture Nat.eqb].
  rewrite firstn_consumed, list_ascii_of_string_of_list_ascii.
  exists (l0 ++ l1 ++ l2), (l4 ++ s4). split; [ | exact Hat].
  rewrite S0. now rewrite <- !app_assoc.
Qed.
